(** * Developer Reliability API: metrics aggregation and scoring engine

    A shallow embedding of [src/app/scoring.py] (the scoring engine), of the
    [developers] aggregation query and the scoring pass of
    [src/data/init_db.py], of the API layer ([src/app/config.py],
    [src/app/auth.py], [src/app/database.py],
    [src/app/routers/developers.py]) and of the export of
    [src/dashboard/generate_data.py].

    Number model.  Python [int] is unbounded and is embedded as [Z].  The
    scoring engine is embedded twice.

    - [Scoring] reads a Python [float] as a real number ([R]): every float
      operation of the source ([/], [*], [+], [-], [math.log1p], [min],
      [round]) is the exact operation on reals, and only finite values are
      represented.  [Optional[float]] is [option R].  It describes the
      engine on finite floats and on counts that fit a float, where no
      operation of [scoring.py] raises: every division has a non-zero
      constant or a guarded divisor, and [log1p] is only applied to positive
      arguments.

    - [Py] and [PyScoring] embed the same functions on every value a Python
      [float] or [int] can hold: NaN and the infinities, finite results that
      overflow to an infinity, and the [OverflowError] of an [int] that no
      float holds.  Statements about every input are made there.

    The two agree on the inputs of [Scoring] whose counts are non-negative
    and fit a float ([PyScoringFacts.compute_score_of_finite]). *)

From Stdlib Require Import ZArith Lia Reals Lra Zfloor.
From stdpp Require Import base decidable list strings gmap sets sorting.
From Stdlib Require Import Ascii.

(** ** Scoring engine ([src/app/scoring.py]) *)

Module Scoring.

Local Open Scope R_scope.

(** [@dataclass ScoringInput]. *)
Record ScoringInput : Type := mkScoringInput {
  operational : Z;
  withdrawn : Z;
  total_projects : Z;
  avg_timeline_days : option R;   (* None if no COD data *)
  num_regions : Z;
  num_fuel_types : Z;
  active_projects : Z;
  years_since_first : R
}.

(** Benchmarks. *)
Definition TIMELINE_EXCELLENT : Z := 365.
Definition TIMELINE_POOR : Z := 365 * 6.
Definition VOLUME_CAP : Z := 200.
Definition REGIONS_MAX : Z := 9.
Definition FUEL_TYPES_MAX : Z := 8.
Definition PIPELINE_CAP : Z := 50.
Definition DEPTH_MAX : Z := 20.

(** [math.log1p]. *)
Definition log1p (x : R) : R := ln (1 + x).

(** Python's two-argument [min(a, b)]: [b] when [b < a], else [a]. *)
Definition py_min (a b : R) : R := if Rlt_dec b a then b else a.

(** Rounding of a real to the nearest integer, ties to the even neighbour. *)
Definition round_half_even (y : R) : Z :=
  let f := Zfloor y in
  let d := y - IZR f in
  if Rlt_dec d (1 / 2) then f
  else if Rlt_dec (1 / 2) d then (f + 1)%Z
  else if Z.even f then f else (f + 1)%Z.

(** Python's [round(x, ndigits)] on a float: the closest multiple of
    [10^-ndigits], ties to even. *)
Definition py_round (x : R) (ndigits : nat) : R :=
  IZR (round_half_even (x * 10 ^ ndigits)) / 10 ^ ndigits.

Definition score_completion_rate (operational withdrawn : Z) : R :=
  let resolved := (operational + withdrawn)%Z in
  if (resolved =? 0)%Z then 0
  else (IZR operational / IZR resolved) * 100.

Definition score_timeline (avg_days : option R) : R :=
  match avg_days with
  | None => 50
  | Some d =>
      if Rle_dec d 0 then 50
      else if Rle_dec d (IZR TIMELINE_EXCELLENT) then 100
      else if Rle_dec (IZR TIMELINE_POOR) d then 0
      else 100 * (1 - (d - IZR TIMELINE_EXCELLENT)
                       / IZR (TIMELINE_POOR - TIMELINE_EXCELLENT))
  end.

Definition score_volume (total : Z) : R :=
  if (total <=? 0)%Z then 0
  else py_min 100 ((log1p (IZR total) / log1p (IZR VOLUME_CAP)) * 100).

Definition score_breadth (num_regions : Z) : R :=
  py_min 100 ((IZR num_regions / IZR REGIONS_MAX) * 100).

Definition score_diversity (num_types : Z) : R :=
  py_min 100 ((IZR num_types / IZR FUEL_TYPES_MAX) * 100).

Definition score_pipeline (active : Z) : R :=
  if (active <=? 0)%Z then 0
  else py_min 100 ((log1p (IZR active) / log1p (IZR PIPELINE_CAP)) * 100).

Definition score_depth (years : R) : R :=
  if Rle_dec years 0 then 0
  else py_min 100 ((years / IZR DEPTH_MAX) * 100).

(** The keys of the [WEIGHTS] dict and its values. *)
Inductive component : Type :=
  | completion | timeline | volume | breadth | diversity | pipeline | depth.

Definition WEIGHTS (c : component) : R :=
  match c with
  | completion => 30 / 100
  | timeline => 20 / 100
  | volume => 15 / 100
  | breadth => 10 / 100
  | diversity => 10 / 100
  | pipeline => 10 / 100
  | depth => 5 / 100
  end.


(** The dict returned by [compute_score], one field per key.  The key
    ["avg_timeline_days"] is the field [out_avg_timeline_days] (the input
    record already has a field of that name). *)
Record ScoreResult : Type := mkScoreResult {
  score : R;
  completion_rate : R;
  completion_rate_score : R;
  out_avg_timeline_days : option R;
  timeline_score : R;
  project_volume : Z;
  volume_score : R;
  regional_breadth : Z;
  breadth_score : R;
  tech_diversity : Z;
  diversity_score : R;
  active_pipeline : Z;
  pipeline_score : R;
  track_record_years : R;
  depth_score : R
}.

(** The unrounded weighted sum formed inside [compute_score]. *)
Definition composite (inp : ScoringInput) : R :=
  WEIGHTS completion * score_completion_rate (operational inp) (withdrawn inp)
  + WEIGHTS timeline * score_timeline (avg_timeline_days inp)
  + WEIGHTS volume * score_volume (total_projects inp)
  + WEIGHTS breadth * score_breadth (num_regions inp)
  + WEIGHTS diversity * score_diversity (num_fuel_types inp)
  + WEIGHTS pipeline * score_pipeline (active_projects inp)
  + WEIGHTS depth * score_depth (years_since_first inp).

(** [compute_score]: [None] is Python's [None] (developer not qualified). *)
Definition compute_score (inp : ScoringInput) : option ScoreResult :=
  let resolved := (operational inp + withdrawn inp)%Z in
  if (resolved <? 5)%Z then None
  else
    Some {|
      score := py_round (composite inp) 1;
      completion_rate :=
        if (resolved =? 0)%Z then 0
        else py_round (IZR (operational inp) / IZR resolved) 4;
      completion_rate_score :=
        py_round (score_completion_rate (operational inp) (withdrawn inp)) 1;
      out_avg_timeline_days :=
        match avg_timeline_days inp with
        | None => None
        | Some d => if Req_dec_T d 0 then None else Some (py_round d 1)
        end;
      timeline_score := py_round (score_timeline (avg_timeline_days inp)) 1;
      project_volume := total_projects inp;
      volume_score := py_round (score_volume (total_projects inp)) 1;
      regional_breadth := num_regions inp;
      breadth_score := py_round (score_breadth (num_regions inp)) 1;
      tech_diversity := num_fuel_types inp;
      diversity_score := py_round (score_diversity (num_fuel_types inp)) 1;
      active_pipeline := active_projects inp;
      pipeline_score := py_round (score_pipeline (active_projects inp)) 1;
      track_record_years := py_round (years_since_first inp) 1;
      depth_score := py_round (score_depth (years_since_first inp)) 1
    |}.


(** [dataclasses.replace(inp, avg_timeline_days=a)]: the same input with
    another average duration. *)
Definition with_avg_timeline_days (a : option R) (inp : ScoringInput)
    : ScoringInput :=
  {| operational := operational inp; withdrawn := withdrawn inp;
     total_projects := total_projects inp; avg_timeline_days := a;
     num_regions := num_regions inp; num_fuel_types := num_fuel_types inp;
     active_projects := active_projects inp;
     years_since_first := years_since_first inp |}.

(** Concrete inputs used below. *)

(** Scenario A of the specification. *)
Definition scenario_A : ScoringInput :=
  {| operational := 8; withdrawn := 2; total_projects := 10;
     avg_timeline_days := Some 600; num_regions := 3; num_fuel_types := 2;
     active_projects := 5; years_since_first := 10 |}.

(** Scenario B of the specification: two resolved outcomes only. *)
Definition scenario_B : ScoringInput :=
  {| operational := 1; withdrawn := 1; total_projects := 40;
     avg_timeline_days := Some 400; num_regions := 9; num_fuel_types := 8;
     active_projects := 38; years_since_first := 25 |}.


End Scoring.

(** ** Metrics aggregation (the [developers] table of [src/data/init_db.py]) *)

Module Aggregator.

Local Open Scope string_scope.
Local Open Scope Z_scope.

(** A row of the source [projects] table.  Every column is nullable.  Only
    the columns read by the status counts and by the region and fuel-type
    aggregates are kept; capacity, dates and the descriptive columns are left
    out. *)
Record ProjectRecord : Type := mkProjectRecord {
  region : option string;
  developer_canonical : option string;
  type_std : option string;
  status_std : option string
}.

(** [WHERE developer_canonical IS NOT NULL AND developer_canonical != ''] *)
Definition has_developer (r : ProjectRecord) : Prop :=
  match developer_canonical r with
  | Some s => s <> ""
  | None => False
  end.

#[global] Instance has_developer_dec r : Decision (has_developer r).
Proof. unfold has_developer. destruct (developer_canonical r); apply _. Defined.

(** [CREATE TABLE projects AS SELECT ... WHERE ...] *)
Definition projects (src : list ProjectRecord) : list ProjectRecord :=
  filter has_developer src.

(** [status_std = 'label']: a NULL status satisfies no such comparison. *)
Definition status_is (label : string) (r : ProjectRecord) : Prop :=
  status_std r = Some label.

#[global] Instance status_is_dec label r : Decision (status_is label r).
Proof. unfold status_is. apply _. Defined.

(** [type_std IS NOT NULL] *)
Definition has_type (r : ProjectRecord) : Prop := is_Some (type_std r).

(** [COUNT( * )] *)
Definition count_star (rows : list ProjectRecord) : Z :=
  Z.of_nat (length rows).

(** [COUNT( * ) FILTER (WHERE p)] *)
Definition count_filter (p : ProjectRecord -> Prop) `{forall r, Decision (p r)}
    (rows : list ProjectRecord) : Z :=
  Z.of_nat (length (filter p rows)).

(** The distinct non-NULL values of a column (an aggregate skips NULLs). *)
Definition distinct_values (col : ProjectRecord -> option string)
    (rows : list ProjectRecord) : list string :=
  remove_dups (omap col rows).

(** [COUNT(DISTINCT col)] *)
Definition count_distinct (col : ProjectRecord -> option string)
    (rows : list ProjectRecord) : Z :=
  Z.of_nat (length (distinct_values col rows)).

(** Insertion sort by [String.leb] (byte-wise order): [ORDER BY col]. *)
Fixpoint insert_sorted (x : string) (l : list string) : list string :=
  match l with
  | [] => [x]
  | y :: l' => if String.leb x y then x :: l else y :: insert_sorted x l'
  end.

Definition order_by (l : list string) : list string :=
  foldr insert_sorted [] l.

(** The entries that [STRING_AGG(DISTINCT col, ', ' ORDER BY col)] joins. *)
Definition aggregated_values (col : ProjectRecord -> option string)
    (rows : list ProjectRecord) : list string :=
  order_by (distinct_values col rows).

(** [STRING_AGG(DISTINCT col, ', ' ORDER BY col)]: NULL when no value is
    aggregated. *)
Definition string_agg_distinct (col : ProjectRecord -> option string)
    (rows : list ProjectRecord) : option string :=
  match aggregated_values col rows with
  | [] => None
  | vs => Some (String.concat ", " vs)
  end.

(** A row of the [developers] table (the columns derived from the columns
    kept in [ProjectRecord]). *)
Record DeveloperMetrics : Type := mkDeveloperMetrics {
  name : string;
  total_projects : Z;
  operational : Z;
  withdrawn : Z;
  active : Z;
  under_construction : Z;
  suspended : Z;
  regions : option string;
  num_regions : Z;
  fuel_types : option string;
  num_fuel_types : Z
}.

(** The select list of the [base] CTE over one [GROUP BY] group. *)
Definition aggregate (dev : string) (rows : list ProjectRecord)
    : DeveloperMetrics :=
  {| name := dev;
     total_projects := count_star rows;
     operational := count_filter (status_is "Operational") rows;
     withdrawn := count_filter (status_is "Withdrawn") rows;
     active := count_filter (status_is "Active") rows;
     under_construction := count_filter (status_is "Under Construction") rows;
     suspended := count_filter (status_is "Suspended") rows;
     regions := string_agg_distinct region rows;
     num_regions := count_distinct region rows;
     fuel_types := string_agg_distinct type_std (filter has_type rows);
     num_fuel_types := count_distinct type_std (filter has_type rows) |}.

(** The rows of one [GROUP BY developer_canonical] group. *)
Definition group (dev : string) (rows : list ProjectRecord)
    : list ProjectRecord :=
  filter (fun r => developer_canonical r = Some dev) rows.

(** The metrics row of developer [dev] computed from the source table. *)
Definition metrics_of (src : list ProjectRecord) (dev : string)
    : DeveloperMetrics :=
  aggregate dev (group dev (projects src)).

(** [CREATE TABLE developers AS ... GROUP BY developer_canonical]: one row
    per distinct developer of [projects]. *)
Definition developers (src : list ProjectRecord) : list DeveloperMetrics :=
  map (metrics_of src) (distinct_values developer_canonical (projects src)).


Definition fuel_type_set (rows : list ProjectRecord) : gset string :=
  list_to_set (omap type_std rows).

(** The five enumerated status labels, and the rows carrying none of them
    (another label, another letter case, or NULL). *)
Definition known_statuses : list string :=
  ["Operational"; "Withdrawn"; "Active"; "Under Construction"; "Suspended"].

Definition other_status (r : ProjectRecord) : Prop :=
  Forall (fun label => ~ status_is label r) known_statuses.

#[global] Instance other_status_dec r : Decision (other_status r).
Proof. unfold other_status. apply _. Defined.

(** What one row adds to a filtered count. *)
Definition indicator (P : Prop) `{Decision P} : Z := if decide P then 1 else 0.

(** Concrete rows used below. *)
Definition solar_row : ProjectRecord :=
  {| region := Some "PJM"; developer_canonical := Some "Acme";
     type_std := Some "Solar"; status_std := Some "Operational" |}.

Definition untyped_row : ProjectRecord :=
  {| region := Some "MISO"; developer_canonical := Some "Acme";
     type_std := None; status_std := Some "Withdrawn" |}.

Definition empty_type_row : ProjectRecord :=
  {| region := Some "MISO"; developer_canonical := Some "Acme";
     type_std := Some ""; status_std := Some "Withdrawn" |}.


End Aggregator.

(** ** Python values and exceptions

    [Scoring] above computes on finite reals and unbounded integers.  This
    module adds what a Python [float] and an [int] do beyond that: NaN and
    the two infinities, which compare and propagate as in IEEE 754, a finite
    result outside the binary64 range becoming an infinity, and the
    exceptions raised when an [int] does not fit a float or a divisor is
    zero.  Finite arithmetic is still exact: a result keeps the real value
    that binary64 would round by at most half a unit in the last place.
    Where the code turns a quotient into an integer ([math.ceil]), the
    rounding of the quotient is modelled too ([round_binary64]). *)

Module Py.

Local Open Scope R_scope.

(** A Python float. *)
Inductive pyfloat : Type :=
  | Fin (x : R)
  | Inf (negative : bool)
  | NaN.

(** The exceptions that the embedded code can raise. *)
Inductive exn : Type :=
  | OverflowError
  | ZeroDivisionError
  | ValueError
  | ValidationError.

(** The outcome of a call: a returned value or a raised exception. *)
Inductive outcome (A : Type) : Type :=
  | Return (a : A)
  | Raise (e : exn).
Arguments Return {A} a.
Arguments Raise {A} e.

#[global] Instance outcome_ret : MRet outcome := fun A a => Return a.

#[global] Instance outcome_bind : MBind outcome :=
  fun A B f m => match m with Return a => f a | Raise e => Raise e end.

(** The least magnitude that binary64 rounds to an infinity: the largest
    float is [2^1024 - 2^971], and a value halfway to [2^1024] or beyond
    does not fit. *)
Definition FLOAT_LIMIT : Z := 2 ^ 1024 - 2 ^ 970.

Definition negative_real (x : R) : bool :=
  if Rlt_dec x 0 then true else false.

(** The float of a real result: itself within range, else an infinity. *)
Definition fin (x : R) : pyfloat :=
  if Rlt_dec (Rabs x) (IZR FLOAT_LIMIT) then Fin x
  else Inf (negative_real x).

(** [float(n)] of an [int], as done by [math.log1p(n)]. *)
Definition float_of_int (n : Z) : outcome pyfloat :=
  if (Z.abs n <? FLOAT_LIMIT)%Z then Return (Fin (IZR n))
  else Raise OverflowError.

(** [a / b] on two [int]s: the quotient, [ZeroDivisionError] for a zero
    divisor, [OverflowError] when the quotient does not fit a float. *)
Definition int_truediv (a b : Z) : outcome pyfloat :=
  if (b =? 0)%Z then Raise ZeroDivisionError
  else if (Z.abs a <? FLOAT_LIMIT * Z.abs b)%Z
       then Return (Fin (IZR a / IZR b))
       else Raise OverflowError.

(** Float arithmetic. *)
Definition fneg (a : pyfloat) : pyfloat :=
  match a with
  | Fin x => Fin (- x)
  | Inf s => Inf (negb s)
  | NaN => NaN
  end.

Definition fadd (a b : pyfloat) : pyfloat :=
  match a, b with
  | NaN, _ | _, NaN => NaN
  | Fin x, Fin y => fin (x + y)
  | Inf s, Fin _ | Fin _, Inf s => Inf s
  | Inf s, Inf s' => if Bool.eqb s s' then Inf s else NaN
  end.

Definition fsub (a b : pyfloat) : pyfloat := fadd a (fneg b).

Definition fmul (a b : pyfloat) : pyfloat :=
  match a, b with
  | NaN, _ | _, NaN => NaN
  | Fin x, Fin y => fin (x * y)
  | Inf s, Fin y | Fin y, Inf s =>
      if Req_dec_T y 0 then NaN else Inf (xorb s (negative_real y))
  | Inf s, Inf s' => Inf (xorb s s')
  end.

(** [a / b] on floats; a zero divisor raises whatever the dividend. *)
Definition fdiv (a b : pyfloat) : outcome pyfloat :=
  match b with
  | Fin y =>
      if Req_dec_T y 0 then Raise ZeroDivisionError
      else Return match a with
                  | Fin x => fin (x / y)
                  | Inf s => Inf (xorb s (negative_real y))
                  | NaN => NaN
                  end
  | Inf _ => Return match a with Fin _ => Fin 0 | _ => NaN end
  | NaN => Return NaN
  end.

(** [a <= b] and [a < b]: false as soon as one side is NaN. *)
Definition fle (a b : pyfloat) : bool :=
  match a, b with
  | NaN, _ | _, NaN => false
  | Fin x, Fin y => if Rle_dec x y then true else false
  | Inf true, _ => true
  | _, Inf false => true
  | Inf false, _ => false
  | _, Inf true => false
  end.

Definition flt (a b : pyfloat) : bool :=
  match a, b with
  | NaN, _ | _, NaN => false
  | Fin x, Fin y => if Rlt_dec x y then true else false
  | Inf true, Inf true => false
  | Inf false, Inf false => false
  | Inf true, _ => true
  | _, Inf false => true
  | Inf false, _ => false
  | _, Inf true => false
  end.

(** Python's two-argument [min(a, b)]: [b] when [b < a], else [a]. *)
Definition fmin (a b : pyfloat) : pyfloat := if flt b a then b else a.

(** [round(a, ndigits)]: NaN and the infinities round to themselves. *)
Definition fround (a : pyfloat) (ndigits : nat) : pyfloat :=
  match a with
  | Fin x => Fin (Scoring.py_round x ndigits)
  | _ => a
  end.

(** Truthiness of a float: false for zero only. *)
Definition truthy_float (a : pyfloat) : bool :=
  match a with
  | Fin x => if Req_dec_T x 0 then false else true
  | _ => true
  end.

(** [math.log1p] on a float. *)
Definition math_log1p (a : pyfloat) : outcome pyfloat :=
  match a with
  | Fin x => if Rle_dec x (-1) then Raise ValueError
             else Return (Fin (ln (1 + x)))
  | Inf false => Return (Inf false)
  | Inf true => Raise ValueError
  | NaN => Return NaN
  end.

(** [math.log1p(n)] on an [int]. *)
Definition log1p_int (n : Z) : outcome pyfloat :=
  x ← float_of_int n; math_log1p x.

(** The binary64 value nearest to a real, ties to the even significand:
    53 significant bits, exponent not below that of the subnormals. *)
Definition ilog2 (x : R) : Z := Zfloor (ln x / ln 2).

Definition round_binary64 (x : R) : R :=
  if Req_dec_T x 0 then 0
  else
    let e := Z.max (ilog2 (Rabs x) - 52) (-1074) in
    IZR (Scoring.round_half_even (x * powerRZ 2 (- e))) * powerRZ 2 e.

(** [a / b] on two [int]s with the rounding of the quotient. *)
Definition int_truediv_rounded (a b : Z) : outcome R :=
  if (b =? 0)%Z then Raise ZeroDivisionError
  else if (Z.abs a <? FLOAT_LIMIT * Z.abs b)%Z
       then Return (round_binary64 (IZR a / IZR b))
       else Raise OverflowError.

End Py.

(** ** The scoring engine on Python values ([src/app/scoring.py])

    The same functions as in [Scoring], in the same order of operations, now
    on every value their parameters can hold.  A call returns a value or
    raises. *)

Module PyScoring.

Import Py.
Local Open Scope R_scope.

Record ScoringInput : Type := mkScoringInput {
  operational : Z;
  withdrawn : Z;
  total_projects : Z;
  avg_timeline_days : option pyfloat;   (* None if no COD data *)
  num_regions : Z;
  num_fuel_types : Z;
  active_projects : Z;
  years_since_first : pyfloat
}.

Definition score_completion_rate (operational withdrawn : Z)
    : outcome pyfloat :=
  let resolved := (operational + withdrawn)%Z in
  if (resolved =? 0)%Z then Return (Fin 0)
  else q ← int_truediv operational resolved; Return (fmul q (Fin 100)).

Definition score_timeline (avg_days : option pyfloat) : outcome pyfloat :=
  match avg_days with
  | None => Return (Fin 50)
  | Some d =>
      if fle d (Fin 0) then Return (Fin 50)
      else if fle d (Fin (IZR Scoring.TIMELINE_EXCELLENT))
      then Return (Fin 100)
      else if fle (Fin (IZR Scoring.TIMELINE_POOR)) d then Return (Fin 0)
      else
        q ← fdiv (fsub d (Fin (IZR Scoring.TIMELINE_EXCELLENT)))
               (Fin (IZR (Scoring.TIMELINE_POOR
                          - Scoring.TIMELINE_EXCELLENT)));
        Return (fmul (Fin 100) (fsub (Fin 1) q))
  end.

Definition score_volume (total : Z) : outcome pyfloat :=
  if (total <=? 0)%Z then Return (Fin 0)
  else
    a ← log1p_int total;
    b ← log1p_int Scoring.VOLUME_CAP;
    q ← fdiv a b;
    Return (fmin (Fin 100) (fmul q (Fin 100))).

Definition score_breadth (num_regions : Z) : outcome pyfloat :=
  q ← int_truediv num_regions Scoring.REGIONS_MAX;
  Return (fmin (Fin 100) (fmul q (Fin 100))).

Definition score_diversity (num_types : Z) : outcome pyfloat :=
  q ← int_truediv num_types Scoring.FUEL_TYPES_MAX;
  Return (fmin (Fin 100) (fmul q (Fin 100))).

Definition score_pipeline (active : Z) : outcome pyfloat :=
  if (active <=? 0)%Z then Return (Fin 0)
  else
    a ← log1p_int active;
    b ← log1p_int Scoring.PIPELINE_CAP;
    q ← fdiv a b;
    Return (fmin (Fin 100) (fmul q (Fin 100))).

Definition score_depth (years : pyfloat) : outcome pyfloat :=
  if fle years (Fin 0) then Return (Fin 0)
  else
    q ← fdiv years (Fin (IZR Scoring.DEPTH_MAX));
    Return (fmin (Fin 100) (fmul q (Fin 100))).

(** [WEIGHTS[c] * s] *)
Definition weighted (c : Scoring.component) (s : pyfloat) : pyfloat :=
  fmul (Fin (Scoring.WEIGHTS c)) s.

(** The sum that [compute_score] forms from the seven sub-scores, added
    from left to right. *)
Definition composite_of (completion timeline volume breadth diversity
    pipeline depth : pyfloat) : pyfloat :=
  fadd (fadd (fadd (fadd (fadd (fadd
    (weighted Scoring.completion completion)
    (weighted Scoring.timeline timeline))
    (weighted Scoring.volume volume))
    (weighted Scoring.breadth breadth))
    (weighted Scoring.diversity diversity))
    (weighted Scoring.pipeline pipeline))
    (weighted Scoring.depth depth).

(** The dict returned by [compute_score]; the key ["avg_timeline_days"] is
    the field [out_avg_timeline_days]. *)
Record ScoreResult : Type := mkScoreResult {
  score : pyfloat;
  completion_rate : pyfloat;
  completion_rate_score : pyfloat;
  out_avg_timeline_days : option pyfloat;
  timeline_score : pyfloat;
  project_volume : Z;
  volume_score : pyfloat;
  regional_breadth : Z;
  breadth_score : pyfloat;
  tech_diversity : Z;
  diversity_score : pyfloat;
  active_pipeline : Z;
  pipeline_score : pyfloat;
  track_record_years : pyfloat;
  depth_score : pyfloat
}.

(** [compute_score]: [Return None] for an unqualified developer, and the
    exception of the first operation that raises. *)
Definition compute_score (inp : ScoringInput) : outcome (option ScoreResult) :=
  let resolved := (operational inp + withdrawn inp)%Z in
  if (resolved <? 5)%Z then Return None
  else
    completion ← score_completion_rate (operational inp) (withdrawn inp);
    timeline ← score_timeline (avg_timeline_days inp);
    volume ← score_volume (total_projects inp);
    breadth ← score_breadth (num_regions inp);
    diversity ← score_diversity (num_fuel_types inp);
    pipeline ← score_pipeline (active_projects inp);
    depth ← score_depth (years_since_first inp);
    let composite :=
      composite_of completion timeline volume breadth diversity pipeline
        depth in
    rate ← (if (resolved =? 0)%Z then Return (Fin 0)
            else q ← int_truediv (operational inp) resolved;
                 Return (fround q 4));
    Return (Some {|
      score := fround composite 1;
      completion_rate := rate;
      completion_rate_score := fround completion 1;
      out_avg_timeline_days :=
        match avg_timeline_days inp with
        | None => None
        | Some d => if truthy_float d then Some (fround d 1) else None
        end;
      timeline_score := fround timeline 1;
      project_volume := total_projects inp;
      volume_score := fround volume 1;
      regional_breadth := num_regions inp;
      breadth_score := fround breadth 1;
      tech_diversity := num_fuel_types inp;
      diversity_score := fround diversity 1;
      active_pipeline := active_projects inp;
      pipeline_score := fround pipeline 1;
      track_record_years := fround (years_since_first inp) 1;
      depth_score := fround depth 1
    |}).

(** [WEIGHTS[c] * s] summed over the seven components for sub-scores that
    are numbers, taken over the reals. *)
Definition weighted_sum (completion timeline volume breadth diversity
    pipeline depth : R) : R :=
  Scoring.WEIGHTS Scoring.completion * completion
  + Scoring.WEIGHTS Scoring.timeline * timeline
  + Scoring.WEIGHTS Scoring.volume * volume
  + Scoring.WEIGHTS Scoring.breadth * breadth
  + Scoring.WEIGHTS Scoring.diversity * diversity
  + Scoring.WEIGHTS Scoring.pipeline * pipeline
  + Scoring.WEIGHTS Scoring.depth * depth.

(** A float that is a number in [0, 100]. *)
Definition in_0_100 (a : pyfloat) : Prop :=
  match a with
  | Fin x => 0 <= x <= 100
  | _ => False
  end.

(** An input of [Scoring] as an input of [compute_score]. *)
Definition of_finite (inp : Scoring.ScoringInput) : ScoringInput :=
  {| operational := Scoring.operational inp;
     withdrawn := Scoring.withdrawn inp;
     total_projects := Scoring.total_projects inp;
     avg_timeline_days := Fin <$> Scoring.avg_timeline_days inp;
     num_regions := Scoring.num_regions inp;
     num_fuel_types := Scoring.num_fuel_types inp;
     active_projects := Scoring.active_projects inp;
     years_since_first := Fin (Scoring.years_since_first inp) |}.

(** A result of [Scoring] as a result of [compute_score]. *)
Definition of_result (r : Scoring.ScoreResult) : ScoreResult :=
  {| score := Fin (Scoring.score r);
     completion_rate := Fin (Scoring.completion_rate r);
     completion_rate_score := Fin (Scoring.completion_rate_score r);
     out_avg_timeline_days := Fin <$> Scoring.out_avg_timeline_days r;
     timeline_score := Fin (Scoring.timeline_score r);
     project_volume := Scoring.project_volume r;
     volume_score := Fin (Scoring.volume_score r);
     regional_breadth := Scoring.regional_breadth r;
     breadth_score := Fin (Scoring.breadth_score r);
     tech_diversity := Scoring.tech_diversity r;
     diversity_score := Fin (Scoring.diversity_score r);
     active_pipeline := Scoring.active_pipeline r;
     pipeline_score := Fin (Scoring.pipeline_score r);
     track_record_years := Fin (Scoring.track_record_years r);
     depth_score := Fin (Scoring.depth_score r) |}.

(** Scenario A with an average duration that is NaN. *)
Definition nan_average_input : ScoringInput :=
  {| operational := 8; withdrawn := 2; total_projects := 10;
     avg_timeline_days := Some NaN; num_regions := 3; num_fuel_types := 2;
     active_projects := 5; years_since_first := Fin 10 |}.

(** Scenario A with more projects than a float can hold. *)
Definition huge_volume_input : ScoringInput :=
  {| operational := 8; withdrawn := 2; total_projects := 10 ^ 400;
     avg_timeline_days := Some (Fin 600); num_regions := 3;
     num_fuel_types := 2; active_projects := 5; years_since_first := Fin 10 |}.

End PyScoring.

(** ** Derived columns and scoring pass of [src/data/init_db.py] *)

Module Pipeline.

Import Scoring.
Local Open Scope R_scope.

(** DuckDB's [ROUND(x, n)] on a DOUBLE: the nearest multiple of [10^-n],
    ties away from zero. *)
Definition round_half_away (y : R) : Z :=
  if Rle_dec 0 y then Zfloor (y + 1 / 2) else (- Zfloor (- y + 1 / 2))%Z.

Definition sql_round (x : R) (n : nat) : R :=
  IZR (round_half_away (x * 10 ^ n)) / 10 ^ n.

(** The [completion_rate] column:
    [CASE WHEN (operational + withdrawn) > 0
          THEN ROUND(CAST(operational AS DOUBLE) / (operational + withdrawn), 4)
          ELSE NULL END]. *)
Definition completion_rate_column (m : Aggregator.DeveloperMetrics)
    : option R :=
  let op := Aggregator.operational m in
  let wd := Aggregator.withdrawn m in
  if (0 <? op + wd)%Z then Some (sql_round (IZR op / IZR (op + wd)) 4)
  else None.

(** A tuple fetched by
    [SELECT name, operational, withdrawn, total_projects, avg_timeline_days,
            num_regions, num_fuel_types, active, years_since_first
     FROM developers]; every column may be NULL. *)
Record DeveloperRow : Type := mkDeveloperRow {
  row_name : string;
  row_operational : option Z;
  row_withdrawn : option Z;
  row_total : option Z;
  row_avg_days : option R;
  row_regions : option Z;
  row_types : option Z;
  row_active : option Z;
  row_years : option R
}.

(** The tuple of a metrics row.  The two date-derived columns are not
    computed by the embedding of the aggregation and are given. *)
Definition developer_row (m : Aggregator.DeveloperMetrics)
    (avg_days years : option R) : DeveloperRow :=
  {| row_name := Aggregator.name m;
     row_operational := Some (Aggregator.operational m);
     row_withdrawn := Some (Aggregator.withdrawn m);
     row_total := Some (Aggregator.total_projects m);
     row_avg_days := avg_days;
     row_regions := Some (Aggregator.num_regions m);
     row_types := Some (Aggregator.num_fuel_types m);
     row_active := Some (Aggregator.active m);
     row_years := years |}.

(** Python's [v or 0] on an optional integer and on an optional float. *)
Definition or_zero (v : option Z) : Z :=
  match v with
  | Some x => if (x =? 0)%Z then 0%Z else x
  | None => 0%Z
  end.

Definition or_zero_float (v : option R) : R :=
  match v with
  | Some x => if Req_dec_T x 0 then 0 else x
  | None => 0
  end.

(** The [ScoringInput] built in the scoring loop. *)
Definition scoring_input (row : DeveloperRow) : ScoringInput :=
  {| operational := or_zero (row_operational row);
     withdrawn := or_zero (row_withdrawn row);
     total_projects := or_zero (row_total row);
     avg_timeline_days := row_avg_days row;
     num_regions := or_zero (row_regions row);
     num_fuel_types := or_zero (row_types row);
     active_projects := or_zero (row_active row);
     years_since_first := or_zero_float (row_years row) |}.

(** One iteration of the loop: the [UPDATE] issued (developer name and
    result) and the [scored] counter.  [if result:] holds for every returned
    dict, which is never empty. *)
Definition score_step (st : list (string * ScoreResult) * Z)
    (row : DeveloperRow) : list (string * ScoreResult) * Z :=
  match compute_score (scoring_input row) with
  | Some result => (st.1 ++ [(row_name row, result)], (st.2 + 1)%Z)
  | None => st
  end.

Definition score_all (rows : list DeveloperRow)
    : list (string * ScoreResult) * Z :=
  fold_left score_step rows ([], 0%Z).

(** The rows with five or more resolved outcomes. *)
Definition qualifies (row : DeveloperRow) : Prop :=
  (5 <= or_zero (row_operational row) + or_zero (row_withdrawn row))%Z.

#[global] Instance qualifies_dec row : Decision (qualifies row).
Proof. unfold qualifies. apply _. Defined.

End Pipeline.

(** ** Comma-separated lists
    ([src/app/database.py], [src/app/routers/developers.py],
     [src/app/config.py])

    A string is a sequence of characters with code below 256. *)

Module Text.

Local Open Scope string_scope.

(** [str.isspace] on one character. *)
Definition is_space (c : ascii) : bool :=
  let n := nat_of_ascii c in
  ((9 <=? n) && (n <=? 13) || (28 <=? n) && (n <=? 32)
   || (n =? 133) || (n =? 160))%nat.

(** [s.split(sep)] for a one-character separator. *)
Fixpoint split_on (sep : ascii) (s : string) : list string :=
  match s with
  | EmptyString => [EmptyString]
  | String c s' =>
      if Ascii.eqb c sep then EmptyString :: split_on sep s'
      else match split_on sep s' with
           | h :: t => String c h :: t
           | [] => [String c EmptyString]
           end
  end.

(** [s.lstrip()], [s.rstrip()] and [s.strip()]. *)
Fixpoint lstrip (s : string) : string :=
  match s with
  | EmptyString => EmptyString
  | String c s' => if is_space c then lstrip s' else s
  end.

Fixpoint rstrip (s : string) : string :=
  match s with
  | EmptyString => EmptyString
  | String c s' =>
      match rstrip s' with
      | EmptyString => if is_space c then EmptyString else String c EmptyString
      | r => String c r
      end
  end.

Definition strip (s : string) : string := rstrip (lstrip s).

(** Truthiness of a string: non-empty. *)
Definition truthy (s : string) : bool :=
  match s with EmptyString => false | String _ _ => true end.

(** [[x.strip() for x in s.split(",") if x.strip()]] *)
Definition parse_csv (s : string) : list string :=
  map strip (filter (fun x => truthy (strip x) = true) (split_on ","%char s)).


(** [v or ""] on an optional string. *)
Definition or_empty (v : option string) : string :=
  match v with Some s => s | None => "" end.

(** Whether a character occurs in a string, and how often. *)
Fixpoint occurs (c : ascii) (s : string) : bool :=
  match s with
  | EmptyString => false
  | String d s' => Ascii.eqb d c || occurs c s'
  end.

Fixpoint count_char (c : ascii) (s : string) : nat :=
  match s with
  | EmptyString => 0
  | String d s' => (if Ascii.eqb d c then 1 else 0) + count_char c s'
  end.

(** An entry that survives the round trip through the joined column: not
    empty, free of commas and of surrounding white space. *)
Definition clean (v : string) : Prop :=
  v <> "" /\ occurs ","%char v = false /\ strip v = v.

End Text.

(** ** API layer ([src/app/config.py], [src/app/auth.py],
    [src/app/database.py], [src/app/routers/developers.py]) *)

Module Api.

Import Text.
Local Open Scope string_scope.
Local Open Scope list_scope.
Local Open Scope Z_scope.

(** The outcome of a handler: a value, or a raised [HTTPException]. *)
Inductive response (A : Type) : Type :=
  | Ok (a : A)
  | HTTPException (status_code : Z).
Arguments Ok {A} a.
Arguments HTTPException {A} status_code.

(** [Settings.api_key_list] *)
Definition api_key_list (api_keys : string) : list string :=
  parse_csv api_keys.

(** [verify_api_key]; the header value is [None] when the header is
    missing. *)
Definition verify_api_key (api_keys : string) (api_key : option string)
    : response string :=
  match api_key with
  | None => HTTPException 401
  | Some k =>
      if negb (truthy k) || negb (bool_decide (k ∈ api_key_list api_keys))
      then HTTPException 401
      else Ok k
  end.

(** [PaginationMeta]. *)
Record PaginationMeta : Type := mkPaginationMeta {
  total : Z;
  page : Z;
  per_page : Z;
  pages : Z
}.

(** [math.ceil(total / per_page) if per_page else 0]: the ceiling is taken
    of the quotient as a float. *)
Definition make_meta (total page per_page : Z) : Py.outcome PaginationMeta :=
  pages ← (if per_page =? 0 then Py.Return 0
           else q ← Py.int_truediv_rounded total per_page;
                Py.Return (Zceil q));
  Py.Return {| total := total; page := page; per_page := per_page;
               pages := pages |}.

(** [offset = (page - 1) * per_page] *)
Definition page_offset (page per_page : Z) : Z := (page - 1) * per_page.

(** [LIMIT limit OFFSET offset] over the ordered rows of a query, for
    non-negative operands. *)
Definition limit_offset {A : Type} (limit offset : Z) (rows : list A)
    : list A :=
  take (Z.to_nat limit) (drop (Z.to_nat offset) rows).

(** The rows of page [page]: the query is run with
    [LIMIT per_page OFFSET offset]. *)
Definition page_rows {A : Type} (per_page page : Z) (rows : list A)
    : list A :=
  limit_offset per_page (page_offset page per_page) rows.

(** The sort keys of [query_developers] and of [get_rankings]. *)
Definition developers_sort_map : gmap string string :=
  list_to_map
    [("score", "d.score DESC NULLS LAST");
     ("name", "d.name ASC");
     ("total_projects", "d.total_projects DESC");
     ("operational", "d.operational DESC");
     ("completion_rate", "d.completion_rate DESC NULLS LAST")].

Definition rankings_sort_map : gmap string string :=
  list_to_map
    [("score", "score DESC");
     ("completion_rate", "completion_rate DESC");
     ("total_projects", "total_projects DESC");
     ("operational", "operational DESC")].

(** [sort_map.get(sort_by, sort_map["score"])] *)
Definition developers_order (sort_by : string) : string :=
  default (developers_sort_map !!! "score") (developers_sort_map !! sort_by).

(** [sort_map.get(sort_by, "score DESC")] *)
Definition rankings_order (sort_by : string) : string :=
  default "score DESC" (rankings_sort_map !! sort_by).

(** A bound query parameter. *)
Inductive param : Type :=
  | PInt (n : Z)
  | PStr (s : string).

(** Truthiness of an optional string filter. *)
Definition given (v : option string) : bool := truthy (or_empty v).

(** The [where] list and the [params] list built by [query_developers]. *)
Definition developers_filters (search region fuel_type : option string)
    (min_projects : Z) : list string * list param :=
  let where0 := ["d.total_projects >= ?"] in
  let params0 := [PInt min_projects] in
  let '(where1, params1) :=
    if given search
    then (where0 ++ ["d.name ILIKE ?"],
          params0 ++ [PStr ("%" ++ or_empty search ++ "%")%string])
    else (where0, params0) in
  let '(where2, params2) :=
    if given region
    then (where1 ++ ["d.regions ILIKE ?"],
          params1 ++ [PStr ("%" ++ or_empty region ++ "%")%string])
    else (where1, params1) in
  if given fuel_type
  then (where2 ++ ["d.fuel_types ILIKE ?"],
        params2 ++ [PStr ("%" ++ or_empty fuel_type ++ "%")%string])
  else (where2, params2).

(** [where_clause] and [count_sql]. *)
Definition where_clause (conds : list string) : string :=
  String.concat " AND " conds.

Definition count_sql (conds : list string) : string :=
  ("SELECT COUNT(*) FROM developers d WHERE " ++ where_clause conds)%string.

(** The parameters of the page query: [params + [per_page, offset]]. *)
Definition page_params (params : list param) (page per_page : Z)
    : list param :=
  params ++ [PInt per_page; PInt (page_offset page per_page)].

(** The columns selected by [get_rankings] and an entry of its result. *)
Record RankingRow : Type := mkRankingRow {
  rr_name : string;
  rr_parent_company : option string;
  rr_score : R;
  rr_total_projects : Z;
  rr_operational : Z;
  rr_completion_rate : option R
}.

Record RankingEntry : Type := mkRankingEntry {
  rank : Z;
  name : string;
  parent_company : option string;
  score : R;
  total_projects : Z;
  operational : Z;
  completion_rate : R
}.

(** [get_rankings].  [table order] is the answer of the store to
    [SELECT ... FROM developers WHERE score IS NOT NULL ORDER BY order]. *)
Definition get_rankings (table : string -> list RankingRow)
    (sort_by : string) (page per_page : Z) : list RankingEntry * Z :=
  let order := rankings_order sort_by in
  let total := Z.of_nat (length (table order)) in
  let offset := page_offset page per_page in
  let rows := limit_offset per_page offset (table order) in
  (imap (fun i r =>
           {| rank := offset + Z.of_nat i + 1;
              name := rr_name r;
              parent_company := rr_parent_company r;
              score := rr_score r;
              total_projects := rr_total_projects r;
              operational := rr_operational r;
              completion_rate := Pipeline.or_zero_float (rr_completion_rate r)
           |}) rows,
   total).

(** The loop of [compare] over the parsed names: the details of the names
    found, in the order asked.  [get_developer] is the lookup in the store;
    a found row is never an empty dict.  [developer_to_detail] is the
    conversion of a found row, which builds pydantic models and raises
    when a column does not fit its field (a scored row whose
    [years_since_first] is NULL, for one); the loop then stops with that
    exception. *)
Fixpoint compare_results {Row Detail : Type}
    (get_developer : string -> option Row)
    (developer_to_detail : Row -> Py.outcome Detail)
    (name_list : list string) : Py.outcome (list Detail) :=
  match name_list with
  | [] => Py.Return []
  | name :: rest =>
      match get_developer name with
      | Some d =>
          detail ← developer_to_detail d;
          results ← compare_results get_developer developer_to_detail rest;
          Py.Return (detail :: results)
      | None => compare_results get_developer developer_to_detail rest
      end
  end.

(** [compare]. *)
Definition compare {Row Detail : Type}
    (get_developer : string -> option Row)
    (developer_to_detail : Row -> Py.outcome Detail) (names : string)
    : Py.outcome (response (list Detail)) :=
  let name_list := parse_csv names in
  if (Z.of_nat (length name_list) <? 2) || (10 <? Z.of_nat (length name_list))
  then Py.Return (HTTPException 400)
  else
    results ← compare_results get_developer developer_to_detail name_list;
    match results with
    | [] => Py.Return (HTTPException 404)
    | _ => Py.Return (Ok results)
    end.

(** The [CASE] of [get_stats] that names the band of a score. *)
Definition score_bucket (score : R) : string :=
  if Rle_dec 80 score then "excellent_80_100"
  else if Rle_dec 60 score then "good_60_79"
  else if Rle_dec 40 score then "average_40_59"
  else if Rle_dec 20 score then "below_avg_20_39"
  else "poor_0_19".

End Api.

(** ** Dashboard export ([src/dashboard/generate_data.py]) *)

Module Dashboard.

(** A value of a fetched row. *)
Inductive value : Type :=
  | VNone
  | VInt (n : Z)
  | VFloat (x : Py.pyfloat)
  | VStr (s : string).

(** The loop [for k, v in d.items(): if isinstance(v, float):
    d[k] = round(v, 4)]. *)
Definition round_floats (d : gmap string value) : gmap string value :=
  (fun v => match v with
            | VFloat x => VFloat (Py.fround x 4)
            | _ => v
            end) <$> d.

End Dashboard.

(** ** The order of [ORDER BY] on text *)

Module TextOrder.

(** [a <= b] in the byte-wise order used by [Aggregator.order_by]. *)
Definition string_le (a b : string) : Prop := String.leb a b = true.

End TextOrder.

(** ** Sample inputs *)

Module Samples.

Import Scoring.
Local Open Scope R_scope.

(** A qualified input whose region and fuel-type counts are negative. *)
Definition negative_counts_input : ScoringInput :=
  {| operational := 6; withdrawn := 1; total_projects := 9;
     avg_timeline_days := None; num_regions := -2; num_fuel_types := -3;
     active_projects := 2; years_since_first := 4 |}.


(** One developer with five operational projects and a withdrawn one. *)
Definition acme_source : list Aggregator.ProjectRecord :=
  [Aggregator.solar_row; Aggregator.solar_row; Aggregator.solar_row;
   Aggregator.solar_row; Aggregator.solar_row; Aggregator.untyped_row].

(** Two fetched rows, the first with two resolved outcomes only. *)
Definition fetched_rows : list Pipeline.DeveloperRow :=
  [Pipeline.mkDeveloperRow "Borealis" (Some 1%Z) (Some 1%Z) (Some 4%Z) None
     (Some 1%Z) (Some 1%Z) (Some 2%Z) (Some 3);
   Pipeline.mkDeveloperRow "Acme" (Some 5%Z) (Some 1%Z) (Some 6%Z) (Some 700)
     (Some 2%Z) (Some 1%Z) (Some 0%Z) (Some 12)].

(** A row without a developer. *)
Definition orphan_row : Aggregator.ProjectRecord :=
  {| Aggregator.region := Some "ERCOT";
     Aggregator.developer_canonical := Some "";
     Aggregator.type_std := Some "Wind";
     Aggregator.status_std := Some "Operational" |}.

(** An ordered ranking of four scored developers, whatever the order
    asked. *)
Definition ranking_table (order : string) : list Api.RankingRow :=
  [Api.mkRankingRow "Acme" None 91.2 40 30 (Some 0.9);
   Api.mkRankingRow "Borealis" (Some "Northwind") 77.0 12 8 (Some 0.8);
   Api.mkRankingRow "Cobalt" None 64.5 9 5 None;
   Api.mkRankingRow "Dune" None 50.1 7 5 (Some 1)].

End Samples.

(** * Properties of the scoring engine *)

Module ScoringFacts.

Import Scoring.
Local Open Scope R_scope.

(** *** Rounding lemmas *)

Lemma round_half_even_cases (y : R) :
  round_half_even y = Zfloor y \/ round_half_even y = (Zfloor y + 1)%Z.
Proof.
  unfold round_half_even.
  destruct (Rlt_dec _ _); [now left|].
  destruct (Rlt_dec _ _); [now right|].
  destruct (Z.even _); [now left | now right].
Qed.

Lemma round_half_even_error (y : R) :
  - (1 / 2) <= IZR (round_half_even y) - y <= 1 / 2.
Proof.
  pose proof (Zfloor_bound y) as [Hlo Hhi].
  unfold round_half_even.
  destruct (Rlt_dec _ _) as [Hd|Hd]; [lra|].
  destruct (Rlt_dec _ _) as [Hu|Hu]; [rewrite plus_IZR; lra|].
  destruct (Z.even _); [lra | rewrite plus_IZR; lra].
Qed.

Lemma round_half_even_near (y : R) (z : Z) :
  IZR z - 1 / 2 < y < IZR z + 1 / 2 -> round_half_even y = z.
Proof.
  intros [Hlo Hhi].
  pose proof (Zfloor_bound y) as [Flo Fhi].
  assert (Hz : (Zfloor y = z \/ Zfloor y = z - 1)%Z).
  { assert (IZR (Zfloor y) < IZR (z + 1)) by (rewrite plus_IZR; lra).
    assert (IZR (z - 2) < IZR (Zfloor y)) by (rewrite minus_IZR; lra).
    apply lt_IZR in H, H0. lia. }
  unfold round_half_even.
  destruct Hz as [E|E]; rewrite E in *.
  - destruct (Rlt_dec _ _) as [Hd|Hd]; [reflexivity | lra].
  - rewrite minus_IZR in *.
    destruct (Rlt_dec _ _) as [Hd|Hd]; [lra|].
    destruct (Rlt_dec _ _) as [Hu|Hu]; [lia | lra].
Qed.

Lemma round_half_even_between (y : R) (a b : Z) :
  IZR a <= y <= IZR b -> (a <= round_half_even y <= b)%Z.
Proof.
  intros [Ha Hb].
  pose proof (Zfloor_bound y) as [Flo Fhi].
  assert (La : (a <= Zfloor y)%Z) by now apply Zfloor_lub.
  assert (Lb : (Zfloor y <= b)%Z) by (apply le_IZR; lra).
  unfold round_half_even.
  destruct (Rlt_dec _ _) as [Hd|Hd]; [lia|].
  assert (Lt : (Zfloor y < b)%Z) by (apply lt_IZR; lra).
  destruct (Rlt_dec _ _); [lia|].
  destruct (Z.even _); lia.
Qed.

Lemma pow10_pos (n : nat) : 0 < 10 ^ n.
Proof. apply pow_lt. lra. Qed.

Lemma py_round_near (x : R) (n : nat) (z : Z) :
  IZR z - 1 / 2 < x * 10 ^ n < IZR z + 1 / 2 ->
  py_round x n = IZR z / 10 ^ n.
Proof.
  intros H. unfold py_round. now rewrite (round_half_even_near _ z).
Qed.

(** A value written with one decimal, [z / 10], is the result of rounding
    every real closer to it than [0.05]. *)
Lemma py_round1_near (x : R) (z : Z) :
  IZR z / 10 - 5 / 100 < x < IZR z / 10 + 5 / 100 ->
  py_round x 1 = IZR z / 10.
Proof.
  intros H. rewrite (py_round_near x 1 z); simpl; [lra|lra].
Qed.

Lemma py_round1_error (x : R) :
  - (5 / 100) <= py_round x 1 - x <= 5 / 100.
Proof.
  unfold py_round. simpl.
  pose proof (round_half_even_error (x * (10 * 1))) as H. lra.
Qed.

Lemma py_round1_range (x : R) :
  0 <= x <= 100 -> 0 <= py_round x 1 <= 100.
Proof.
  intros Hx. unfold py_round. simpl.
  destruct (round_half_even_between (x * (10 * 1)) 0 1000) as [Hl Hu];
    [lra|].
  apply IZR_le in Hl, Hu. lra.
Qed.

(** *** Arithmetic helpers *)

Lemma py_min_le_l (a b : R) : py_min a b <= a.
Proof. unfold py_min. destruct (Rlt_dec b a); lra. Qed.

Lemma py_min_cap (a b : R) : a <= b -> py_min a b = a.
Proof. unfold py_min. destruct (Rlt_dec b a); lra. Qed.

Lemma py_min_below (a b : R) : b < a -> py_min a b = b.
Proof. unfold py_min. destruct (Rlt_dec b a); lra. Qed.

Lemma py_min_mono (a b c : R) : b <= c -> py_min a b <= py_min a c.
Proof.
  unfold py_min. destruct (Rlt_dec b a), (Rlt_dec c a); lra.
Qed.

Lemma py_min_nonneg (a b : R) : 0 <= a -> 0 <= b -> 0 <= py_min a b.
Proof. unfold py_min. destruct (Rlt_dec b a); lra. Qed.

Lemma frac_le (n1 d1 n2 d2 : R) :
  0 < d1 -> 0 < d2 -> n1 * d2 <= n2 * d1 -> n1 / d1 <= n2 / d2.
Proof.
  intros H1 H2 H.
  apply (Rmult_le_reg_r (d1 * d2)); [apply Rmult_lt_0_compat; assumption|].
  replace (n1 / d1 * (d1 * d2)) with (n1 * d2) by (field; lra).
  replace (n2 / d2 * (d1 * d2)) with (n2 * d1) by (field; lra).
  assumption.
Qed.

Lemma ln_mono (x y : R) : 0 < x -> x <= y -> ln x <= ln y.
Proof.
  intros Hx [Hlt | ->]; [|lra].
  left. now apply ln_increasing.
Qed.

Lemma ln_pos (x : R) : 1 < x -> 0 < ln x.
Proof. intros H. rewrite <- ln_1. apply ln_increasing; lra. Qed.

Lemma log1p_pos (x : R) : 0 < x -> 0 < log1p x.
Proof. intros H. apply ln_pos. lra. Qed.

Lemma log1p_mono (x y : R) : 0 < x -> x <= y -> log1p x <= log1p y.
Proof. intros Hx Hxy. apply ln_mono; lra. Qed.

(** The log-scaled ratio shared by [score_volume] and [score_pipeline]. *)
Lemma log_ratio_pos (cap x : R) :
  0 < cap -> 0 < x -> 0 < log1p x / log1p cap * 100.
Proof.
  intros Hc Hx.
  pose proof (log1p_pos _ Hc). pose proof (log1p_pos _ Hx).
  apply Rmult_lt_0_compat; [|lra].
  now apply Rdiv_lt_0_compat.
Qed.

Lemma log_ratio_mono (cap x y : R) :
  0 < cap -> 0 < x -> x <= y ->
  log1p x / log1p cap * 100 <= log1p y / log1p cap * 100.
Proof.
  intros Hc Hx Hxy.
  pose proof (log1p_pos _ Hc). pose proof (log1p_mono _ _ Hx Hxy).
  apply Rmult_le_compat_r; [lra|].
  apply frac_le; try assumption.
  apply Rmult_le_compat_r; lra.
Qed.

Lemma log_ratio_cap (cap x : R) :
  0 < cap -> cap <= x -> 100 <= log1p x / log1p cap * 100.
Proof.
  intros Hc Hx.
  pose proof (log_ratio_mono cap cap x Hc Hc Hx) as H.
  replace (log1p cap / log1p cap * 100) with 100 in H; [assumption|].
  pose proof (log1p_pos _ Hc). field. lra.
Qed.

(** *** Ranges of the sub-scores *)

Lemma score_volume_range (t : Z) : 0 <= score_volume t <= 100.
Proof.
  unfold score_volume. destruct (Z.leb_spec t 0) as [Ht|Ht]; [lra|].
  split; [|apply py_min_le_l].
  apply py_min_nonneg; [lra|]. left.
  apply log_ratio_pos; [unfold VOLUME_CAP; lra | now apply IZR_lt].
Qed.

Lemma score_pipeline_range (a : Z) : 0 <= score_pipeline a <= 100.
Proof.
  unfold score_pipeline. destruct (Z.leb_spec a 0) as [Ha|Ha]; [lra|].
  split; [|apply py_min_le_l].
  apply py_min_nonneg; [lra|]. left.
  apply log_ratio_pos; [unfold PIPELINE_CAP; lra | now apply IZR_lt].
Qed.

(** [score_timeline] with its benchmark constants evaluated. *)
Lemma score_timeline_Some (d : R) :
  score_timeline (Some d) =
    if Rle_dec d 0 then 50
    else if Rle_dec d 365 then 100
    else if Rle_dec 2190 d then 0
    else 100 * (1 - (d - 365) / 1825).
Proof. reflexivity. Qed.

Lemma score_timeline_range (a : option R) : 0 <= score_timeline a <= 100.
Proof.
  destruct a as [d|]; [rewrite score_timeline_Some | simpl; lra].
  destruct (Rle_dec d 0); [lra|].
  destruct (Rle_dec d 365); [lra|].
  destruct (Rle_dec 2190 d) as [H|H]; lra.
Qed.

Lemma score_depth_range (y : R) : 0 <= score_depth y <= 100.
Proof.
  unfold score_depth, DEPTH_MAX.
  destruct (Rle_dec y 0); [lra|].
  split; [|apply py_min_le_l].
  apply py_min_nonneg; lra.
Qed.

Lemma linear_score_range (n cap : Z) :
  (0 <= n)%Z -> (0 < cap)%Z ->
  0 <= py_min 100 (IZR n / IZR cap * 100) <= 100.
Proof.
  intros Hn Hc. apply IZR_le in Hn. apply IZR_lt in Hc.
  split; [|apply py_min_le_l].
  apply py_min_nonneg; [lra|].
  apply Rmult_le_pos; [|lra].
  apply Rmult_le_pos; [lra|]. left. now apply Rinv_0_lt_compat.
Qed.

Lemma score_completion_rate_range (op wd : Z) :
  (0 <= op)%Z -> (0 <= wd)%Z -> 0 <= score_completion_rate op wd <= 100.
Proof.
  intros Hop Hwd. unfold score_completion_rate.
  destruct (Z.eqb_spec (op + wd) 0) as [E|E]; [lra|].
  assert (Hr : (0 < op + wd)%Z) by lia.
  apply IZR_le in Hop, Hwd. apply IZR_lt in Hr.
  rewrite plus_IZR in *.
  assert (0 <= IZR op / (IZR op + IZR wd) <= 1).
  { split.
    - apply Rmult_le_pos; [lra|]. left. now apply Rinv_0_lt_compat.
    - apply (Rmult_le_reg_r (IZR op + IZR wd)); [lra|].
      replace (IZR op / (IZR op + IZR wd) * (IZR op + IZR wd)) with (IZR op)
        by (field; lra).
      lra. }
  lra.
Qed.

Lemma composite_range (inp : ScoringInput) :
  (0 <= operational inp)%Z -> (0 <= withdrawn inp)%Z ->
  (0 <= num_regions inp)%Z -> (0 <= num_fuel_types inp)%Z ->
  0 <= composite inp <= 100.
Proof.
  intros Hop Hwd Hnr Hnf.
  pose proof (score_completion_rate_range _ _ Hop Hwd).
  pose proof (score_timeline_range (avg_timeline_days inp)).
  pose proof (score_volume_range (total_projects inp)).
  pose proof (linear_score_range _ REGIONS_MAX Hnr eq_refl).
  pose proof (linear_score_range _ FUEL_TYPES_MAX Hnf eq_refl).
  pose proof (score_pipeline_range (active_projects inp)).
  pose proof (score_depth_range (years_since_first inp)).
  unfold composite, WEIGHTS, score_breadth, score_diversity. lra.
Qed.

Lemma py_round1_tenth (z : Z) : py_round (IZR z / 10) 1 = IZR z / 10.
Proof. apply py_round1_near. lra. Qed.

Lemma py_round1_50 : py_round 50 1 = 50.
Proof. rewrite (py_round1_near 50 500); lra. Qed.

Lemma py_round1_100 : py_round 100 1 = 100.
Proof. rewrite (py_round1_near 100 1000); lra. Qed.

(** Inversion of a successful call. *)
Lemma compute_score_Some (inp : ScoringInput) (r : ScoreResult) :
  compute_score inp = Some r ->
  (5 <= operational inp + withdrawn inp)%Z /\
  score r = py_round (composite inp) 1 /\
  completion_rate_score r =
    py_round (score_completion_rate (operational inp) (withdrawn inp)) 1 /\
  timeline_score r = py_round (score_timeline (avg_timeline_days inp)) 1 /\
  volume_score r = py_round (score_volume (total_projects inp)) 1 /\
  breadth_score r = py_round (score_breadth (num_regions inp)) 1 /\
  diversity_score r = py_round (score_diversity (num_fuel_types inp)) 1 /\
  pipeline_score r = py_round (score_pipeline (active_projects inp)) 1 /\
  depth_score r = py_round (score_depth (years_since_first inp)) 1.
Proof.
  unfold compute_score.
  destruct (Z.ltb_spec (operational inp + withdrawn inp) 5) as [Hlt|Hge];
    [discriminate|].
  intros [= <-]. simpl. repeat split; try reflexivity. assumption.
Qed.

(** ** The qualification gate *)

(** C1: when [operational + withdrawn < 5], [compute_score] returns [None]
    (the unqualified result: no composite, no sub-score, no breakdown),
    whatever the other fields hold. *)
Theorem C1_unqualified_below_five (inp : ScoringInput) :
  (operational inp + withdrawn inp < 5)%Z -> compute_score inp = None.
Proof.
  intros H. unfold compute_score.
  destruct (Z.ltb_spec (operational inp + withdrawn inp) 5); [reflexivity|lia].
Qed.

Lemma C1_witness_scenario_B : compute_score scenario_B = None.
Proof. apply (C1_unqualified_below_five scenario_B). simpl. lia. Defined.

(** ** The timeline curve *)

(** C4: the timeline sub-score is exactly 100 for a positive average of at
    most 365 days, exactly 0 from 2190 days on, on the straight line through
    (365, 100) and (2190, 0) in between, and exactly 50 when the average is
    undefined or not positive. *)
Theorem C4_timeline_curve :
  (forall d : R, 0 < d <= 365 -> score_timeline (Some d) = 100) /\
  (forall d : R, 2190 <= d -> score_timeline (Some d) = 0) /\
  (forall d : R, 365 < d < 2190 ->
     score_timeline (Some d) = 100 * (2190 - d) / (2190 - 365)) /\
  score_timeline None = 50 /\
  (forall d : R, d <= 0 -> score_timeline (Some d) = 50).
Proof.
  repeat split; try reflexivity; intros d Hd; rewrite score_timeline_Some.
  - destruct (Rle_dec d 0); [lra|]. destruct (Rle_dec d 365); [reflexivity|lra].
  - destruct (Rle_dec d 0); [lra|]. destruct (Rle_dec d 365); [lra|].
    destruct (Rle_dec 2190 d); [reflexivity|lra].
  - destruct (Rle_dec d 0); [lra|]. destruct (Rle_dec d 365); [lra|].
    destruct (Rle_dec 2190 d); [lra|]. field.
  - destruct (Rle_dec d 0); [reflexivity|lra].
Qed.

Lemma C4_witness_kinks :
  score_timeline (Some 365) = 100 /\ score_timeline (Some 2190) = 0 /\
  score_timeline (Some 1277.5) = 100 * (2190 - 1277.5) / (2190 - 365) /\
  score_timeline (Some (-3)) = 50.
Proof.
  destruct C4_timeline_curve as (Hfast & Hslow & Hmid & _ & Hneg).
  repeat split; [apply Hfast | apply Hslow | apply Hmid | apply Hneg]; lra.
Defined.

(** ** Monotonicity and caps *)

(** C7: for non-negative counts with [operational + withdrawn > 0], the
    completion sub-score does not decrease when [operational] grows with
    [withdrawn] fixed, and does not increase when [withdrawn] grows with
    [operational] fixed. *)
Theorem C7_completion_monotone :
  (forall op1 op2 wd : Z,
     (0 <= op1)%Z -> (0 <= wd)%Z -> (0 < op1 + wd)%Z -> (op1 <= op2)%Z ->
     score_completion_rate op1 wd <= score_completion_rate op2 wd) /\
  (forall op wd1 wd2 : Z,
     (0 <= op)%Z -> (0 <= wd1)%Z -> (0 < op + wd1)%Z -> (wd1 <= wd2)%Z ->
     score_completion_rate op wd2 <= score_completion_rate op wd1).
Proof.
  split.
  - intros op1 op2 wd H1 Hw Hr Hle. unfold score_completion_rate.
    destruct (Z.eqb_spec (op1 + wd) 0); [lia|].
    destruct (Z.eqb_spec (op2 + wd) 0); [lia|].
    rewrite !plus_IZR.
    apply IZR_le in H1, Hw, Hle. apply IZR_lt in Hr. rewrite plus_IZR in Hr.
    apply Rmult_le_compat_r; [lra|].
    apply frac_le; [lra | lra | nra].
  - intros op wd1 wd2 Ho Hw Hr Hle. unfold score_completion_rate.
    destruct (Z.eqb_spec (op + wd1) 0); [lia|].
    destruct (Z.eqb_spec (op + wd2) 0); [lia|].
    rewrite !plus_IZR.
    apply IZR_le in Ho, Hw, Hle. apply IZR_lt in Hr. rewrite plus_IZR in Hr.
    apply Rmult_le_compat_r; [lra|].
    apply frac_le; [lra | lra | nra].
Qed.

Lemma C7_witness_counts :
  score_completion_rate 3 4 <= score_completion_rate 6 4 /\
  score_completion_rate 3 9 <= score_completion_rate 3 4.
Proof.
  destruct C7_completion_monotone as [Hop Hwd].
  split; [apply Hop | apply Hwd]; lia.
Defined.

(** ** The reported average duration *)

(** C10: in a returned breakdown the [avg_timeline_days] entry is [None]
    both when the input average is [None] and when it is exactly 0, and is
    the rounded (non-[None]) value for a negative average; the timeline
    sub-score is 50.0 in all three cases, and the results for an absent and
    for a zero average coincide. *)
Theorem C10_zero_average_reported_as_none (inp : ScoringInput)
    (r : ScoreResult) :
  compute_score inp = Some r ->
  (avg_timeline_days inp = None \/ avg_timeline_days inp = Some 0 ->
     out_avg_timeline_days r = None /\ timeline_score r = 50) /\
  (forall d : R, avg_timeline_days inp = Some d -> d < 0 ->
     out_avg_timeline_days r = Some (py_round d 1) /\ timeline_score r = 50) /\
  compute_score (with_avg_timeline_days None inp)
    = compute_score (with_avg_timeline_days (Some 0) inp).
Proof.
  unfold compute_score. cbn [operational withdrawn with_avg_timeline_days].
  destruct (Z.ltb_spec (operational inp + withdrawn inp) 5) as [Hlt|Hge];
    [discriminate|].
  intros [= <-]. cbn -[score_timeline py_round composite]. repeat split.
  - destruct H as [-> | ->]; [reflexivity|].
    destruct (Req_dec_T 0 0); [reflexivity|lra].
  - destruct H as [-> | ->]; [apply py_round1_50|].
    rewrite score_timeline_Some.
    destruct (Rle_dec 0 0); [apply py_round1_50|lra].
  - rewrite H. destruct (Req_dec_T d 0); [lra|reflexivity].
  - rewrite H, score_timeline_Some.
    destruct (Rle_dec d 0); [apply py_round1_50|lra].
  - unfold composite. cbn -[score_timeline py_round].
    rewrite score_timeline_Some.
    destruct (Rle_dec 0 0); [|lra].
    destruct (Req_dec_T 0 0); [|lra]. reflexivity.
Qed.

Lemma C10_witness_scenario_A :
  compute_score (with_avg_timeline_days None scenario_A)
    = compute_score (with_avg_timeline_days (Some 0) scenario_A).
Proof.
  eapply (C10_zero_average_reported_as_none scenario_A). reflexivity.
Defined.

(** ** Bounds on ratios of logarithms

    [p / q <= ln x / ln y] follows from the integer comparison
    [y ^ p <= x ^ q], which is decided by evaluation. *)

Lemma ln_IZR_pow (x p : Z) :
  (0 < x)%Z -> (0 <= p)%Z -> ln (IZR (x ^ p)) = IZR p * ln (IZR x).
Proof.
  intros Hx Hp.
  rewrite <- (Z2Nat.id p Hp) at 1.
  rewrite <- pow_IZR, ln_pow by now apply IZR_lt.
  now rewrite INR_IZR_INZ, Z2Nat.id.
Qed.

Lemma frac_lt (n1 d1 n2 d2 : R) :
  0 < d1 -> 0 < d2 -> n1 * d2 < n2 * d1 -> n1 / d1 < n2 / d2.
Proof.
  intros H1 H2 H.
  apply (Rmult_lt_reg_r (d1 * d2)); [apply Rmult_lt_0_compat; assumption|].
  replace (n1 / d1 * (d1 * d2)) with (n1 * d2) by (field; lra).
  replace (n2 / d2 * (d1 * d2)) with (n2 * d1) by (field; lra).
  assumption.
Qed.

Lemma ln_ratio_lower (x y p q : Z) :
  (1 < x)%Z -> (1 < y)%Z -> (0 <= p)%Z -> (0 < q)%Z ->
  (y ^ p < x ^ q)%Z ->
  IZR p / IZR q < ln (IZR x) / ln (IZR y).
Proof.
  intros Hx Hy Hp Hq Hlt.
  assert (Hpow : (0 < y ^ p)%Z) by (apply Z.pow_pos_nonneg; lia).
  apply IZR_lt in Hlt. apply ln_increasing in Hlt; [|now apply IZR_lt].
  rewrite !ln_IZR_pow in Hlt by lia.
  apply frac_lt; [now apply IZR_lt | apply ln_pos; now apply IZR_lt | lra].
Qed.

Lemma ln_ratio_upper (x y p q : Z) :
  (1 < x)%Z -> (1 < y)%Z -> (0 <= p)%Z -> (0 < q)%Z ->
  (x ^ q < y ^ p)%Z ->
  ln (IZR x) / ln (IZR y) < IZR p / IZR q.
Proof.
  intros Hx Hy Hp Hq Hlt.
  assert (Hpow : (0 < x ^ q)%Z) by (apply Z.pow_pos_nonneg; lia).
  apply IZR_lt in Hlt. apply ln_increasing in Hlt; [|now apply IZR_lt].
  rewrite !ln_IZR_pow in Hlt by lia.
  apply frac_lt; [apply ln_pos; now apply IZR_lt | now apply IZR_lt | lra].
Qed.

Lemma log1p_IZR (t : Z) : log1p (IZR t) = ln (IZR (1 + t)).
Proof. unfold log1p. now rewrite plus_IZR. Qed.

(** [ln 11 / ln 201] lies strictly between 0.4515 and 0.4525. *)
Lemma volume_ratio_10 :
  903 / 2000 < log1p (IZR 10) / log1p (IZR VOLUME_CAP) < 181 / 400.
Proof.
  rewrite !log1p_IZR. split.
  - apply (ln_ratio_lower 11 201 903 2000);
      [lia | lia | lia | lia | now vm_compute].
  - apply (ln_ratio_upper 11 201 181 400);
      [lia | lia | lia | lia | now vm_compute].
Qed.


(** [ln 6 / ln 51] lies strictly between 0.4555 and 0.456. *)
Lemma pipeline_ratio_5 :
  911 / 2000 < log1p (IZR 5) / log1p (IZR PIPELINE_CAP) < 57 / 125.
Proof.
  rewrite !log1p_IZR. split.
  - apply (ln_ratio_lower 6 51 911 2000);
      [lia | lia | lia | lia | now vm_compute].
  - apply (ln_ratio_upper 6 51 57 125);
      [lia | lia | lia | lia | now vm_compute].
Qed.

(** ** Scenario A *)

Lemma score_volume_below_cap (t : Z) (lo hi : R) :
  (0 < t)%Z -> hi <= 1 ->
  lo < log1p (IZR t) / log1p (IZR VOLUME_CAP) < hi ->
  lo * 100 < score_volume t < hi * 100.
Proof.
  intros Ht Hhi H. unfold score_volume.
  destruct (Z.leb_spec t 0); [lia|].
  rewrite py_min_below; lra.
Qed.

Lemma score_pipeline_below_cap (a : Z) (lo hi : R) :
  (0 < a)%Z -> hi <= 1 ->
  lo < log1p (IZR a) / log1p (IZR PIPELINE_CAP) < hi ->
  lo * 100 < score_pipeline a < hi * 100.
Proof.
  intros Ha Hhi H. unfold score_pipeline.
  destruct (Z.leb_spec a 0); [lia|].
  rewrite py_min_below; lra.
Qed.

Lemma score_completion_rate_qualified (op wd : Z) :
  (op + wd <> 0)%Z ->
  score_completion_rate op wd = IZR op / IZR (op + wd) * 100.
Proof.
  intros H. unfold score_completion_rate.
  destruct (Z.eqb_spec (op + wd) 0); [contradiction | reflexivity].
Qed.

Lemma score_timeline_interpolated (d : R) :
  365 < d < 2190 -> score_timeline (Some d) = 100 * (1 - (d - 365) / 1825).
Proof.
  intros H. rewrite score_timeline_Some.
  destruct (Rle_dec d 0); [lra|]. destruct (Rle_dec d 365); [lra|].
  destruct (Rle_dec 2190 d); [lra | reflexivity].
Qed.

Lemma score_depth_below_cap (y : R) :
  0 < y < 20 -> score_depth y = y / 20 * 100.
Proof.
  intros H. unfold score_depth, DEPTH_MAX.
  destruct (Rle_dec y 0); [lra|]. apply py_min_below. lra.
Qed.

Lemma linear_score_below_cap (n cap : Z) :
  (0 < cap)%Z -> (n < cap)%Z ->
  py_min 100 (IZR n / IZR cap * 100) = IZR n / IZR cap * 100.
Proof.
  intros Hc Hn. apply IZR_lt in Hc, Hn.
  apply py_min_below.
  assert (IZR n / IZR cap < 1).
  { apply (Rmult_lt_reg_r (IZR cap)); [assumption|].
    replace (IZR n / IZR cap * IZR cap) with (IZR n) by (field; lra). lra. }
  lra.
Qed.

Lemma scenario_A_sub_scores :
  score_completion_rate 8 2 = 80 /\
  score_timeline (Some 600) = 100 * (1 - 235 / 1825) /\
  45.15 < score_volume 10 < 45.25 /\
  score_breadth 3 = 100 / 3 /\
  score_diversity 2 = 25 /\
  45.55 < score_pipeline 5 < 45.6 /\
  score_depth 10 = 50.
Proof.
  split; [|split; [|split; [|split; [|split; [|split]]]]].
  - rewrite score_completion_rate_qualified by discriminate.
    change (8 + 2)%Z with 10%Z. lra.
  - rewrite score_timeline_interpolated by lra. lra.
  - pose proof (score_volume_below_cap 10 (903 / 2000) (181 / 400) eq_refl
                  ltac:(lra) volume_ratio_10). lra.
  - unfold score_breadth.
    rewrite (linear_score_below_cap 3 REGIONS_MAX) by reflexivity.
    unfold REGIONS_MAX. lra.
  - unfold score_diversity.
    rewrite (linear_score_below_cap 2 FUEL_TYPES_MAX) by reflexivity.
    unfold FUEL_TYPES_MAX. lra.
  - pose proof (score_pipeline_below_cap 5 (911 / 2000) (57 / 125) eq_refl
                  ltac:(lra) pipeline_ratio_5). lra.
  - rewrite score_depth_below_cap by lra. lra.
Qed.

(** C5: on Scenario A, [compute_score] returns completion_rate 0.8,
    completion_rate_score 80.0, timeline_score 87.1, volume_score 45.2,
    breadth_score 33.3, diversity_score 25.0, pipeline_score 45.6,
    depth_score 50.0 and the composite score 61.1. *)
Theorem C5_scenario_A :
  exists r : ScoreResult,
    compute_score scenario_A = Some r /\
    completion_rate r = 0.8 /\
    completion_rate_score r = 80.0 /\
    timeline_score r = 87.1 /\
    volume_score r = 45.2 /\
    breadth_score r = 33.3 /\
    diversity_score r = 25.0 /\
    pipeline_score r = 45.6 /\
    depth_score r = 50.0 /\
    score r = 61.1.
Proof.
  destruct scenario_A_sub_scores as (Hc & Ht & Hv & Hb & Hd & Hp & Hy).
  eexists. split; [reflexivity|].
  cbn -[py_round composite score_completion_rate score_timeline score_volume
        score_breadth score_diversity score_pipeline score_depth].
  repeat split.
  - change (8 + 2)%Z with 10%Z.
    rewrite (py_round_near _ 4 8000); simpl; lra.
  - rewrite (py_round1_near _ 800); lra.
  - rewrite (py_round1_near _ 871); lra.
  - rewrite (py_round1_near _ 452); lra.
  - rewrite (py_round1_near _ 333); lra.
  - rewrite (py_round1_near _ 250); lra.
  - rewrite (py_round1_near _ 456); lra.
  - rewrite (py_round1_near _ 500); lra.
  - rewrite (py_round1_near _ 611); [lra|].
    unfold composite, WEIGHTS.
    cbn -[score_completion_rate score_timeline score_volume
          score_breadth score_diversity score_pipeline score_depth].
    lra.
Qed.

(** ** The composite and the weighted sum *)




End ScoringFacts.

(** * Properties of the aggregation *)

Module AggregatorFacts.

Import Aggregator.
Local Open Scope string_scope.
Local Open Scope list_scope.
Local Open Scope Z_scope.

(** *** Counting *)

Lemma count_star_cons (r : ProjectRecord) (rows : list ProjectRecord) :
  count_star (r :: rows) = 1 + count_star rows.
Proof. unfold count_star. simpl. lia. Qed.

Lemma count_star_app (l1 l2 : list ProjectRecord) :
  count_star (l1 ++ l2) = count_star l1 + count_star l2.
Proof. unfold count_star. rewrite length_app. lia. Qed.

Section CountFilter.
Context (P : ProjectRecord -> Prop) `{!forall r, Decision (P r)}.


Lemma count_filter_cons r rows :
  count_filter P (r :: rows) = indicator (P r) + count_filter P rows.
Proof.
  unfold count_filter, indicator. rewrite filter_cons.
  destruct (decide (P r)); simpl; lia.
Qed.

Lemma count_filter_app l1 l2 :
  count_filter P (l1 ++ l2) = count_filter P l1 + count_filter P l2.
Proof. unfold count_filter. rewrite filter_app, length_app. lia. Qed.
End CountFilter.

(** Every row carries exactly one of: one of the five labels, or none. *)
Lemma status_partition (r : ProjectRecord) :
  indicator (status_is "Operational" r) + indicator (status_is "Withdrawn" r)
  + indicator (status_is "Active" r)
  + indicator (status_is "Under Construction" r)
  + indicator (status_is "Suspended" r) + indicator (other_status r) = 1.
Proof.
  unfold indicator, other_status, known_statuses, status_is.
  destruct (decide (Forall _ _)) as [Ho|Ho];
    rewrite !Forall_cons in Ho; unfold status_is in Ho;
    repeat case_decide; try lia; try congruence;
    exfalso; first [tauto | apply Ho; rewrite Forall_nil; tauto].
Qed.

(** The columns of [aggregate], one equation each. *)
Lemma aggregate_columns (dev : string) (rows : list ProjectRecord) :
  total_projects (aggregate dev rows) = count_star rows /\
  operational (aggregate dev rows)
    = count_filter (status_is "Operational") rows /\
  withdrawn (aggregate dev rows) = count_filter (status_is "Withdrawn") rows /\
  active (aggregate dev rows) = count_filter (status_is "Active") rows /\
  under_construction (aggregate dev rows)
    = count_filter (status_is "Under Construction") rows /\
  suspended (aggregate dev rows) = count_filter (status_is "Suspended") rows /\
  num_regions (aggregate dev rows) = count_distinct region rows /\
  fuel_types (aggregate dev rows)
    = string_agg_distinct type_std (filter has_type rows) /\
  num_fuel_types (aggregate dev rows)
    = count_distinct type_std (filter has_type rows).
Proof. repeat split. Qed.

Lemma status_accounting (dev : string) (rows : list ProjectRecord) :
  total_projects (aggregate dev rows) =
    operational (aggregate dev rows) + withdrawn (aggregate dev rows)
    + active (aggregate dev rows) + under_construction (aggregate dev rows)
    + suspended (aggregate dev rows) + count_filter other_status rows.
Proof.
  simpl. induction rows as [|r rows IH]; [reflexivity|].
  rewrite count_star_cons, !count_filter_cons.
  pose proof (status_partition r). lia.
Qed.

(** *** Distinct values and sets *)


Lemma omap_cons_col (col : ProjectRecord -> option string)
    (r : ProjectRecord) (rows : list ProjectRecord) :
  omap col (r :: rows)
    = match col r with Some v => v :: omap col rows | None => omap col rows end.
Proof. reflexivity. Qed.

Lemma omap_type_std_filter (rows : list ProjectRecord) :
  omap type_std (filter has_type rows) = omap type_std rows.
Proof.
  induction rows as [|r rows IH]; [reflexivity|].
  rewrite filter_cons.
  destruct (decide (has_type r)) as [[v Hv]|Hn].
  - rewrite !omap_cons_col, Hv. now f_equal.
  - rewrite omap_cons_col.
    destruct (type_std r) as [v|] eqn:E; [|exact IH].
    destruct Hn. unfold has_type. rewrite E. eauto.
Qed.

(** Ordering the entries neither adds, drops nor repeats one. *)
Lemma insert_sorted_perm (x : string) (l : list string) :
  insert_sorted x l ≡ₚ x :: l.
Proof.
  induction l as [|y l IH]; [reflexivity|]. simpl.
  destruct (String.leb x y); [reflexivity|].
  rewrite IH. apply Permutation_swap.
Qed.

Lemma order_by_perm (l : list string) : order_by l ≡ₚ l.
Proof.
  induction l as [|x l IH]; [reflexivity|].
  unfold order_by in *. simpl. now rewrite insert_sorted_perm, IH.
Qed.

Lemma aggregated_values_spec (col : ProjectRecord -> option string)
    (rows : list ProjectRecord) :
  NoDup (aggregated_values col rows) /\
  list_to_set (aggregated_values col rows)
    = (list_to_set (omap col rows) : gset string) /\
  count_distinct col rows = Z.of_nat (length (aggregated_values col rows)).
Proof.
  unfold aggregated_values, count_distinct.
  pose proof (order_by_perm (distinct_values col rows)) as Hp.
  split; [|split].
  - rewrite Hp. apply NoDup_remove_dups.
  - rewrite Hp. apply set_eq. intros x. unfold distinct_values.
    now rewrite !elem_of_list_to_set, elem_of_remove_dups.
  - now rewrite Hp.
Qed.

(** *** Groups *)

Lemma group_projects_app (dev : string) (l1 l2 : list ProjectRecord) :
  group dev (projects (l1 ++ l2))
    = group dev (projects l1) ++ group dev (projects l2).
Proof. unfold group, projects. now rewrite !filter_app. Qed.

Lemma has_developer_iff (r : ProjectRecord) :
  has_developer r <-> exists s, developer_canonical r = Some s /\ s <> "".
Proof.
  unfold has_developer. destruct (developer_canonical r) as [s|].
  - split; [eauto | now intros (? & [= <-] & ?)].
  - split; [done | now intros (? & ? & ?)].
Qed.

Lemma group_projects_cons (dev : string) (r : ProjectRecord)
    (l : list ProjectRecord) :
  group dev (projects (r :: l))
    = (if decide (developer_canonical r = Some dev /\ dev <> "")
       then [r] else []) ++ group dev (projects l).
Proof.
  unfold group, projects. rewrite filter_cons.
  destruct (decide (has_developer r)) as [Hd|Hd].
  - rewrite filter_cons.
    apply has_developer_iff in Hd as (s & Hs & Hne).
    destruct (decide (developer_canonical r = Some dev)) as [E|E].
    + rewrite decide_True; [reflexivity|]. split; congruence.
    + rewrite decide_False by (intros [? _]; done). reflexivity.
  - rewrite decide_False; [reflexivity|].
    intros [E Hne]. apply Hd, has_developer_iff. eauto.
Qed.

Lemma developers_elem (src : list ProjectRecord) (m : DeveloperMetrics) :
  m ∈ developers src -> m = metrics_of src (name m).
Proof.
  unfold developers. intros (dev & -> & _)%list_elem_of_fmap. reflexivity.
Qed.

(** Inserting a row anywhere in the source table inserts it, when it is
    attributed to [dev], into the group of [dev]. *)
Lemma group_projects_insert (dev : string) (r : ProjectRecord)
    (src1 src2 : list ProjectRecord) :
  group dev (projects (src1 ++ r :: src2))
    = group dev (projects src1)
      ++ (if decide (developer_canonical r = Some dev /\ dev <> "")
          then [r] else [])
      ++ group dev (projects src2).
Proof. now rewrite group_projects_app, group_projects_cons. Qed.

Lemma filter_has_type_insert (r : ProjectRecord) (b : bool)
    (g1 g2 : list ProjectRecord) :
  type_std r = None ->
  filter has_type (g1 ++ (if b then [r] else []) ++ g2)
    = filter has_type (g1 ++ g2).
Proof.
  intros Hr. rewrite !filter_app. destruct b; [|reflexivity].
  rewrite filter_cons, decide_False; [reflexivity|].
  unfold has_type. rewrite Hr. now intros [? ?].
Qed.

(** ** Fuel types *)

(** C6, as stated, fails for an empty (non-NULL) fuel type: such a row adds
    the empty string to the developer's fuel types and raises the count. *)
Lemma C6_counterexample_empty_type :
  type_std empty_type_row = Some "" /\
  num_fuel_types (metrics_of [solar_row] "Acme") = 1 /\
  num_fuel_types (metrics_of [empty_type_row; solar_row] "Acme") = 2 /\
  fuel_types (metrics_of [empty_type_row; solar_row] "Acme")
    = Some ", Solar".
Proof. repeat split; vm_compute; reflexivity. Qed.

(** C6 (amended): a row whose fuel type is absent (NULL) changes neither
    the fuel types nor the distinct fuel-type count of any developer,
    wherever it stands in the source table; attributed to a developer, it
    still adds one to that developer's total and to the count of its
    status. *)
Theorem C6_null_fuel_type_not_counted (src1 src2 : list ProjectRecord)
    (r : ProjectRecord) (dev : string) :
  type_std r = None ->
  let before := metrics_of (src1 ++ src2) dev in
  let after := metrics_of (src1 ++ r :: src2) dev in
  num_fuel_types after = num_fuel_types before /\
  fuel_types after = fuel_types before /\
  fuel_type_set (group dev (projects (src1 ++ r :: src2)))
    = fuel_type_set (group dev (projects (src1 ++ src2))) /\
  (developer_canonical r = Some dev -> dev <> "" ->
   total_projects after = total_projects before + 1 /\
   operational after
     = operational before + indicator (status_is "Operational" r) /\
   withdrawn after = withdrawn before + indicator (status_is "Withdrawn" r) /\
   active after = active before + indicator (status_is "Active" r) /\
   under_construction after
     = under_construction before
       + indicator (status_is "Under Construction" r) /\
   suspended after = suspended before + indicator (status_is "Suspended" r)).
Proof.
  intros Hr before after. subst before after. unfold metrics_of.
  rewrite group_projects_insert, group_projects_app.
  set (g1 := group dev (projects src1)).
  set (g2 := group dev (projects src2)).
  unfold fuel_type_set.
  rewrite <- (omap_type_std_filter (g1 ++ g2)).
  destruct (aggregate_columns dev (g1 ++ g2))
    as (-> & -> & -> & -> & -> & -> & _ & -> & ->).
  destruct (decide (developer_canonical r = Some dev /\ dev <> ""))
    as [Hin|Hout].
  - rewrite <- (omap_type_std_filter (g1 ++ [r] ++ g2)).
    destruct (aggregate_columns dev (g1 ++ [r] ++ g2))
      as (-> & -> & -> & -> & -> & -> & _ & -> & ->).
    rewrite (filter_has_type_insert r true g1 g2 Hr).
    repeat split; try reflexivity.
    all: rewrite ?count_star_app, ?count_star_cons,
           ?count_filter_app, ?count_filter_cons.
    all: unfold count_star, count_filter;
      rewrite ?filter_nil; cbn [length]; lia.
  - cbn [app]. rewrite omap_type_std_filter.
    repeat split; try reflexivity.
    all: exfalso; apply Hout; split; assumption.
Qed.

Lemma C6_witness_untyped_row :
  num_fuel_types (metrics_of ([solar_row] ++ untyped_row :: [solar_row]) "Acme")
    = num_fuel_types (metrics_of ([solar_row] ++ [solar_row]) "Acme") /\
  total_projects
    (metrics_of ([solar_row] ++ untyped_row :: [solar_row]) "Acme")
    = total_projects (metrics_of ([solar_row] ++ [solar_row]) "Acme") + 1.
Proof.
  destruct (C6_null_fuel_type_not_counted [solar_row] [solar_row]
              untyped_row "Acme" eq_refl) as (Hn & _ & _ & Hc).
  split; [exact Hn|]. apply Hc; [reflexivity | discriminate].
Defined.

(** ** Invariants of a metrics row *)



End AggregatorFacts.

(** * Further properties of the scoring engine *)

Module ScoringExtras.

Import Scoring ScoringFacts.
Local Open Scope R_scope.

(** *** Rounding is monotone and stable *)

Lemma round_half_even_mono (x y : R) :
  x <= y -> (round_half_even x <= round_half_even y)%Z.
Proof.
  intros Hxy.
  pose proof (Zfloor_le _ _ Hxy) as Hf.
  destruct (Z.eq_dec (Zfloor x) (Zfloor y)) as [E|E].
  - unfold round_half_even. rewrite <- E.
    destruct (Rlt_dec (x - IZR (Zfloor x)) (1 / 2)) as [Hx|Hx].
    + destruct (Rlt_dec (y - IZR (Zfloor x)) (1 / 2)); [lia|].
      destruct (Rlt_dec (1 / 2) (y - IZR (Zfloor x))); [lia|].
      destruct (Z.even (Zfloor x)); lia.
    + destruct (Rlt_dec (y - IZR (Zfloor x)) (1 / 2)) as [Hy|Hy]; [lra|].
      destruct (Rlt_dec (1 / 2) (x - IZR (Zfloor x))) as [Hx'|Hx'].
      * destruct (Rlt_dec (1 / 2) (y - IZR (Zfloor x))); [lia|lra].
      * destruct (Rlt_dec (1 / 2) (y - IZR (Zfloor x))).
        -- destruct (Z.even (Zfloor x)); lia.
        -- destruct (Z.even (Zfloor x)); lia.
  - destruct (round_half_even_cases x) as [-> | ->],
             (round_half_even_cases y) as [-> | ->]; lia.
Qed.

Lemma py_round_mono (x y : R) (n : nat) :
  x <= y -> py_round x n <= py_round y n.
Proof.
  intros Hxy. unfold py_round.
  pose proof (pow10_pos n) as Hp.
  apply Rmult_le_compat_r; [left; now apply Rinv_0_lt_compat|].
  apply IZR_le, round_half_even_mono.
  apply Rmult_le_compat_r; lra.
Qed.

Lemma round_half_even_IZR (z : Z) : round_half_even (IZR z) = z.
Proof. apply round_half_even_near. lra. Qed.

(** A value with [m] decimals is left alone by rounding to [m + k]
    decimals. *)
Lemma py_round_grid (z : Z) (m k : nat) :
  py_round (IZR z / 10 ^ m) (m + k) = IZR z / 10 ^ m.
Proof.
  unfold py_round.
  pose proof (pow10_pos m) as Hm. pose proof (pow10_pos k) as Hk.
  replace (IZR z / 10 ^ m * 10 ^ (m + k)) with (IZR (z * 10 ^ Z.of_nat k)).
  - rewrite round_half_even_IZR, mult_IZR, <- pow_IZR, pow_add.
    field. lra.
  - rewrite mult_IZR, <- pow_IZR, pow_add. field. lra.
Qed.

Lemma py_round_on_grid (x : R) (m : nat) :
  exists z : Z, py_round x m = IZR z / 10 ^ m.
Proof. unfold py_round. eauto. Qed.

Lemma py_round_idempotent (x : R) (m k : nat) :
  py_round (py_round x m) (m + k) = py_round x m.
Proof. destruct (py_round_on_grid x m) as [z ->]. apply py_round_grid. Qed.

Lemma py_round4_error (x : R) :
  - (5 / 100000) <= py_round x 4 - x <= 5 / 100000.
Proof.
  unfold py_round. simpl.
  pose proof (round_half_even_error (x * (10 * (10 * (10 * (10 * 1)))))) as H.
  lra.
Qed.

(** ** Shapes of the remaining curves *)

Lemma score_timeline_antitone (d1 d2 : R) :
  0 < d1 -> d1 <= d2 ->
  score_timeline (Some d2) <= score_timeline (Some d1).
Proof.
  intros H1 H12. rewrite !score_timeline_Some.
  destruct (Rle_dec d1 0), (Rle_dec d2 0); try lra.
  destruct (Rle_dec d1 365), (Rle_dec d2 365); try lra;
    destruct (Rle_dec 2190 d1), (Rle_dec 2190 d2); lra.
Qed.

Lemma score_depth_mono (y1 y2 : R) :
  y1 <= y2 -> score_depth y1 <= score_depth y2.
Proof.
  intros H. unfold score_depth, DEPTH_MAX, py_min.
  destruct (Rle_dec y1 0), (Rle_dec y2 0); try lra;
    repeat destruct (Rlt_dec _ _); lra.
Qed.

Lemma score_volume_mono (t1 t2 : Z) :
  (t1 <= t2)%Z -> score_volume t1 <= score_volume t2.
Proof.
  intros Hle. destruct (score_volume_range t2) as [Hnn _].
  unfold score_volume in *.
  destruct (Z.leb_spec t1 0) as [H1|H1]; [assumption|].
  destruct (Z.leb_spec t2 0) as [H2|H2]; [lia|].
  apply py_min_mono, log_ratio_mono;
    [unfold VOLUME_CAP; lra | now apply IZR_lt | now apply IZR_le].
Qed.

Lemma score_pipeline_mono (a1 a2 : Z) :
  (a1 <= a2)%Z -> score_pipeline a1 <= score_pipeline a2.
Proof.
  intros Hle. destruct (score_pipeline_range a2) as [Hnn _].
  unfold score_pipeline in *.
  destruct (Z.leb_spec a1 0) as [H1|H1]; [assumption|].
  destruct (Z.leb_spec a2 0) as [H2|H2]; [lia|].
  apply py_min_mono, log_ratio_mono;
    [unfold PIPELINE_CAP; lra | now apply IZR_lt | now apply IZR_le].
Qed.

(** X1: over positive durations the timeline sub-score never increases
    with the average number of days. *)
Theorem X1_timeline_non_increasing (d1 d2 : R) :
  0 < d1 -> d1 <= d2 ->
  score_timeline (Some d2) <= score_timeline (Some d1).
Proof. apply score_timeline_antitone. Qed.

Lemma X1_witness_days :
  score_timeline (Some 900) <= score_timeline (Some 400).
Proof. apply X1_timeline_non_increasing; lra. Defined.

(** X2: the depth sub-score is 0 for a tenure of zero years or less,
    five points per year below twenty years, 100 from twenty years on, and
    never decreases with the tenure. *)
Theorem X2_depth_curve :
  (forall y : R, y <= 0 -> score_depth y = 0) /\
  (forall y : R, 0 < y < 20 -> score_depth y = 5 * y) /\
  (forall y : R, 20 <= y -> score_depth y = 100) /\
  (forall y1 y2 : R, y1 <= y2 -> score_depth y1 <= score_depth y2).
Proof.
  unfold score_depth, DEPTH_MAX, py_min.
  repeat split; intros.
  - destruct (Rle_dec y 0); lra.
  - destruct (Rle_dec y 0); [lra|]. destruct (Rlt_dec _ _); lra.
  - destruct (Rle_dec y 0); [lra|]. destruct (Rlt_dec _ _); lra.
  - fold (py_min 100 (y1 / 20 * 100)). fold (py_min 100 (y2 / 20 * 100)).
    now apply score_depth_mono.
Qed.

Lemma X2_witness_years :
  score_depth (-1) = 0 /\ score_depth 7 = 5 * 7 /\ score_depth 31 = 100 /\
  score_depth 7 <= score_depth 31.
Proof.
  destruct X2_depth_curve as (H0 & Hlin & Hcap & Hmono).
  repeat split; [apply H0 | apply Hlin | apply Hcap | apply Hmono]; lra.
Defined.

Lemma linear_score_below (n cap : Z) :
  (0 < cap)%Z -> (n <= cap)%Z ->
  py_min 100 (IZR n / IZR cap * 100) = IZR n / IZR cap * 100.
Proof.
  intros Hc Hn. apply IZR_lt in Hc. apply IZR_le in Hn.
  assert (IZR n / IZR cap <= 1).
  { apply (Rmult_le_reg_r (IZR cap)); [assumption|].
    replace (IZR n / IZR cap * IZR cap) with (IZR n) by (field; lra). lra. }
  unfold py_min. destruct (Rlt_dec _ _); lra.
Qed.

Lemma linear_score_above (n cap : Z) :
  (0 < cap)%Z -> (cap <= n)%Z -> py_min 100 (IZR n / IZR cap * 100) = 100.
Proof.
  intros Hc Hn. apply IZR_lt in Hc. apply IZR_le in Hn.
  apply py_min_cap.
  assert (1 <= IZR n / IZR cap).
  { apply (Rmult_le_reg_r (IZR cap)); [assumption|].
    replace (IZR n / IZR cap * IZR cap) with (IZR n) by (field; lra). lra. }
  lra.
Qed.

Lemma linear_score_mono (n1 n2 cap : Z) :
  (0 < cap)%Z -> (n1 <= n2)%Z ->
  py_min 100 (IZR n1 / IZR cap * 100) <= py_min 100 (IZR n2 / IZR cap * 100).
Proof.
  intros Hc Hn. apply IZR_lt in Hc. apply IZR_le in Hn.
  apply py_min_mono. apply Rmult_le_compat_r; [lra|].
  apply Rmult_le_compat_r; [left; now apply Rinv_0_lt_compat | assumption].
Qed.

(** X4: breadth and diversity have no lower clamp.  For a qualified input
    with a negative [num_regions] the returned [breadth_score] is at most
    -11.1, and with a negative [num_fuel_types] the returned
    [diversity_score] is at most -12.5. *)
Theorem X4_negative_counts_not_clamped (inp : ScoringInput)
    (r : ScoreResult) :
  compute_score inp = Some r ->
  ((num_regions inp < 0)%Z -> breadth_score r <= -11.1) /\
  ((num_fuel_types inp < 0)%Z -> diversity_score r <= -12.5).
Proof.
  intros Hr.
  destruct (compute_score_Some _ _ Hr)
    as (_ & _ & _ & _ & _ & -> & -> & _ & _).
  split; intros Hneg.
  - pose proof (linear_score_mono (num_regions inp) (-1) REGIONS_MAX
                  eq_refl ltac:(lia)) as Hle.
    rewrite (linear_score_below (-1) REGIONS_MAX) in Hle by done.
    apply (py_round_mono _ _ 1) in Hle. unfold REGIONS_MAX in Hle.
    rewrite (py_round1_near (-1 / 9 * 100) (-111)) in Hle by lra.
    unfold score_breadth, REGIONS_MAX. lra.
  - pose proof (linear_score_mono (num_fuel_types inp) (-1) FUEL_TYPES_MAX
                  eq_refl ltac:(lia)) as Hle.
    rewrite (linear_score_below (-1) FUEL_TYPES_MAX) in Hle by done.
    apply (py_round_mono _ _ 1) in Hle. unfold FUEL_TYPES_MAX in Hle.
    rewrite (py_round1_near (-1 / 8 * 100) (-125)) in Hle by lra.
    unfold score_diversity, FUEL_TYPES_MAX. lra.
Qed.

Lemma X4_witness_negative_counts :
  exists r, compute_score Samples.negative_counts_input = Some r /\
            breadth_score r <= -11.1 /\ diversity_score r <= -12.5.
Proof.
  eexists. split; [reflexivity|].
  split; eapply (X4_negative_counts_not_clamped Samples.negative_counts_input);
    reflexivity.
Defined.

(** ** Returned results *)





End ScoringExtras.

(** * Properties of the Python values *)

Module PyFacts.

Import Py.
Local Open Scope R_scope.

Lemma bind_Return {A B : Type} (a : A) (k : A -> outcome B) :
  (Return a ≫= k) = k a.
Proof. reflexivity. Qed.

Lemma bind_Raise {A B : Type} (e : exn) (k : A -> outcome B) :
  (Raise e ≫= k) = Raise e.
Proof. reflexivity. Qed.

Lemma bind_Return_inv {A B : Type} (m : outcome A) (k : A -> outcome B)
    (b : B) :
  (m ≫= k) = Return b -> exists a, m = Return a /\ k a = Return b.
Proof. destruct m as [a|e]; [eauto | discriminate]. Qed.

Lemma FLOAT_LIMIT_large : 1000000000 < IZR FLOAT_LIMIT.
Proof. apply IZR_lt. reflexivity. Qed.

Lemma FLOAT_LIMIT_pos : (2 <= FLOAT_LIMIT)%Z.
Proof. unfold FLOAT_LIMIT. intros H. discriminate H. Qed.

Lemma fin_in_range (x : R) : Rabs x < IZR FLOAT_LIMIT -> fin x = Fin x.
Proof. intros H. unfold fin. destruct (Rlt_dec _ _); [reflexivity | lra]. Qed.

Lemma fin_small (x : R) : -1000000000 < x < 1000000000 -> fin x = Fin x.
Proof.
  intros [Hl Hu]. apply fin_in_range.
  pose proof FLOAT_LIMIT_large. apply Rabs_def1; lra.
Qed.


Lemma fin_positive_overflow (x : R) :
  IZR FLOAT_LIMIT <= x -> fin x = Inf false.
Proof.
  intros H. pose proof FLOAT_LIMIT_large. unfold fin, negative_real.
  destruct (Rlt_dec (Rabs x) _) as [Ha|_].
  - rewrite Rabs_right in Ha by lra. lra.
  - destruct (Rlt_dec x 0); [lra | reflexivity].
Qed.

Lemma fin_negative_overflow (x : R) :
  x <= - IZR FLOAT_LIMIT -> fin x = Inf true.
Proof.
  intros H. pose proof FLOAT_LIMIT_large. unfold fin, negative_real.
  destruct (Rlt_dec (Rabs x) _) as [Ha|_].
  - rewrite Rabs_left in Ha by lra. lra.
  - destruct (Rlt_dec x 0); [reflexivity | lra].
Qed.

Lemma fadd_NaN_r (a : pyfloat) : fadd a NaN = NaN.
Proof. now destruct a. Qed.

Lemma fmul_NaN_r (a : pyfloat) : fmul a NaN = NaN.
Proof. now destruct a. Qed.



Lemma fmin_Fin (a x : R) : fmin (Fin a) (Fin x) = Fin (Scoring.py_min a x).
Proof.
  unfold fmin, flt, Scoring.py_min. now destruct (Rlt_dec x a).
Qed.

Lemma float_of_int_in_range (n : Z) :
  (Z.abs n < FLOAT_LIMIT)%Z -> float_of_int n = Return (Fin (IZR n)).
Proof.
  intros H. unfold float_of_int.
  destruct (Z.ltb_spec (Z.abs n) FLOAT_LIMIT); [reflexivity | lia].
Qed.

Lemma float_of_int_overflow (n : Z) :
  (FLOAT_LIMIT <= Z.abs n)%Z -> float_of_int n = Raise OverflowError.
Proof.
  intros H. unfold float_of_int.
  destruct (Z.ltb_spec (Z.abs n) FLOAT_LIMIT); [lia | reflexivity].
Qed.

Lemma int_truediv_in_range (a b : Z) :
  (b <> 0)%Z -> (Z.abs a < FLOAT_LIMIT * Z.abs b)%Z ->
  int_truediv a b = Return (Fin (IZR a / IZR b)).
Proof.
  intros Hb H. unfold int_truediv.
  destruct (Z.eqb_spec b 0); [contradiction|].
  destruct (Z.ltb_spec (Z.abs a) (FLOAT_LIMIT * Z.abs b)); [reflexivity|lia].
Qed.

Lemma int_truediv_overflow (a b : Z) :
  (b <> 0)%Z -> (FLOAT_LIMIT * Z.abs b <= Z.abs a)%Z ->
  int_truediv a b = Raise OverflowError.
Proof.
  intros Hb H. unfold int_truediv.
  destruct (Z.eqb_spec b 0); [contradiction|].
  destruct (Z.ltb_spec (Z.abs a) (FLOAT_LIMIT * Z.abs b)); [lia|reflexivity].
Qed.

(** ** The rounding of a quotient to a float *)

Lemma ln_2_pos : 0 < ln 2.
Proof. apply ScoringFacts.ln_pos. lra. Qed.

Lemma powerRZ_2_exp (z : Z) : powerRZ 2 z = exp (IZR z * ln 2).
Proof. now rewrite powerRZ_Rpower by lra. Qed.

Lemma powerRZ_2_pos (z : Z) : 0 < powerRZ 2 z.
Proof. apply powerRZ_lt. lra. Qed.

Lemma powerRZ_2_lt (a b : Z) : (a < b)%Z -> powerRZ 2 a < powerRZ 2 b.
Proof.
  intros H. rewrite !powerRZ_2_exp. apply exp_increasing.
  apply IZR_lt in H. pose proof ln_2_pos. nra.
Qed.

Lemma powerRZ_2_le (a b : Z) : (a <= b)%Z -> powerRZ 2 a <= powerRZ 2 b.
Proof.
  intros H. destruct (Z.eq_dec a b) as [->|Hne]; [lra|].
  left. apply powerRZ_2_lt. lia.
Qed.

Lemma powerRZ_2_lt_inv (a b : Z) : powerRZ 2 a < powerRZ 2 b -> (a < b)%Z.
Proof.
  intros H. destruct (Z_lt_le_dec a b) as [Hlt|Hge]; [assumption|].
  apply powerRZ_2_le in Hge. lra.
Qed.

Lemma powerRZ_2_IZR (z : Z) : (0 <= z)%Z -> powerRZ 2 z = IZR (2 ^ z).
Proof.
  intros H. rewrite <- (Z2Nat.id z) at 1 by assumption.
  rewrite <- pow_powerRZ, pow_IZR. now rewrite Z2Nat.id.
Qed.

Lemma powerRZ_2_inverse (z : Z) : powerRZ 2 (- z) * powerRZ 2 z = 1.
Proof.
  rewrite <- powerRZ_add by lra. now replace (- z + z)%Z with 0%Z by lia.
Qed.

(** [ilog2 x] is the exponent of [x]. *)
Lemma ilog2_spec (x : R) :
  0 < x -> powerRZ 2 (ilog2 x) <= x < powerRZ 2 (ilog2 x + 1).
Proof.
  intros Hx. unfold ilog2. pose proof ln_2_pos as H2.
  pose proof (Zfloor_bound (ln x / ln 2)) as [Hlo Hhi].
  set (n := Zfloor (ln x / ln 2)) in *.
  assert (Hq : ln x / ln 2 * ln 2 = ln x) by (field; lra).
  assert (Hl : IZR n * ln 2 <= ln x) by nra.
  assert (Hu : ln x < (IZR n + 1) * ln 2) by nra.
  rewrite !powerRZ_2_exp, plus_IZR. rewrite <- (exp_ln x Hx) at 1 2.
  split; [|now apply exp_increasing].
  destruct Hl as [Hl|Hl]; [left; now apply exp_increasing | right; now f_equal].
Qed.

Lemma ilog2_unique (x : R) (n : Z) :
  powerRZ 2 n <= x < powerRZ 2 (n + 1) -> ilog2 x = n.
Proof.
  intros [Hlo Hhi]. pose proof (powerRZ_2_pos n) as Hp.
  destruct (ilog2_spec x ltac:(lra)) as [Klo Khi].
  assert (n < ilog2 x + 1)%Z by (apply powerRZ_2_lt_inv; lra).
  assert (ilog2 x < n + 1)%Z by (apply powerRZ_2_lt_inv; lra).
  lia.
Qed.

(** An integer of at most 53 bits is a float. *)
Lemma round_binary64_integer (k : Z) :
  (0 <= k < 2 ^ 53)%Z -> round_binary64 (IZR k) = IZR k.
Proof.
  intros [H0 H1]. unfold round_binary64.
  destruct (Req_dec_T (IZR k) 0) as [E|E]; [now rewrite E|].
  assert (Hk : (0 < k)%Z).
  { destruct (Z.eq_dec k 0%Z) as [->|]; [contradiction | lia]. }
  apply IZR_lt in Hk as Hk'. apply IZR_lt in H1 as H1'.
  rewrite Rabs_right by lra.
  destruct (ilog2_spec (IZR k) Hk') as [Hlo Hhi].
  set (n := ilog2 (IZR k)) in *.
  assert (Hn0 : (0 <= n)%Z).
  { assert (0 < n + 1)%Z; [|lia]. apply powerRZ_2_lt_inv.
    rewrite powerRZ_O. assert (1 <= IZR k) by (apply IZR_le; lia). lra. }
  assert (Hn1 : (n < 53)%Z).
  { apply powerRZ_2_lt_inv. rewrite (powerRZ_2_IZR 53) by lia. lra. }
  rewrite Z.max_l by lia.
  replace (- (n - 52))%Z with (52 - n)%Z by lia.
  rewrite (powerRZ_2_IZR (52 - n)) by lia.
  rewrite <- mult_IZR, ScoringExtras.round_half_even_IZR, mult_IZR.
  rewrite <- (powerRZ_2_IZR (52 - n)) by lia.
  rewrite Rmult_assoc.
  replace (52 - n)%Z with (- (n - 52))%Z by lia.
  rewrite powerRZ_2_inverse. lra.
Qed.

(** A normal float is within half a unit in the last place of the real it
    rounds. *)
Lemma round_binary64_error (x : R) :
  powerRZ 2 (-1022) <= x ->
  Rabs (round_binary64 x - x) <= x * powerRZ 2 (-52) / 2.
Proof.
  intros Hx. pose proof (powerRZ_2_pos (-1022)) as Hmin.
  unfold round_binary64.
  destruct (Req_dec_T x 0) as [E|E]; [lra|].
  rewrite (Rabs_right x) by lra.
  destruct (ilog2_spec x ltac:(lra)) as [Hlo Hhi].
  set (n := ilog2 x) in *.
  assert (Hn : (-1022 < n + 1)%Z) by (apply powerRZ_2_lt_inv; lra).
  rewrite Z.max_l by lia.
  pose proof (ScoringFacts.round_half_even_error
                (x * powerRZ 2 (- (n - 52)))) as Herr.
  set (m := IZR (Scoring.round_half_even (x * powerRZ 2 (- (n - 52))))) in *.
  pose proof (powerRZ_2_inverse (n - 52)) as Hinv.
  pose proof (powerRZ_2_pos (n - 52)) as He.
  assert (Hsplit : powerRZ 2 (n - 52) = powerRZ 2 n * powerRZ 2 (-52)).
  { rewrite <- powerRZ_add by lra. f_equal. }
  pose proof (powerRZ_2_pos (-52)) as H52.
  replace (m * powerRZ 2 (n - 52) - x)
    with ((m - x * powerRZ 2 (- (n - 52))) * powerRZ 2 (n - 52)) by nra.
  rewrite Rabs_mult, (Rabs_right (powerRZ 2 (n - 52))) by lra.
  assert (Hm : Rabs (m - x * powerRZ 2 (- (n - 52))) <= 1 / 2)
    by (apply Rabs_le; lra).
  apply Rle_trans with (1 / 2 * powerRZ 2 (n - 52)).
  - apply Rmult_le_compat_r; lra.
  - rewrite Hsplit. nra.
Qed.

(** The ceiling of the float quotient of two integers of at most 53 bits is
    the least number of [b]s that hold [a]. *)
Lemma rounded_ceil_div (a b : Z) :
  (0 <= a < 2 ^ 53)%Z -> (0 < b < 2 ^ 53)%Z ->
  let p := Zceil (round_binary64 (IZR a / IZR b)) in
  ((p - 1) * b < a <= p * b)%Z.
Proof.
  intros [Ha0 Ha1] [Hb0 Hb1] p.
  pose proof (Z.div_mod a b ltac:(lia)) as Hdiv.
  pose proof (Z.mod_pos_bound a b Hb0) as Hmod.
  set (q := (a / b)%Z) in *. set (r := (a mod b)%Z) in *.
  assert (Hq0 : (0 <= q)%Z) by (apply Z.div_pos; lia).
  apply IZR_lt in Hb0 as Hb0'.
  assert (Hx : IZR a / IZR b = IZR q + IZR r / IZR b).
  { rewrite Hdiv, plus_IZR, mult_IZR. field. lra. }
  destruct (Z.eq_dec r 0%Z) as [Hr|Hr].
  - assert (Hp : p = q).
    { unfold p. rewrite Hx, Hr. replace (IZR q + 0 / IZR b) with (IZR q)
        by (field; lra).
      rewrite round_binary64_integer by nia.
      apply Zceil_eq. lra. }
    rewrite Hp. nia.
  - assert (Hp : p = (q + 1)%Z).
    { unfold p. apply Zceil_eq. rewrite plus_IZR.
      assert (Hr1 : 1 <= IZR r) by (apply IZR_le; lia).
      assert (Hr2 : IZR r <= IZR b - 1)
        by (rewrite <- minus_IZR; apply IZR_le; lia).
      assert (Hinvb : 0 < / IZR b) by now apply Rinv_0_lt_compat.
      assert (Hbb : IZR b * / IZR b = 1) by (field; lra).
      assert (Hlo : IZR q + / IZR b <= IZR a / IZR b).
      { rewrite Hx. unfold Rdiv. nra. }
      assert (Hhi : IZR a / IZR b <= IZR q + 1 - / IZR b).
      { rewrite Hx. unfold Rdiv. nra. }
      pose proof (powerRZ_2_inverse 52) as H52.
      change (- (52))%Z with (-52)%Z in H52.
      rewrite (powerRZ_2_IZR 52) in H52 by lia.
      pose proof (powerRZ_2_pos (-52)) as P52.
      apply IZR_lt in Ha1 as Ha1'. apply IZR_lt in Hb1 as Hb1'.
      change (2 ^ 53)%Z with (2 * 2 ^ 52)%Z in Ha1', Hb1'.
      rewrite mult_IZR in Ha1', Hb1'.
      assert (H52pos : 0 < IZR (2 ^ 52)) by (apply IZR_lt; reflexivity).
      assert (Hnormal : powerRZ 2 (-1022) <= IZR a / IZR b).
      { apply IZR_le in Hq0 as Hq0'. apply IZR_lt in Hb1 as Hb53.
        pose proof (powerRZ_2_inverse 53) as H53.
        change (- (53))%Z with (-53)%Z in H53.
        rewrite (powerRZ_2_IZR 53) in H53 by lia.
        pose proof (powerRZ_2_pos (-53)) as P53.
        apply Rle_trans with (powerRZ 2 (-53)).
        - apply powerRZ_2_le. lia.
        - apply Rle_trans with (/ IZR b); [|lra].
          apply (Rmult_le_reg_r (IZR b)); [assumption|].
          rewrite (Rmult_comm (/ IZR b)), Hbb. nra. }
      pose proof (round_binary64_error _ Hnormal) as Herr.
      pose proof (Rle_abs (round_binary64 (IZR a / IZR b) - IZR a / IZR b))
        as Habs1.
      pose proof (Rle_abs (- (round_binary64 (IZR a / IZR b)
                              - IZR a / IZR b))) as Habs2.
      rewrite Rabs_Ropp in Habs2.
      assert (Hsmall : IZR a / IZR b * powerRZ 2 (-52) / 2 < / IZR b).
      { assert (IZR a * powerRZ 2 (-52) < 2) by nra.
        unfold Rdiv.
        replace (IZR a * / IZR b * powerRZ 2 (-52) * / 2)
          with (IZR a * powerRZ 2 (-52) * / 2 * / IZR b) by ring.
        rewrite <- (Rmult_1_l (/ IZR b)) at 2.
        apply Rmult_lt_compat_r; [assumption | lra]. }
      lra. }
    rewrite Hp. nia.
Qed.

(** Beyond 53 bits the quotient is rounded: [(2^53 + 1) / 1] is the float
    [2^53]. *)
Lemma round_binary64_odd :
  round_binary64 (IZR (2 ^ 53 + 1) / IZR 1) = IZR (2 ^ 53).
Proof.
  assert (Hx : IZR (2 ^ 53 + 1) / IZR 1 = IZR (2 ^ 53) + 1)
    by (rewrite plus_IZR; field).
  rewrite Hx. clear Hx.
  assert (H53 : 0 < IZR (2 ^ 53)) by (apply IZR_lt; reflexivity).
  unfold round_binary64.
  destruct (Req_dec_T _ 0) as [E|_]; [lra|].
  rewrite Rabs_right by lra.
  rewrite (ilog2_unique _ 53).
  - change (Z.max (53 - 52) (-1074)) with 1%Z.
    change (powerRZ 2 (- (1))) with (/ (2 * 1)). change (powerRZ 2 1) with (2 * 1).
    assert (Hy : (IZR (2 ^ 53) + 1) * / (2 * 1) = IZR (2 ^ 52) + 1 / 2).
    { change (2 ^ 53)%Z with (2 * 2 ^ 52)%Z. rewrite mult_IZR. field. }
    rewrite Hy. unfold Scoring.round_half_even.
    rewrite (Zfloor_eq (2 ^ 52)) by lra.
    destruct (Rlt_dec _ _); [lra|]. destruct (Rlt_dec _ _); [lra|].
    change (Z.even (2 ^ 52)) with true. cbv iota.
    change (2 ^ 53)%Z with (2 ^ 52 * 2)%Z. rewrite mult_IZR. lra.
  - rewrite (powerRZ_2_IZR 53), (powerRZ_2_IZR (53 + 1)) by lia.
    change (2 ^ (53 + 1))%Z with (2 * 2 ^ 53)%Z. rewrite mult_IZR. lra.
Qed.

End PyFacts.

(** * Properties of the scoring engine on Python values *)

Module PyScoringFacts.

Import Py PyFacts PyScoring.
Local Open Scope R_scope.

(** ** The sub-scores against their finite counterparts *)

Lemma score_completion_rate_finite (op wd : Z) :
  (0 <= op)%Z -> (0 <= wd)%Z ->
  score_completion_rate op wd
    = Return (Fin (Scoring.score_completion_rate op wd)).
Proof.
  intros Hop Hwd. unfold score_completion_rate, Scoring.score_completion_rate.
  destruct (Z.eqb_spec (op + wd) 0) as [E|E]; [reflexivity|].
  pose proof FLOAT_LIMIT_pos.
  rewrite int_truediv_in_range by nia. rewrite bind_Return.
  simpl. rewrite fin_small; [reflexivity|].
  pose proof (ScoringFacts.score_completion_rate_range op wd Hop Hwd) as Hr.
  rewrite ScoringFacts.score_completion_rate_qualified in Hr by assumption.
  lra.
Qed.

Lemma score_timeline_finite (d : R) :
  score_timeline (Some (Fin d))
    = Return (Fin (Scoring.score_timeline (Some d))).
Proof.
  rewrite ScoringFacts.score_timeline_Some.
  unfold score_timeline, fle.
  change (IZR Scoring.TIMELINE_EXCELLENT) with 365.
  change (IZR Scoring.TIMELINE_POOR) with 2190.
  change (IZR (Scoring.TIMELINE_POOR - Scoring.TIMELINE_EXCELLENT)) with 1825.
  destruct (Rle_dec d 0); [reflexivity|].
  destruct (Rle_dec d 365); [reflexivity|].
  destruct (Rle_dec 2190 d); [reflexivity|].
  unfold fsub, fneg, fadd, fdiv.
  rewrite (fin_small (d + - (365))) by lra.
  destruct (Req_dec_T 1825 0); [lra|].
  rewrite (fin_small ((d + - (365)) / 1825)) by lra.
  rewrite bind_Return.
  rewrite (fin_small (1 + - ((d + - (365)) / 1825))) by lra.
  simpl. rewrite fin_small by lra. do 2 f_equal; try lra.
Qed.

Lemma score_timeline_NaN : score_timeline (Some NaN) = Return NaN.
Proof.
  unfold score_timeline, fle, fsub, fneg, fadd, fdiv.
  change (IZR (Scoring.TIMELINE_POOR - Scoring.TIMELINE_EXCELLENT)) with 1825.
  destruct (Req_dec_T 1825 0); [lra | reflexivity].
Qed.

Lemma score_timeline_returns (a : option pyfloat) :
  a <> Some NaN ->
  exists v, score_timeline a = Return (Fin v) /\ 0 <= v <= 100.
Proof.
  intros Ha. destruct a as [[d|[|]|]|].
  - rewrite score_timeline_finite. eexists. split; [reflexivity|].
    apply ScoringFacts.score_timeline_range.
  - exists 50. split; [reflexivity | lra].
  - exists 0. split; [reflexivity | lra].
  - contradiction.
  - exists 50. split; [reflexivity | lra].
Qed.

Lemma ln_2_lt_1 : ln 2 < 1.
Proof.
  assert (He : 2 < exp 1) by (pose proof (exp_ineq1 1 ltac:(lra)); lra).
  apply ln_increasing in He; [|lra].
  now rewrite ln_exp in He.
Qed.

Lemma ln_below_limit (t : Z) :
  (0 < t)%Z -> (t < FLOAT_LIMIT)%Z -> 0 < ln (1 + IZR t) < 1024.
Proof.
  intros Hpos Hlim.
  assert (H1 : 1 < 1 + IZR t) by (apply IZR_lt in Hpos; lra).
  split; [now apply ScoringFacts.ln_pos|].
  assert (Hle : 1 + IZR t <= IZR (2 ^ 1024)).
  { rewrite <- plus_IZR. apply IZR_le. unfold FLOAT_LIMIT in Hlim. lia. }
  apply ScoringFacts.ln_mono in Hle; [|lra].
  rewrite ScoringFacts.ln_IZR_pow in Hle by lia.
  pose proof ln_2_lt_1. lra.
Qed.

Lemma ln_cap_gt_1 (cap : Z) : (3 <= cap)%Z -> 1 < ln (1 + IZR cap).
Proof.
  intros H. apply IZR_le in H.
  assert (He : exp 1 < 1 + IZR cap) by (pose proof exp_le_3; lra).
  apply ln_increasing in He; [|apply exp_pos].
  now rewrite ln_exp in He.
Qed.

(** The log-scaled sub-score shared by [score_volume] and
    [score_pipeline]. *)
Lemma log_score_finite (t cap : Z) :
  (0 < t)%Z -> (t < FLOAT_LIMIT)%Z -> (3 <= cap)%Z -> (cap < FLOAT_LIMIT)%Z ->
  (a ← log1p_int t; b ← log1p_int cap; q ← fdiv a b;
   Return (fmin (Fin 100) (fmul q (Fin 100))))
  = Return (Fin (Scoring.py_min 100
                   (Scoring.log1p (IZR t) / Scoring.log1p (IZR cap) * 100))).
Proof.
  intros Ht Htl Hc Hcl. unfold log1p_int, Scoring.log1p.
  rewrite !float_of_int_in_range by lia. rewrite !bind_Return.
  unfold math_log1p.
  apply IZR_lt in Ht as Ht'. apply IZR_le in Hc as Hc'.
  destruct (Rle_dec (IZR t) (-1)); [lra|].
  destruct (Rle_dec (IZR cap) (-1)); [lra|].
  rewrite !bind_Return.
  pose proof (ln_below_limit t Ht Htl) as [Hl0 Hl1].
  pose proof (ln_cap_gt_1 cap Hc) as Hcap.
  assert (Hq : 0 < ln (1 + IZR t) / ln (1 + IZR cap) < 1024).
  { split; [apply Rdiv_lt_0_compat; lra|].
    apply (Rmult_lt_reg_r (ln (1 + IZR cap))); [lra|].
    replace (ln (1 + IZR t) / ln (1 + IZR cap) * ln (1 + IZR cap))
      with (ln (1 + IZR t)) by (field; lra).
    nra. }
  unfold fdiv. destruct (Req_dec_T (ln (1 + IZR cap)) 0); [lra|].
  rewrite fin_small by lra. rewrite bind_Return.
  simpl. rewrite fin_small by lra. now rewrite fmin_Fin.
Qed.

Lemma score_volume_finite (t : Z) :
  (t < FLOAT_LIMIT)%Z ->
  score_volume t = Return (Fin (Scoring.score_volume t)).
Proof.
  intros Ht. unfold score_volume, Scoring.score_volume.
  destruct (Z.leb_spec t 0); [reflexivity|].
  apply log_score_finite; first [assumption | now vm_compute].
Qed.

Lemma score_volume_overflow (t : Z) :
  (FLOAT_LIMIT <= t)%Z -> score_volume t = Raise OverflowError.
Proof.
  intros Ht. pose proof FLOAT_LIMIT_pos. unfold score_volume.
  destruct (Z.leb_spec t 0); [lia|].
  unfold log1p_int. now rewrite (float_of_int_overflow t) by lia.
Qed.

Lemma score_pipeline_finite (a : Z) :
  (a < FLOAT_LIMIT)%Z ->
  score_pipeline a = Return (Fin (Scoring.score_pipeline a)).
Proof.
  intros Ha. unfold score_pipeline, Scoring.score_pipeline.
  destruct (Z.leb_spec a 0); [reflexivity|].
  apply log_score_finite; first [assumption | now vm_compute].
Qed.

Lemma score_pipeline_overflow (a : Z) :
  (FLOAT_LIMIT <= a)%Z -> score_pipeline a = Raise OverflowError.
Proof.
  intros Ha. pose proof FLOAT_LIMIT_pos. unfold score_pipeline.
  destruct (Z.leb_spec a 0); [lia|].
  unfold log1p_int. now rewrite (float_of_int_overflow a) by lia.
Qed.

(** ** The cap [min(100.0, q * 100)] *)

Lemma capped_Fin (x : R) :
  - IZR FLOAT_LIMIT < x * 100 ->
  fmin (Fin 100) (fmul (Fin x) (Fin 100))
    = Fin (Scoring.py_min 100 (x * 100)).
Proof.
  intros Hlo. pose proof FLOAT_LIMIT_large as HL. cbn [fmul].
  destruct (Rlt_dec (x * 100) (IZR FLOAT_LIMIT)) as [Hhi|Hhi].
  - rewrite fin_in_range by (apply Rabs_def1; lra). apply fmin_Fin.
  - rewrite fin_positive_overflow by lra.
    now rewrite ScoringFacts.py_min_cap by lra.
Qed.

Lemma capped_negative_overflow (x : R) :
  x * 100 <= - IZR FLOAT_LIMIT ->
  fmin (Fin 100) (fmul (Fin x) (Fin 100)) = Inf true.
Proof. intros H. cbn [fmul]. now rewrite fin_negative_overflow. Qed.

Lemma capped_Inf : fmin (Fin 100) (fmul (Inf false) (Fin 100)) = Fin 100.
Proof.
  cbn [fmul]. destruct (Req_dec_T 100 0); [lra|].
  unfold negative_real. destruct (Rlt_dec 100 0); [lra | reflexivity].
Qed.

Lemma capped_NaN : fmin (Fin 100) (fmul NaN (Fin 100)) = Fin 100.
Proof. reflexivity. Qed.

(** ** Breadth and diversity: [min(100.0, (n / cap) * 100)] *)

Lemma linear_score_finite (n cap : Z) :
  (0 < cap)%Z -> (Z.abs n < FLOAT_LIMIT * cap)%Z ->
  (- (FLOAT_LIMIT * cap) < 100 * n)%Z ->
  (q ← int_truediv n cap; Return (fmin (Fin 100) (fmul q (Fin 100))))
  = Return (Fin (Scoring.py_min 100 (IZR n / IZR cap * 100))).
Proof.
  intros Hc Hn Hlo.
  rewrite int_truediv_in_range; [|lia|rewrite (Z.abs_eq cap); lia].
  rewrite bind_Return. rewrite capped_Fin; [reflexivity|].
  apply IZR_lt in Hlo, Hc. rewrite opp_IZR, !mult_IZR in Hlo.
  apply (Rmult_lt_reg_r (IZR cap)); [assumption|].
  replace (IZR n / IZR cap * 100 * IZR cap) with (100 * IZR n)
    by (field; lra).
  lra.
Qed.

Lemma linear_score_overflow (n cap : Z) :
  (0 < cap)%Z -> (FLOAT_LIMIT * cap <= Z.abs n)%Z ->
  (q ← int_truediv n cap; Return (fmin (Fin 100) (fmul q (Fin 100))))
  = Raise OverflowError.
Proof.
  intros Hc Hn.
  now rewrite int_truediv_overflow; [|lia|rewrite (Z.abs_eq cap); lia].
Qed.

Lemma linear_score_negative_overflow (n cap : Z) :
  (0 < cap)%Z -> (Z.abs n < FLOAT_LIMIT * cap)%Z ->
  (100 * n <= - (FLOAT_LIMIT * cap))%Z ->
  (q ← int_truediv n cap; Return (fmin (Fin 100) (fmul q (Fin 100))))
  = Return (Inf true).
Proof.
  intros Hc Hn Hlo.
  rewrite int_truediv_in_range; [|lia|rewrite (Z.abs_eq cap); lia].
  rewrite bind_Return. rewrite capped_negative_overflow; [reflexivity|].
  apply IZR_le in Hlo. apply IZR_lt in Hc.
  rewrite opp_IZR, !mult_IZR in Hlo.
  apply (Rmult_le_reg_r (IZR cap)); [assumption|].
  replace (IZR n / IZR cap * 100 * IZR cap) with (100 * IZR n)
    by (field; lra).
  lra.
Qed.

(** A finite value that the linear score returns is the one computed over
    the reals. *)
Lemma linear_score_Fin_inv (n cap : Z) (x : R) :
  (0 < cap)%Z ->
  (q ← int_truediv n cap; Return (fmin (Fin 100) (fmul q (Fin 100))))
  = Return (Fin x) ->
  x = Scoring.py_min 100 (IZR n / IZR cap * 100).
Proof.
  intros Hc H.
  destruct (Z_lt_le_dec (Z.abs n) (FLOAT_LIMIT * cap)) as [Hn|Hn].
  - destruct (Z_lt_le_dec (- (FLOAT_LIMIT * cap)) (100 * n)) as [Hlo|Hlo].
    + rewrite linear_score_finite in H by assumption. congruence.
    + rewrite linear_score_negative_overflow in H by assumption.
      discriminate.
  - rewrite linear_score_overflow in H by assumption. discriminate.
Qed.

(** For a non-negative count the linear score either raises or returns the
    value computed over the reals. *)
Lemma linear_score_nonneg (n cap : Z) (v : pyfloat) :
  (0 < cap)%Z -> (0 <= n)%Z ->
  (q ← int_truediv n cap; Return (fmin (Fin 100) (fmul q (Fin 100))))
  = Return v ->
  v = Fin (Scoring.py_min 100 (IZR n / IZR cap * 100)).
Proof.
  intros Hc Hn H. pose proof FLOAT_LIMIT_pos.
  destruct (Z_lt_le_dec (Z.abs n) (FLOAT_LIMIT * cap)) as [Hlt|Hge].
  - rewrite linear_score_finite in H by (assumption || nia). congruence.
  - rewrite linear_score_overflow in H by assumption. discriminate.
Qed.

(** ** Depth *)

Lemma score_depth_finite (y : R) :
  score_depth (Fin y) = Return (Fin (Scoring.score_depth y)).
Proof.
  unfold score_depth, Scoring.score_depth, fle.
  destruct (Rle_dec y 0); [reflexivity|].
  unfold fdiv. change (IZR Scoring.DEPTH_MAX) with 20.
  destruct (Req_dec_T 20 0); [lra|].
  rewrite bind_Return. pose proof FLOAT_LIMIT_large.
  destruct (Rlt_dec (y / 20) (IZR FLOAT_LIMIT)).
  - rewrite (fin_in_range (y / 20)) by (apply Rabs_def1; lra).
    now rewrite capped_Fin by lra.
  - rewrite fin_positive_overflow by lra.
    rewrite ScoringFacts.py_min_cap by lra. now rewrite capped_Inf.
Qed.

Lemma score_depth_returns (y : pyfloat) :
  exists v, score_depth y = Return (Fin v) /\ 0 <= v <= 100.
Proof.
  destruct y as [y|[|]|].
  - rewrite score_depth_finite. eexists. split; [reflexivity|].
    apply ScoringFacts.score_depth_range.
  - exists 0. split; [reflexivity | lra].
  - exists 100. split; [|lra].
    unfold score_depth, fle, fdiv. change (IZR Scoring.DEPTH_MAX) with 20.
    destruct (Req_dec_T 20 0); [lra|]. rewrite bind_Return.
    unfold negative_real. destruct (Rlt_dec 20 0); [lra|].
    cbn [xorb]. now rewrite capped_Inf.
  - exists 100. split; [|lra].
    unfold score_depth, fle, fdiv. change (IZR Scoring.DEPTH_MAX) with 20.
    destruct (Req_dec_T 20 0); [lra | reflexivity].
Qed.

(** ** Results of the sub-scores for the inputs of a metrics row *)

Lemma score_volume_returns (t : Z) (v : pyfloat) :
  score_volume t = Return v ->
  (t < FLOAT_LIMIT)%Z /\ v = Fin (Scoring.score_volume t).
Proof.
  intros H. destruct (Z_lt_le_dec t FLOAT_LIMIT) as [Hlt|Hge].
  - rewrite score_volume_finite in H by assumption. split; congruence.
  - rewrite score_volume_overflow in H by assumption. discriminate.
Qed.

Lemma score_pipeline_returns (a : Z) (v : pyfloat) :
  score_pipeline a = Return v ->
  (a < FLOAT_LIMIT)%Z /\ v = Fin (Scoring.score_pipeline a).
Proof.
  intros H. destruct (Z_lt_le_dec a FLOAT_LIMIT) as [Hlt|Hge].
  - rewrite score_pipeline_finite in H by assumption. split; congruence.
  - rewrite score_pipeline_overflow in H by assumption. discriminate.
Qed.

(** ** The composite *)

Lemma composite_of_Fin (c t v b d p y : R) :
  0 <= c <= 100 -> 0 <= t <= 100 -> 0 <= v <= 100 -> 0 <= b <= 100 ->
  0 <= d <= 100 -> 0 <= p <= 100 -> 0 <= y <= 100 ->
  composite_of (Fin c) (Fin t) (Fin v) (Fin b) (Fin d) (Fin p) (Fin y)
    = Fin (weighted_sum c t v b d p y) /\
  0 <= weighted_sum c t v b d p y <= 100.
Proof.
  intros Hc Ht Hv Hb Hd Hp Hy.
  unfold composite_of, weighted, weighted_sum, Scoring.WEIGHTS.
  cbn [fmul]. rewrite !fin_small by lra.
  repeat (cbn [fadd]; rewrite fin_small by lra).
  split; [reflexivity | lra].
Qed.


(** A NaN timeline sub-score makes the composite NaN. *)
Lemma composite_of_NaN_timeline (c v b d p y : pyfloat) :
  composite_of c NaN v b d p y = NaN.
Proof.
  unfold composite_of, weighted. now rewrite fmul_NaN_r, fadd_NaN_r.
Qed.

(** ** Inversion and evaluation of [compute_score] *)

Lemma compute_score_Return (inp : ScoringInput) (r : ScoreResult) :
  compute_score inp = Return (Some r) ->
  (5 <= operational inp + withdrawn inp)%Z /\
  exists c t v b d p y,
    score_completion_rate (operational inp) (withdrawn inp) = Return c /\
    score_timeline (avg_timeline_days inp) = Return t /\
    score_volume (total_projects inp) = Return v /\
    score_breadth (num_regions inp) = Return b /\
    score_diversity (num_fuel_types inp) = Return d /\
    score_pipeline (active_projects inp) = Return p /\
    score_depth (years_since_first inp) = Return y /\
    score r = fround (composite_of c t v b d p y) 1 /\
    completion_rate_score r = fround c 1 /\
    timeline_score r = fround t 1 /\
    volume_score r = fround v 1 /\
    breadth_score r = fround b 1 /\
    diversity_score r = fround d 1 /\
    pipeline_score r = fround p 1 /\
    depth_score r = fround y 1.
Proof.
  unfold compute_score.
  destruct (Z.ltb_spec (operational inp + withdrawn inp) 5) as [Hlt|Hge];
    [discriminate|].
  destruct (score_completion_rate _ _) as [c|e]; [|discriminate].
  destruct (score_timeline _) as [t|e]; [|discriminate].
  destruct (score_volume _) as [v|e]; [|discriminate].
  destruct (score_breadth _) as [b|e]; [|discriminate].
  destruct (score_diversity _) as [d|e]; [|discriminate].
  destruct (score_pipeline _) as [p|e]; [|discriminate].
  destruct (score_depth _) as [y|e]; [|discriminate].
  rewrite !bind_Return.
  destruct (Z.eqb_spec (operational inp + withdrawn inp) 0); [lia|].
  destruct (int_truediv _ _) as [q|e]; [|discriminate].
  rewrite !bind_Return. intros [= <-].
  split; [assumption|]. exists c, t, v, b, d, p, y.
  cbn. repeat split; reflexivity.
Qed.

Lemma compute_score_qualified (inp : ScoringInput) (c t v b d p y : pyfloat) :
  (5 <= operational inp + withdrawn inp)%Z ->
  score_completion_rate (operational inp) (withdrawn inp) = Return c ->
  score_timeline (avg_timeline_days inp) = Return t ->
  score_volume (total_projects inp) = Return v ->
  score_breadth (num_regions inp) = Return b ->
  score_diversity (num_fuel_types inp) = Return d ->
  score_pipeline (active_projects inp) = Return p ->
  score_depth (years_since_first inp) = Return y ->
  exists r,
    compute_score inp = Return (Some r) /\
    score r = fround (composite_of c t v b d p y) 1 /\
    completion_rate_score r = fround c 1 /\
    timeline_score r = fround t 1 /\
    volume_score r = fround v 1 /\
    breadth_score r = fround b 1 /\
    diversity_score r = fround d 1 /\
    pipeline_score r = fround p 1 /\
    depth_score r = fround y 1.
Proof.
  intros Hq Hc Ht Hv Hb Hd Hp Hy. unfold compute_score.
  destruct (Z.ltb_spec (operational inp + withdrawn inp) 5) as [Hlt|_];
    [lia|].
  rewrite Hc, Ht, Hv, Hb, Hd, Hp, Hy, !bind_Return.
  unfold score_completion_rate in Hc.
  destruct (Z.eqb_spec (operational inp + withdrawn inp) 0); [lia|].
  destruct (int_truediv _ _) as [q|e]; [|discriminate].
  rewrite !bind_Return. eexists. split; [reflexivity|].
  cbn. repeat split; reflexivity.
Qed.

(** The sub-scores of an input whose counts are non-negative and whose
    average duration is not NaN, when [compute_score] returns. *)
Lemma sub_scores_in_range (inp : ScoringInput) (r : ScoreResult) :
  (0 <= operational inp)%Z -> (0 <= withdrawn inp)%Z ->
  (0 <= num_regions inp)%Z -> (0 <= num_fuel_types inp)%Z ->
  avg_timeline_days inp <> Some NaN ->
  compute_score inp = Return (Some r) ->
  exists s c t v b d p y,
    0 <= s <= 100 /\ 0 <= c <= 100 /\ 0 <= t <= 100 /\ 0 <= v <= 100 /\
    0 <= b <= 100 /\ 0 <= d <= 100 /\ 0 <= p <= 100 /\ 0 <= y <= 100 /\
    s = weighted_sum c t v b d p y /\
    score r = Fin (Scoring.py_round s 1) /\
    completion_rate_score r = Fin (Scoring.py_round c 1) /\
    timeline_score r = Fin (Scoring.py_round t 1) /\
    volume_score r = Fin (Scoring.py_round v 1) /\
    breadth_score r = Fin (Scoring.py_round b 1) /\
    diversity_score r = Fin (Scoring.py_round d 1) /\
    pipeline_score r = Fin (Scoring.py_round p 1) /\
    depth_score r = Fin (Scoring.py_round y 1).
Proof.
  intros Hop Hwd Hnr Hnf Havg Hr.
  destruct (compute_score_Return _ _ Hr)
    as (_ & c & t & v & b & d & p & y & Hc & Ht & Hv & Hb & Hd & Hp & Hy
        & -> & -> & -> & -> & -> & -> & -> & ->).
  rewrite score_completion_rate_finite in Hc by assumption.
  injection Hc as <-.
  destruct (score_timeline_returns _ Havg) as (t' & Ht' & Rt).
  rewrite Ht' in Ht. injection Ht as <-.
  apply score_volume_returns in Hv as [_ ->].
  apply linear_score_nonneg in Hb as ->; [|reflexivity|assumption].
  apply linear_score_nonneg in Hd as ->; [|reflexivity|assumption].
  apply score_pipeline_returns in Hp as [_ ->].
  destruct (score_depth_returns (years_since_first inp)) as (y' & Hy' & Ry).
  rewrite Hy' in Hy. injection Hy as <-.
  pose proof (ScoringFacts.score_completion_rate_range _ _ Hop Hwd) as Rc.
  pose proof (ScoringFacts.score_volume_range (total_projects inp)) as Rv.
  pose proof (ScoringFacts.linear_score_range _ Scoring.REGIONS_MAX Hnr
                eq_refl) as Rb.
  pose proof (ScoringFacts.linear_score_range _ Scoring.FUEL_TYPES_MAX Hnf
                eq_refl) as Rd.
  pose proof (ScoringFacts.score_pipeline_range (active_projects inp)) as Rp.
  destruct (composite_of_Fin _ _ _ _ _ _ _ Rc Rt Rv Rb Rd Rp Ry) as [-> Rs].
  exists (weighted_sum
            (Scoring.score_completion_rate (operational inp) (withdrawn inp))
            t' (Scoring.score_volume (total_projects inp))
            (Scoring.score_breadth (num_regions inp))
            (Scoring.score_diversity (num_fuel_types inp))
            (Scoring.score_pipeline (active_projects inp)) y'),
    (Scoring.score_completion_rate (operational inp) (withdrawn inp)), t',
    (Scoring.score_volume (total_projects inp)),
    (Scoring.score_breadth (num_regions inp)),
    (Scoring.score_diversity (num_fuel_types inp)),
    (Scoring.score_pipeline (active_projects inp)), y'.
  cbn [fround]. tauto.
Qed.

(** ** Agreement with [Scoring] on finite inputs *)

Lemma score_breadth_finite (n : Z) :
  (0 <= n)%Z -> (n < FLOAT_LIMIT)%Z ->
  score_breadth n = Return (Fin (Scoring.score_breadth n)).
Proof.
  intros H0 H1. pose proof FLOAT_LIMIT_pos. unfold score_breadth.
  rewrite linear_score_finite; [reflexivity | reflexivity | |];
    unfold Scoring.REGIONS_MAX; lia.
Qed.

Lemma score_diversity_finite (n : Z) :
  (0 <= n)%Z -> (n < FLOAT_LIMIT)%Z ->
  score_diversity n = Return (Fin (Scoring.score_diversity n)).
Proof.
  intros H0 H1. pose proof FLOAT_LIMIT_pos. unfold score_diversity.
  rewrite linear_score_finite; [reflexivity | reflexivity | |];
    unfold Scoring.FUEL_TYPES_MAX; lia.
Qed.

(** On an input of [Scoring] whose counts are non-negative and fit a float,
    [compute_score] returns what [Scoring.compute_score] returns. *)
Lemma compute_score_of_finite (inp : Scoring.ScoringInput) :
  (0 <= Scoring.operational inp)%Z -> (0 <= Scoring.withdrawn inp)%Z ->
  (Scoring.total_projects inp < FLOAT_LIMIT)%Z ->
  (0 <= Scoring.num_regions inp < FLOAT_LIMIT)%Z ->
  (0 <= Scoring.num_fuel_types inp < FLOAT_LIMIT)%Z ->
  (Scoring.active_projects inp < FLOAT_LIMIT)%Z ->
  compute_score (of_finite inp)
    = Return (of_result <$> Scoring.compute_score inp).
Proof.
  intros Hop Hwd Htp [Hnr Hnr'] [Hnf Hnf'] Hap.
  unfold compute_score, Scoring.compute_score. cbn [of_finite operational
    withdrawn total_projects avg_timeline_days num_regions num_fuel_types
    active_projects years_since_first].
  destruct (Z.ltb_spec (Scoring.operational inp + Scoring.withdrawn inp) 5)
    as [Hlt|Hge]; [reflexivity|].
  rewrite score_completion_rate_finite by assumption.
  assert (Ht : score_timeline (Fin <$> Scoring.avg_timeline_days inp)
               = Return (Fin (Scoring.score_timeline
                                (Scoring.avg_timeline_days inp)))).
  { destruct (Scoring.avg_timeline_days inp) as [d|];
      [apply score_timeline_finite | reflexivity]. }
  rewrite Ht, score_volume_finite, score_breadth_finite,
    score_diversity_finite, score_pipeline_finite, score_depth_finite
    by assumption.
  rewrite !bind_Return.
  destruct (Z.eqb_spec (Scoring.operational inp + Scoring.withdrawn inp) 0);
    [lia|].
  pose proof FLOAT_LIMIT_pos.
  rewrite int_truediv_in_range by nia. rewrite !bind_Return.
  pose proof (ScoringFacts.score_completion_rate_range _ _ Hop Hwd) as Rc.
  pose proof (ScoringFacts.score_timeline_range
                (Scoring.avg_timeline_days inp)) as Rt.
  pose proof (ScoringFacts.score_volume_range (Scoring.total_projects inp))
    as Rv.
  assert (Rb : 0 <= Scoring.score_breadth (Scoring.num_regions inp) <= 100)
    by exact (ScoringFacts.linear_score_range _ Scoring.REGIONS_MAX Hnr
                eq_refl).
  assert (Rd : 0 <= Scoring.score_diversity (Scoring.num_fuel_types inp)
               <= 100)
    by exact (ScoringFacts.linear_score_range _ Scoring.FUEL_TYPES_MAX Hnf
                eq_refl).
  pose proof (ScoringFacts.score_pipeline_range
                (Scoring.active_projects inp)) as Rp.
  pose proof (ScoringFacts.score_depth_range
                (Scoring.years_since_first inp)) as Ry.
  destruct (composite_of_Fin _ _ _ _ _ _ _ Rc Rt Rv Rb Rd Rp Ry) as [-> _].
  unfold of_result, Scoring.composite.
  cbn [fround Scoring.score Scoring.completion_rate
       Scoring.completion_rate_score
       Scoring.out_avg_timeline_days Scoring.timeline_score
       Scoring.project_volume Scoring.volume_score Scoring.regional_breadth
       Scoring.breadth_score Scoring.tech_diversity Scoring.diversity_score
       Scoring.active_pipeline Scoring.pipeline_score
       Scoring.track_record_years Scoring.depth_score].
  destruct (Scoring.avg_timeline_days inp) as [d|]; [|reflexivity].
  cbn [fmap option_fmap option_map truthy_float].
  now destruct (Req_dec_T d 0).
Qed.

(** ** Concrete results *)

(** What [compute_score] returns for a NaN average duration. *)
Lemma nan_average_result :
  exists r : ScoreResult,
    compute_score nan_average_input = Return (Some r) /\
    score r = NaN /\ timeline_score r = NaN.
Proof.
  destruct (compute_score_qualified nan_average_input
              (Fin (Scoring.score_completion_rate 8 2)) NaN
              (Fin (Scoring.score_volume 10))
              (Fin (Scoring.score_breadth 3))
              (Fin (Scoring.score_diversity 2))
              (Fin (Scoring.score_pipeline 5))
              (Fin (Scoring.score_depth 10)))
    as (r & Hr & Hs & _ & Ht & _).
  - cbn. lia.
  - apply score_completion_rate_finite; lia.
  - apply score_timeline_NaN.
  - apply score_volume_finite. reflexivity.
  - apply score_breadth_finite; [lia | reflexivity].
  - apply score_diversity_finite; [lia | reflexivity].
  - apply score_pipeline_finite. reflexivity.
  - apply score_depth_finite.
  - exists r. rewrite Hs, Ht, composite_of_NaN_timeline. auto.
Qed.


Lemma fround_Fin_inv (a : pyfloat) (n : nat) (s : R) :
  fround a n = Fin s -> exists x, a = Fin x /\ s = Scoring.py_round x n.
Proof. destruct a; try discriminate. intros [= <-]. eauto. Qed.

(** ** Ranges *)

(** C2, as stated, fails: the counts of [nan_average_input] are
    non-negative, its average duration is NaN, and [compute_score] returns
    a result whose timeline sub-score and composite score are NaN, in no
    interval. *)
Lemma C2_counterexample_nan_average :
  ~ (forall (inp : ScoringInput) (r : ScoreResult),
       (0 <= operational inp)%Z -> (0 <= withdrawn inp)%Z ->
       (0 <= total_projects inp)%Z -> (0 <= num_regions inp)%Z ->
       (0 <= num_fuel_types inp)%Z -> (0 <= active_projects inp)%Z ->
       compute_score inp = Return (Some r) ->
       in_0_100 (score r) /\ in_0_100 (timeline_score r)).
Proof.
  intros Hclaim. destruct nan_average_result as (r & Hr & Hs & Ht).
  destruct (Hclaim nan_average_input r) as [H _];
    [cbn; lia .. | exact Hr |].
  rewrite Hs in H. exact H.
Qed.

(** C2 (amended): for an input whose six counts are non-negative and whose
    average duration is not NaN, a returned result has its composite score
    and each of its seven sub-scores in [0, 100], whatever float
    [years_since_first] is. *)
Theorem C2_scores_within_0_100_unless_nan (inp : ScoringInput)
    (r : ScoreResult) :
  (0 <= operational inp)%Z -> (0 <= withdrawn inp)%Z ->
  (0 <= total_projects inp)%Z -> (0 <= num_regions inp)%Z ->
  (0 <= num_fuel_types inp)%Z -> (0 <= active_projects inp)%Z ->
  avg_timeline_days inp <> Some NaN ->
  compute_score inp = Return (Some r) ->
  in_0_100 (score r) /\
  in_0_100 (completion_rate_score r) /\
  in_0_100 (timeline_score r) /\
  in_0_100 (volume_score r) /\
  in_0_100 (breadth_score r) /\
  in_0_100 (diversity_score r) /\
  in_0_100 (pipeline_score r) /\
  in_0_100 (depth_score r).
Proof.
  intros Hop Hwd _ Hnr Hnf _ Havg Hr.
  destruct (sub_scores_in_range _ _ Hop Hwd Hnr Hnf Havg Hr)
    as (s & c & t & v & b & d & p & y & Rs & Rc & Rt & Rv & Rb & Rd & Rp
        & Ry & _ & -> & -> & -> & -> & -> & -> & -> & ->).
  cbn [in_0_100].
  repeat split; now apply ScoringFacts.py_round1_range.
Qed.

Lemma C2_witness_scenario_A :
  exists r, compute_score (of_finite Scoring.scenario_A) = Return (Some r) /\
            in_0_100 (score r).
Proof.
  assert (H : compute_score (of_finite Scoring.scenario_A)
              = Return (of_result <$> Scoring.compute_score Scoring.scenario_A)).
  { apply compute_score_of_finite; cbn;
      first [lia | reflexivity | split; [lia | reflexivity]]. }
  eexists. split; [exact H|].
  apply (C2_scores_within_0_100_unless_nan (of_finite Scoring.scenario_A));
    [cbn; lia .. | cbn; discriminate | exact H].
Defined.

(** ** The composite and the weighted sum *)




(** ** Caps and monotonicity *)

Lemma score_volume_cap (t : Z) :
  (200 <= t)%Z -> Scoring.score_volume t = 100.
Proof.
  intros Ht. unfold Scoring.score_volume.
  destruct (Z.leb_spec t 0); [lia|].
  apply ScoringFacts.py_min_cap, ScoringFacts.log_ratio_cap;
    [unfold Scoring.VOLUME_CAP; lra | now apply IZR_le].
Qed.

Lemma score_pipeline_cap (a : Z) :
  (50 <= a)%Z -> Scoring.score_pipeline a = 100.
Proof.
  intros Ha. unfold Scoring.score_pipeline.
  destruct (Z.leb_spec a 0); [lia|].
  apply ScoringFacts.py_min_cap, ScoringFacts.log_ratio_cap;
    [unfold Scoring.PIPELINE_CAP; lra | now apply IZR_le].
Qed.

Lemma linear_score_capped (n cap : Z) :
  (0 < cap)%Z -> (cap <= n)%Z -> (n < cap * FLOAT_LIMIT)%Z ->
  (q ← int_truediv n cap; Return (fmin (Fin 100) (fmul q (Fin 100))))
  = Return (Fin 100).
Proof.
  intros Hc Hn Hlim. pose proof FLOAT_LIMIT_pos.
  rewrite linear_score_finite by (assumption || nia).
  now rewrite ScoringExtras.linear_score_above.
Qed.

Lemma huge_count : (9 * FLOAT_LIMIT <= 10 ^ 400)%Z.
Proof. now vm_compute. Qed.

(** C8, as stated, fails: [10 ** 400] projects, active projects or regions
    are above every cap, yet no sub-score is returned: [math.log1p] and the
    division by 9 raise [OverflowError], and so does [compute_score]. *)
Lemma C8_counterexample_overflow :
  (200 <= 10 ^ 400)%Z /\
  score_volume (10 ^ 400) = Raise OverflowError /\
  score_pipeline (10 ^ 400) = Raise OverflowError /\
  score_breadth (10 ^ 400) = Raise OverflowError /\
  compute_score huge_volume_input = Raise OverflowError.
Proof.
  pose proof huge_count as Hh. pose proof FLOAT_LIMIT_pos as Hl.
  split; [now vm_compute|].
  split; [apply score_volume_overflow; lia|].
  split; [apply score_pipeline_overflow; lia|].
  split.
  - unfold score_breadth. apply linear_score_overflow; [reflexivity|].
    unfold Scoring.REGIONS_MAX. lia.
  - unfold compute_score.
    cbn [huge_volume_input operational withdrawn total_projects
         avg_timeline_days].
    change (8 + 2 <? 5)%Z with false. cbv iota.
    rewrite score_completion_rate_finite by lia.
    rewrite score_timeline_finite, !bind_Return.
    now rewrite score_volume_overflow by lia.
Qed.

(** C8 (amended): below [2^1024 - 2^970], the least count that no float
    holds, the volume and pipeline sub-scores are returned, do not decrease
    with [total_projects] and [active_projects], never exceed 100, and
    equal 100 from 200 projects and from 50 active projects on; the breadth
    sub-score is 100 at nine regions and at every larger count (18 for one)
    below nine times that bound, also as returned after rounding.  From
    these bounds on the three functions raise [OverflowError]. *)
Theorem C8_caps_and_monotonicity_below_overflow :
  (forall t1 t2 : Z, (t1 <= t2)%Z -> (t2 < FLOAT_LIMIT)%Z ->
     exists x1 x2 : R,
       score_volume t1 = Return (Fin x1) /\
       score_volume t2 = Return (Fin x2) /\ x1 <= x2 <= 100) /\
  (forall a1 a2 : Z, (a1 <= a2)%Z -> (a2 < FLOAT_LIMIT)%Z ->
     exists x1 x2 : R,
       score_pipeline a1 = Return (Fin x1) /\
       score_pipeline a2 = Return (Fin x2) /\ x1 <= x2 <= 100) /\
  (forall t : Z, (200 <= t < FLOAT_LIMIT)%Z ->
     score_volume t = Return (Fin 100)) /\
  (forall a : Z, (50 <= a < FLOAT_LIMIT)%Z ->
     score_pipeline a = Return (Fin 100)) /\
  score_breadth 9 = Return (Fin 100) /\
  score_breadth 18 = Return (Fin 100) /\
  (forall n : Z, (9 <= n < 9 * FLOAT_LIMIT)%Z ->
     score_breadth n = Return (Fin 100) /\ fround (Fin 100) 1 = Fin 100) /\
  (forall t : Z, (FLOAT_LIMIT <= t)%Z ->
     score_volume t = Raise OverflowError) /\
  (forall a : Z, (FLOAT_LIMIT <= a)%Z ->
     score_pipeline a = Raise OverflowError) /\
  (forall n : Z, (9 * FLOAT_LIMIT <= n)%Z ->
     score_breadth n = Raise OverflowError).
Proof.
  pose proof FLOAT_LIMIT_pos as Hl.
  assert (Hbreadth : forall n : Z, (9 <= n < 9 * FLOAT_LIMIT)%Z ->
            score_breadth n = Return (Fin 100)).
  { intros n [Hn Hlim]. unfold score_breadth.
    now apply linear_score_capped. }
  split; [|split; [|split; [|split; [|split; [|split; [|split;
    [|split; [|split]]]]]]]].
  - intros t1 t2 Hle Hlim.
    exists (Scoring.score_volume t1), (Scoring.score_volume t2).
    rewrite !score_volume_finite by lia.
    pose proof (ScoringExtras.score_volume_mono t1 t2 Hle).
    pose proof (ScoringFacts.score_volume_range t2). tauto.
  - intros a1 a2 Hle Hlim.
    exists (Scoring.score_pipeline a1), (Scoring.score_pipeline a2).
    rewrite !score_pipeline_finite by lia.
    pose proof (ScoringExtras.score_pipeline_mono a1 a2 Hle).
    pose proof (ScoringFacts.score_pipeline_range a2). tauto.
  - intros t [Ht Hlim].
    now rewrite score_volume_finite, score_volume_cap.
  - intros a [Ha Hlim].
    now rewrite score_pipeline_finite, score_pipeline_cap.
  - apply Hbreadth. split; [lia | reflexivity].
  - apply Hbreadth. split; [lia | reflexivity].
  - intros n Hn. split; [now apply Hbreadth|].
    cbn [fround]. now rewrite ScoringFacts.py_round1_100.
  - intros t Ht. now apply score_volume_overflow.
  - intros a Ha. now apply score_pipeline_overflow.
  - intros n Hn. unfold score_breadth.
    apply linear_score_overflow; [reflexivity|].
    unfold Scoring.REGIONS_MAX. lia.
Qed.

Lemma C8_witness_caps :
  (exists x1 x2 : R,
     score_volume 10 = Return (Fin x1) /\
     score_volume 43 = Return (Fin x2) /\ x1 <= x2 <= 100) /\
  score_volume 350 = Return (Fin 100) /\
  score_pipeline 50 = Return (Fin 100) /\
  score_breadth 18 = Return (Fin 100) /\
  score_volume (10 ^ 400) = Raise OverflowError.
Proof.
  destruct C8_caps_and_monotonicity_below_overflow
    as (Hv & _ & Hvc & Hpc & _ & _ & Hb & Hvo & _).
  split; [apply Hv; [lia | reflexivity]|].
  split; [apply Hvc; split; [lia | reflexivity]|].
  split; [apply Hpc; split; [lia | reflexivity]|].
  split; [apply Hb; split; [lia | reflexivity]|].
  apply Hvo. now vm_compute.
Defined.

(** ** Breadth and diversity on every count *)

(** X3: the breadth and diversity sub-scores are [n / 9 * 100] and
    [n / 8 * 100] up to their caps of 9 regions and 8 fuel types, negative
    counts included as long as the product fits a float, and 100 from the
    cap on; a count of magnitude [9 * (2^1024 - 2^970)] (resp. 8 times) or
    more raises [OverflowError] in the division; a negative count short of
    that whose hundredfold quotient no longer fits a float gives minus
    infinity; and over the counts with a finite sub-score the sub-score
    never decreases with the count. *)
Theorem X3_breadth_diversity_curves :
  (forall n : Z, (- (9 * FLOAT_LIMIT) < 200 * n)%Z -> (n <= 9)%Z ->
     score_breadth n = Return (Fin (IZR n / 9 * 100))) /\
  (forall n : Z, (- (8 * FLOAT_LIMIT) < 200 * n)%Z -> (n <= 8)%Z ->
     score_diversity n = Return (Fin (IZR n / 8 * 100))) /\
  (forall n : Z, (9 <= n < 9 * FLOAT_LIMIT)%Z ->
     score_breadth n = Return (Fin 100)) /\
  (forall n : Z, (8 <= n < 8 * FLOAT_LIMIT)%Z ->
     score_diversity n = Return (Fin 100)) /\
  (forall n : Z, (9 * FLOAT_LIMIT <= Z.abs n)%Z ->
     score_breadth n = Raise OverflowError) /\
  (forall n : Z, (8 * FLOAT_LIMIT <= Z.abs n)%Z ->
     score_diversity n = Raise OverflowError) /\
  (forall n : Z, (- (9 * FLOAT_LIMIT) < n)%Z ->
     (50 * n <= - (9 * FLOAT_LIMIT))%Z ->
     score_breadth n = Return (Inf true)) /\
  (forall n : Z, (- (8 * FLOAT_LIMIT) < n)%Z ->
     (50 * n <= - (8 * FLOAT_LIMIT))%Z ->
     score_diversity n = Return (Inf true)) /\
  (forall (n1 n2 : Z) (x1 x2 : R), (n1 <= n2)%Z ->
     score_breadth n1 = Return (Fin x1) ->
     score_breadth n2 = Return (Fin x2) -> x1 <= x2) /\
  (forall (n1 n2 : Z) (x1 x2 : R), (n1 <= n2)%Z ->
     score_diversity n1 = Return (Fin x1) ->
     score_diversity n2 = Return (Fin x2) -> x1 <= x2).
Proof.
  pose proof FLOAT_LIMIT_pos as Hl.
  unfold score_breadth, score_diversity, Scoring.REGIONS_MAX,
    Scoring.FUEL_TYPES_MAX.
  split; [|split; [|split; [|split; [|split; [|split; [|split; [|split;
    [|split]]]]]]]].
  - intros n Hlo Hn. rewrite linear_score_finite by lia.
    now rewrite ScoringExtras.linear_score_below.
  - intros n Hlo Hn. rewrite linear_score_finite by lia.
    now rewrite ScoringExtras.linear_score_below.
  - intros n [Hn Hlim]. apply linear_score_capped; lia.
  - intros n [Hn Hlim]. apply linear_score_capped; lia.
  - intros n Hn. apply linear_score_overflow; lia.
  - intros n Hn. apply linear_score_overflow; lia.
  - intros n Hlo Hn. apply linear_score_negative_overflow; lia.
  - intros n Hlo Hn. apply linear_score_negative_overflow; lia.
  - intros n1 n2 x1 x2 Hle H1 H2.
    apply linear_score_Fin_inv in H1 as ->; [|reflexivity].
    apply linear_score_Fin_inv in H2 as ->; [|reflexivity].
    now apply ScoringExtras.linear_score_mono.
  - intros n1 n2 x1 x2 Hle H1 H2.
    apply linear_score_Fin_inv in H1 as ->; [|reflexivity].
    apply linear_score_Fin_inv in H2 as ->; [|reflexivity].
    now apply ScoringExtras.linear_score_mono.
Qed.

Lemma X3_witness_counts :
  score_breadth 4 = Return (Fin (4 / 9 * 100)) /\
  score_diversity 11 = Return (Fin 100) /\
  score_breadth (- 10 ^ 400) = Raise OverflowError /\
  score_breadth (- 10 ^ 309) = Return (Inf true).
Proof.
  destruct X3_breadth_diversity_curves
    as (Hb & _ & _ & Hd & Hbo & _ & Hbi & _).
  split; [apply (Hb 4%Z); [reflexivity | lia]|].
  split; [apply (Hd 11%Z); split; [lia | reflexivity]|].
  split; [apply (Hbo (- 10 ^ 400)%Z); now vm_compute|].
  apply (Hbi (- 10 ^ 309)%Z); now vm_compute.
Defined.

(** ** Export *)

Lemma returned_scores_rounded (inp : ScoringInput) (r : ScoreResult)
    (v : pyfloat) :
  compute_score inp = Return (Some r) ->
  v ∈ [score r; completion_rate_score r; timeline_score r; volume_score r;
       breadth_score r; diversity_score r; pipeline_score r; depth_score r] ->
  exists a : pyfloat, v = fround a 1.
Proof.
  intros Hr Hv.
  destruct (compute_score_Return _ _ Hr)
    as (_ & c & t & vo & b & d & p & y & _ & _ & _ & _ & _ & _ & _
        & Hs & Hc & Ht & Hvo & Hb & Hd & Hp & Hy).
  rewrite Hs, Hc, Ht, Hvo, Hb, Hd, Hp, Hy in Hv.
  repeat (apply elem_of_cons in Hv as [-> | Hv]; [eauto|]).
  now apply elem_of_nil in Hv.
Qed.

(** X7: the composite and the seven sub-scores of a returned result are
    each the outcome of rounding to one decimal: a multiple of 0.1 when it
    is a number, else NaN or an infinity; and the export's rounding of
    every float of a row to four decimals leaves each of them as it is,
    under whichever key it is stored. *)
Theorem X7_export_rounding_keeps_scores (inp : ScoringInput)
    (r : ScoreResult) (v : pyfloat) :
  compute_score inp = Return (Some r) ->
  v ∈ [score r; completion_rate_score r; timeline_score r; volume_score r;
       breadth_score r; diversity_score r; pipeline_score r; depth_score r] ->
  (forall x : R, v = Fin x -> exists z : Z, x = IZR z / 10) /\
  forall (d : gmap string Dashboard.value) (k : string),
    d !! k = Some (Dashboard.VFloat v) ->
    Dashboard.round_floats d !! k = Some (Dashboard.VFloat v).
Proof.
  intros Hr Hv.
  destruct (returned_scores_rounded _ _ _ Hr Hv) as [a ->]. split.
  - intros x Hx. apply fround_Fin_inv in Hx as (x' & _ & ->).
    destruct (ScoringExtras.py_round_on_grid x' 1) as [z Hz]. exists z.
    rewrite Hz. simpl. f_equal. lra.
  - intros d k Hk. unfold Dashboard.round_floats.
    rewrite lookup_fmap, Hk. simpl. do 2 f_equal.
    destruct a as [x| |]; [|reflexivity..].
    cbn [fround]. f_equal. apply (ScoringExtras.py_round_idempotent x 1 3).
Qed.

Lemma X7_witness_scenario_A :
  exists r, compute_score (of_finite Scoring.scenario_A) = Return (Some r) /\
    forall x : R, volume_score r = Fin x -> exists z : Z, x = IZR z / 10.
Proof.
  assert (H : compute_score (of_finite Scoring.scenario_A)
              = Return (of_result <$> Scoring.compute_score Scoring.scenario_A)).
  { apply compute_score_of_finite; cbn;
      first [lia | reflexivity | split; [lia | reflexivity]]. }
  eexists. split; [exact H|].
  eapply (X7_export_rounding_keeps_scores (of_finite Scoring.scenario_A));
    [exact H|].
  do 3 apply list_elem_of_further. apply list_elem_of_here.
Defined.

End PyScoringFacts.

(** * Properties of the scoring pass *)

Module PipelineFacts.

Import Scoring ScoringFacts Pipeline.
Local Open Scope R_scope.

Lemma or_zero_Some (x : Z) : or_zero (Some x) = x.
Proof. simpl. destruct (Z.eqb_spec x 0); congruence. Qed.

(** The ranges of a result for an input with non-negative counts. *)
Lemma result_ranges (inp : ScoringInput) (r : ScoreResult) :
  (0 <= operational inp)%Z -> (0 <= withdrawn inp)%Z ->
  (0 <= num_regions inp)%Z -> (0 <= num_fuel_types inp)%Z ->
  compute_score inp = Some r ->
  Forall (fun v => 0 <= v <= 100)
    [score r; completion_rate_score r; timeline_score r; volume_score r;
     breadth_score r; diversity_score r; pipeline_score r; depth_score r].
Proof.
  intros Hop Hwd Hnr Hnf Hr.
  destruct (compute_score_Some _ _ Hr)
    as (_ & -> & -> & -> & -> & -> & -> & -> & ->).
  repeat apply Forall_cons_2; try apply Forall_nil_2; apply py_round1_range.
  - now apply composite_range.
  - now apply score_completion_rate_range.
  - apply score_timeline_range.
  - apply score_volume_range.
  - now apply (linear_score_range _ REGIONS_MAX).
  - now apply (linear_score_range _ FUEL_TYPES_MAX).
  - apply score_pipeline_range.
  - apply score_depth_range.
Qed.

(** The counts of a row of [developers]. *)
Lemma developers_counts (src : list Aggregator.ProjectRecord)
    (m : Aggregator.DeveloperMetrics) :
  m ∈ Aggregator.developers src ->
  (0 <= Aggregator.operational m /\ 0 <= Aggregator.withdrawn m /\
   0 <= Aggregator.num_regions m /\ 0 <= Aggregator.num_fuel_types m /\
   Aggregator.operational m + Aggregator.withdrawn m
     <= Aggregator.total_projects m)%Z.
Proof.
  intros Hm. apply AggregatorFacts.developers_elem in Hm.
  unfold Aggregator.metrics_of in Hm.
  set (rows := Aggregator.group _ _) in Hm.
  pose proof (AggregatorFacts.status_accounting (Aggregator.name m) rows)
    as Hacc.
  destruct (AggregatorFacts.aggregate_columns (Aggregator.name m) rows)
    as (Ht & Hop & Hwd & Hac & Huc & Hsu & Hnr & _ & Hnf).
  rewrite <- Hm in Hacc, Ht, Hop, Hwd, Hac, Huc, Hsu, Hnr, Hnf.
  rewrite Hop, Hwd, Hac, Huc, Hsu in Hacc.
  rewrite Hop, Hwd, Hnr, Hnf.
  unfold Aggregator.count_filter, Aggregator.count_distinct in *.
  lia.
Qed.

(** ** From the source table to the scores *)

(** X8: for every row of [developers], whatever its two date-derived
    columns hold, the scoring loop either finds the developer unqualified,
    exactly when it has fewer than five resolved outcomes, or obtains a
    result whose composite and seven sub-scores lie in [0, 100]; a scored
    developer has at least five projects. *)
Theorem X8_pipeline_scores_in_range (src : list Aggregator.ProjectRecord)
    (m : Aggregator.DeveloperMetrics) (avg_days years : option R) :
  m ∈ Aggregator.developers src ->
  match compute_score (scoring_input (developer_row m avg_days years)) with
  | None => (Aggregator.operational m + Aggregator.withdrawn m < 5)%Z
  | Some r =>
      (5 <= Aggregator.operational m + Aggregator.withdrawn m)%Z /\
      (5 <= Aggregator.total_projects m)%Z /\
      Forall (fun v => 0 <= v <= 100)
        [score r; completion_rate_score r; timeline_score r; volume_score r;
         breadth_score r; diversity_score r; pipeline_score r; depth_score r]
  end.
Proof.
  intros Hm.
  destruct (developers_counts _ _ Hm) as (Hop & Hwd & Hnr & Hnf & Htot).
  destruct (compute_score _) as [r|] eqn:Hr.
  - destruct (compute_score_Some _ _ Hr) as (Hq & _).
    cbn [scoring_input developer_row operational withdrawn row_operational
         row_withdrawn] in Hq.
    rewrite !or_zero_Some in Hq.
    split; [assumption|]. split; [lia|].
    apply (result_ranges _ _) in Hr; [assumption| | | |];
      cbn [scoring_input developer_row operational withdrawn num_regions
           num_fuel_types row_operational row_withdrawn row_regions
           row_types];
      rewrite or_zero_Some; assumption.
  - unfold compute_score in Hr.
    cbn [scoring_input developer_row operational withdrawn row_operational
         row_withdrawn] in Hr.
    rewrite !or_zero_Some in Hr.
    destruct (Z.ltb_spec (Aggregator.operational m + Aggregator.withdrawn m)
                5); [assumption | discriminate].
Qed.

Lemma X8_witness_acme :
  match compute_score
          (scoring_input
             (developer_row (Aggregator.metrics_of Samples.acme_source "Acme")
                (Some 700) (Some 12))) with
  | None => False
  | Some r => 0 <= score r <= 100
  end.
Proof.
  assert (Hin : Aggregator.metrics_of Samples.acme_source "Acme"
                ∈ Aggregator.developers Samples.acme_source).
  { vm_compute. apply list_elem_of_here. }
  pose proof (X8_pipeline_scores_in_range Samples.acme_source _
                (Some 700) (Some 12) Hin) as H.
  destruct (compute_score _) as [r|].
  - destruct H as (_ & _ & H). now apply Forall_cons_1 in H as [H _].
  - revert H. vm_compute. discriminate.
Defined.

(** ** The loop *)

Lemma score_step_qualifies (st : list (string * ScoreResult) * Z)
    (row : DeveloperRow) :
  qualifies row ->
  exists r, compute_score (scoring_input row) = Some r /\
            score_step st row = (st.1 ++ [(row_name row, r)], (st.2 + 1)%Z).
Proof.
  intros Hq. unfold score_step.
  destruct (compute_score (scoring_input row)) as [r|] eqn:Hr; [eauto|].
  unfold compute_score in Hr. unfold qualifies in Hq.
  cbn [scoring_input operational withdrawn] in Hr.
  destruct (Z.ltb_spec (or_zero (row_operational row)
                        + or_zero (row_withdrawn row)) 5);
    [lia | discriminate].
Qed.

Lemma score_step_unqualified (st : list (string * ScoreResult) * Z)
    (row : DeveloperRow) :
  ~ qualifies row -> score_step st row = st.
Proof.
  intros Hq. unfold score_step.
  destruct (compute_score (scoring_input row)) as [r|] eqn:Hr; [|reflexivity].
  destruct (compute_score_Some _ _ Hr) as [H _]. now destruct Hq.
Qed.

(** The update, if any, that one row causes. *)
Lemma score_step_update (st : list (string * ScoreResult) * Z)
    (row : DeveloperRow) :
  score_step st row
    = match compute_score (scoring_input row) with
      | Some r => (st.1 ++ [(row_name row, r)], (st.2 + 1)%Z)
      | None => st
      end.
Proof. reflexivity. Qed.

Lemma score_all_from (rows : list DeveloperRow)
    (st : list (string * ScoreResult) * Z) :
  exists new : list (string * ScoreResult),
    fold_left score_step rows st
      = (st.1 ++ new, (st.2 + Z.of_nat (length new))%Z) /\
    new.*1 = row_name <$> filter qualifies rows /\
    Forall (fun u => exists row, row ∈ rows /\ row_name row = u.1 /\
                       qualifies row /\
                       compute_score (scoring_input row) = Some u.2) new.
Proof.
  revert st. induction rows as [|row rows IH]; intros st.
  - exists []. simpl. rewrite app_nil_r, Z.add_0_r.
    split; [now destruct st|]. split; [reflexivity | constructor].
  - simpl. rewrite filter_cons.
    destruct (decide (qualifies row)) as [Hq|Hq].
    + destruct (score_step_qualifies st row Hq) as (r & Hr & ->).
      destruct (IH (st.1 ++ [(row_name row, r)], (st.2 + 1)%Z))
        as (new & -> & Hn & Hall).
      exists ((row_name row, r) :: new). cbn [fst snd]. split; [|split].
      * rewrite <- app_assoc. simpl. f_equal. lia.
      * rewrite !fmap_cons. cbn [fst]. now rewrite Hn.
      * constructor.
        -- exists row. split; [apply list_elem_of_here | now repeat split].
        -- eapply Forall_impl; [exact Hall|].
           intros u (row' & Hin & Hrest). exists row'.
           split; [now apply list_elem_of_further | assumption].
    + rewrite (score_step_unqualified st row Hq).
      destruct (IH st) as (new & -> & Hn & Hall).
      exists new. split; [reflexivity|]. split; [assumption|].
      eapply Forall_impl; [exact Hall|].
      intros u (row' & Hin & Hrest). exists row'.
      split; [now apply list_elem_of_further | assumption].
Qed.

(** X9: the scoring loop issues one update per row with five or more
    resolved outcomes, in the order of the rows, and none for any other
    row; the [scored] counter is the number of updates; each update carries
    the result of [compute_score] on the input built from its row. *)
Theorem X9_scoring_loop (rows : list DeveloperRow) :
  (score_all rows).1.*1 = row_name <$> filter qualifies rows /\
  (score_all rows).2 = Z.of_nat (length (score_all rows).1) /\
  (score_all rows).2 = Z.of_nat (length (filter qualifies rows)) /\
  Forall (fun u => exists row, row ∈ rows /\ row_name row = u.1 /\
                     qualifies row /\
                     compute_score (scoring_input row) = Some u.2)
    (score_all rows).1.
Proof.
  unfold score_all.
  destruct (score_all_from rows ([], 0%Z)) as (new & -> & Hn & Hall).
  cbn [fst snd app].
  split; [assumption|]. split; [lia|]. split; [|assumption].
  rewrite <- (length_fmap fst new), Hn, length_fmap. lia.
Qed.

(** ** The completion-rate column *)

Lemma round_half_away_error (y : R) :
  - (1 / 2) <= IZR (round_half_away y) - y <= 1 / 2.
Proof.
  unfold round_half_away. destruct (Rle_dec 0 y).
  - pose proof (Zfloor_bound (y + 1 / 2)). lra.
  - pose proof (Zfloor_bound (- y + 1 / 2)). rewrite opp_IZR. lra.
Qed.

Lemma round_half_away_between (y : R) (b : Z) :
  0 <= y <= IZR b -> (0 <= round_half_away y <= b)%Z.
Proof.
  intros [Hlo Hhi]. unfold round_half_away.
  destruct (Rle_dec 0 y); [|lra].
  pose proof (Zfloor_bound (y + 1 / 2)) as [Fl Fu].
  split; [apply Zfloor_lub; lra|].
  assert (IZR (Zfloor (y + 1 / 2)) < IZR (b + 1)) by (rewrite plus_IZR; lra).
  apply lt_IZR in H. lia.
Qed.

Lemma sql_round4_error (x : R) :
  - (5 / 100000) <= sql_round x 4 - x <= 5 / 100000.
Proof.
  unfold sql_round. simpl.
  pose proof (round_half_away_error (x * (10 * (10 * (10 * (10 * 1)))))).
  lra.
Qed.

Lemma sql_round4_unit (x : R) : 0 <= x <= 1 -> 0 <= sql_round x 4 <= 1.
Proof.
  intros Hx. unfold sql_round.
  destruct (round_half_away_between (x * 10 ^ 4) 10000) as [Hl Hu];
    [simpl; lra|].
  apply IZR_le in Hl, Hu. simpl in *. lra.
Qed.

Lemma completion_ratio_unit (op wd : Z) :
  (0 <= op)%Z -> (0 <= wd)%Z -> (op + wd <> 0)%Z ->
  0 <= IZR op / IZR (op + wd) <= 1.
Proof.
  intros Hop Hwd Hne.
  pose proof (score_completion_rate_range _ _ Hop Hwd) as Hr.
  rewrite score_completion_rate_qualified in Hr by assumption. lra.
Qed.

Lemma compute_score_completion (inp : ScoringInput) (r : ScoreResult) :
  compute_score inp = Some r ->
  let x := IZR (operational inp) / IZR (operational inp + withdrawn inp) in
  completion_rate r = py_round x 4 /\
  completion_rate_score r = py_round (x * 100) 1.
Proof.
  unfold compute_score.
  destruct (Z.ltb_spec (operational inp + withdrawn inp) 5) as [Hlt|Hge];
    [discriminate|].
  intros [= <-].
  cbn -[py_round composite score_completion_rate score_timeline score_volume
        score_breadth score_diversity score_pipeline score_depth].
  destruct (Z.eqb_spec (operational inp + withdrawn inp) 0) as [E|E]; [lia|].
  now rewrite score_completion_rate_qualified.
Qed.

(** X10: in a row of [developers] the [completion_rate] column is NULL
    exactly when the developer has no resolved outcome; otherwise it lies
    in [0, 1], within 0.00005 of [operational / (operational + withdrawn)],
    and for a scored developer within 0.0001 of the fraction reported by
    [compute_score] and, scaled by 100, within 0.055 of the completion
    sub-score. *)
Theorem X10_completion_rate_column (src : list Aggregator.ProjectRecord)
    (m : Aggregator.DeveloperMetrics) :
  m ∈ Aggregator.developers src ->
  let op := Aggregator.operational m in
  let wd := Aggregator.withdrawn m in
  (completion_rate_column m = None <-> (op + wd = 0)%Z) /\
  forall c : R, completion_rate_column m = Some c ->
    0 <= c <= 1 /\
    Rabs (c - IZR op / IZR (op + wd)) <= 0.00005 /\
    forall (avg_days years : option R) (r : ScoreResult),
      compute_score (scoring_input (developer_row m avg_days years)) = Some r ->
      Rabs (completion_rate r - c) <= 0.0001 /\
      Rabs (completion_rate_score r - 100 * c) <= 0.055.
Proof.
  intros Hm op wd.
  destruct (developers_counts _ _ Hm) as (Hop & Hwd & _).
  fold op in Hop. fold wd in Hwd.
  unfold completion_rate_column. fold op wd.
  destruct (Z.ltb_spec 0 (op + wd)) as [Hpos|Hzero].
  - split; [split; [discriminate | lia]|].
    intros c [= <-].
    set (x := IZR op / IZR (op + wd)).
    assert (Hx : 0 <= x <= 1) by (apply completion_ratio_unit; lia).
    pose proof (sql_round4_error x) as Ec.
    split; [now apply sql_round4_unit|].
    split; [apply Rabs_le; lra|].
    intros avg_days years r Hr.
    apply compute_score_completion in Hr.
    cbn [scoring_input developer_row operational withdrawn row_operational
         row_withdrawn] in Hr.
    rewrite !or_zero_Some in Hr. fold op wd x in Hr.
    destruct Hr as [-> ->].
    pose proof (ScoringExtras.py_round4_error x) as E4.
    pose proof (py_round1_error (x * 100)) as E1.
    split; apply Rabs_le; lra.
  - split; [split; [lia | reflexivity]|]. discriminate.
Qed.

Lemma X10_witness_acme :
  completion_rate_column (Aggregator.metrics_of Samples.acme_source "Acme")
    = None <-> (5 + 1 = 0)%Z.
Proof.
  assert (Hin : Aggregator.metrics_of Samples.acme_source "Acme"
                ∈ Aggregator.developers Samples.acme_source).
  { vm_compute. apply list_elem_of_here. }
  exact (proj1 (X10_completion_rate_column Samples.acme_source _ Hin)).
Defined.

End PipelineFacts.

(** * Properties of the comma-separated lists *)

Module TextFacts.

Import Text.
Local Open Scope string_scope.
Local Open Scope list_scope.

(** *** Splitting *)

Lemma split_on_not_nil (sep : ascii) (s : string) : split_on sep s <> [].
Proof.
  destruct s as [|c s]; simpl; [discriminate|].
  destruct (Ascii.eqb c sep); [discriminate|].
  destruct (split_on sep s); discriminate.
Qed.

Lemma split_on_cons_other (sep c : ascii) (s : string) :
  Ascii.eqb c sep = false ->
  exists h t, split_on sep s = h :: t /\
              split_on sep (String c s) = String c h :: t.
Proof.
  intros Hc. simpl. rewrite Hc.
  destruct (split_on sep s) as [|h t] eqn:E.
  - now apply split_on_not_nil in E.
  - eauto.
Qed.

Lemma split_on_pieces (sep : ascii) (s : string) :
  Forall (fun x => occurs sep x = false) (split_on sep s).
Proof.
  induction s as [|c s IH]; [repeat constructor|].
  destruct (Ascii.eqb c sep) eqn:Hc.
  - simpl. rewrite Hc. now constructor.
  - destruct (split_on_cons_other sep c s Hc) as (h & t & E & ->).
    rewrite E in IH. apply Forall_cons in IH as [Hh Ht].
    constructor; [|assumption]. simpl. now rewrite Hc.
Qed.

Lemma split_on_absent (sep : ascii) (s : string) :
  occurs sep s = false -> split_on sep s = [s].
Proof.
  induction s as [|c s IH]; [reflexivity|].
  simpl. intros [Hc Hs]%orb_false_iff.
  rewrite Hc, (IH Hs). reflexivity.
Qed.

Lemma split_on_app (sep : ascii) (v s : string) :
  occurs sep v = false ->
  split_on sep (v ++ String sep s)%string = v :: split_on sep s.
Proof.
  induction v as [|c v IH]; intros Hv.
  - simpl. now rewrite Ascii.eqb_refl.
  - simpl in Hv. apply orb_false_iff in Hv as [Hc Hv].
    simpl. rewrite Hc, (IH Hv). reflexivity.
Qed.

(** *** Stripping *)

Lemma lstrip_occurs (c : ascii) (s : string) :
  occurs c s = false -> occurs c (lstrip s) = false.
Proof.
  induction s as [|d s IH]; [reflexivity|].
  intros H. simpl. destruct (is_space d); [|assumption].
  simpl in H. apply orb_false_iff in H as [_ H]. now apply IH.
Qed.

Lemma rstrip_occurs (c : ascii) (s : string) :
  occurs c s = false -> occurs c (rstrip s) = false.
Proof.
  induction s as [|d s IH]; [reflexivity|].
  simpl. intros [Hd Hs]%orb_false_iff. specialize (IH Hs).
  destruct (rstrip s) as [|e r].
  - destruct (is_space d); [reflexivity|]. simpl. now rewrite Hd.
  - simpl. rewrite Hd. exact IH.
Qed.

Lemma strip_occurs (c : ascii) (s : string) :
  occurs c s = false -> occurs c (strip s) = false.
Proof. intros H. now apply rstrip_occurs, lstrip_occurs. Qed.

Lemma rstrip_idempotent (s : string) : rstrip (rstrip s) = rstrip s.
Proof.
  induction s as [|c s IH]; [reflexivity|].
  simpl. destruct (rstrip s) as [|e r] eqn:E.
  - destruct (is_space c) eqn:Hc; [reflexivity|]. simpl. now rewrite Hc.
  - change (rstrip (String c (String e r))) with
      (match rstrip (String e r) with
       | EmptyString => if is_space c then EmptyString
                        else String c EmptyString
       | r' => String c r'
       end).
    now rewrite IH.
Qed.

(** A stripped string is empty or begins with a character that is not
    white space. *)
Lemma lstrip_head (s : string) :
  lstrip s = "" \/
  exists c t, lstrip s = String c t /\ is_space c = false.
Proof.
  induction s as [|c s IH]; [now left|].
  simpl. destruct (is_space c) eqn:Hc; [assumption|]. right. eauto.
Qed.

Lemma rstrip_head (c : ascii) (t : string) :
  is_space c = false -> exists t', rstrip (String c t) = String c t'.
Proof.
  intros Hc. simpl. rewrite Hc. destruct (rstrip t); eauto.
Qed.

Lemma strip_idempotent (s : string) : strip (strip s) = strip s.
Proof.
  unfold strip.
  destruct (lstrip_head s) as [-> | (c & t & -> & Hc)]; [reflexivity|].
  destruct (rstrip_head c t Hc) as [t' E]. rewrite E.
  replace (lstrip (String c t')) with (String c t')
    by (simpl; now rewrite Hc).
  rewrite <- E. apply rstrip_idempotent.
Qed.

Lemma truthy_true (s : string) : truthy s = true <-> s <> "".
Proof. destruct s; simpl; split; congruence. Qed.

(** ** Parsing *)

Lemma parse_csv_elem (s x : string) :
  x ∈ parse_csv s ->
  exists y, y ∈ split_on "," s /\ x = strip y /\ strip y <> "".
Proof.
  unfold parse_csv. intros (y & -> & Hy)%list_elem_of_fmap.
  apply list_elem_of_filter in Hy as [Ht Hy].
  exists y. repeat split; [assumption|]. now apply truthy_true.
Qed.

Lemma parse_csv_clean (s x : string) : x ∈ parse_csv s -> clean x.
Proof.
  intros (y & Hy & -> & Hne)%parse_csv_elem.
  split; [assumption|]. split; [|apply strip_idempotent].
  apply strip_occurs.
  pose proof (split_on_pieces "," s) as Hp.
  rewrite Forall_forall in Hp. now apply Hp.
Qed.

(** X11: every entry that the comma-separated parser returns (regions,
    fuel types and states of a developer, API keys of the settings, names to
    compare) is non-empty, contains no comma and has no white space at
    either end; the parser returns nothing for an empty string. *)
Theorem X11_parsed_entries_are_clean (s : string) :
  Forall clean (parse_csv s) /\ parse_csv "" = [].
Proof.
  split; [|reflexivity].
  apply Forall_forall. intros x. apply parse_csv_clean.
Qed.

(** *** Joining and parsing back *)

Lemma concat_cons2 (sep x y : string) (l : list string) :
  String.concat sep (x :: y :: l)
    = (x ++ sep ++ String.concat sep (y :: l))%string.
Proof. reflexivity. Qed.

Lemma split_joined (v : string) (rest : list string) :
  Forall (fun x => occurs "," x = false) (v :: rest) ->
  split_on "," (String.concat ", " (v :: rest))
    = v :: map (String " ") rest.
Proof.
  revert v. induction rest as [|w rest IH]; intros v Hall.
  - simpl. apply split_on_absent. now apply Forall_cons in Hall as [? _].
  - apply Forall_cons in Hall as [Hv Hrest].
    rewrite concat_cons2.
    change (", " ++ String.concat ", " (w :: rest))%string
      with (String "," (String " " (String.concat ", " (w :: rest)))).
    rewrite (split_on_app "," v _ Hv). f_equal.
    destruct (split_on_cons_other "," " " (String.concat ", " (w :: rest))
                eq_refl) as (h & t & E & ->).
    rewrite (IH w Hrest) in E. now injection E as <- <-.
Qed.

Lemma strip_padded (v : string) : strip (String " " v) = strip v.
Proof. reflexivity. Qed.

Lemma parse_pieces (pre : string -> string) (vs : list string) :
  (forall v, strip (pre v) = strip v) ->
  Forall clean vs ->
  map strip (filter (fun x => truthy (strip x) = true) (map pre vs)) = vs.
Proof.
  intros Hpre. induction 1 as [|v vs (Hne & _ & Hs) _ IH]; [reflexivity|].
  rewrite map_cons, filter_cons.
  rewrite decide_True by (rewrite Hpre, Hs; now apply truthy_true).
  rewrite map_cons, Hpre, Hs. now f_equal.
Qed.

Lemma parse_csv_joined (vs : list string) :
  Forall clean vs -> parse_csv (String.concat ", " vs) = vs.
Proof.
  intros Hall. destruct vs as [|v rest]; [reflexivity|].
  unfold parse_csv. rewrite split_joined.
  - apply Forall_cons in Hall as [Hv Hrest].
    rewrite filter_cons.
    destruct Hv as (Hne & _ & Hs).
    rewrite decide_True by (rewrite Hs; now apply truthy_true).
    rewrite map_cons, Hs. f_equal.
    now apply (parse_pieces (String " ")).
  - eapply Forall_impl; [exact Hall|]. now intros x (_ & Hx & _).
Qed.

(** X12: joining entries with [", "], as the aggregation stores them, and
    parsing the joined text back, as the API does, returns the same entries
    in the same order, provided each entry is non-empty, comma-free and
    without white space at its ends. *)
Theorem X12_join_parse_round_trip (vs : list string) :
  Forall clean vs -> parse_csv (String.concat ", " vs) = vs.
Proof. apply parse_csv_joined. Qed.

Lemma clean_PJM : clean "PJM".
Proof. repeat split; discriminate. Qed.

Lemma clean_MISO : clean "MISO".
Proof. repeat split; discriminate. Qed.

Lemma X12_witness_regions :
  parse_csv (String.concat ", " ["MISO"; "PJM"]) = ["MISO"; "PJM"].
Proof.
  apply X12_join_parse_round_trip.
  repeat constructor; [apply clean_MISO | apply clean_PJM].
Defined.

(** X13: when every region of a developer's projects is non-empty,
    comma-free and without white space at its ends, the region list that
    the API parses out of the [regions] column is exactly the list of the
    developer's distinct regions, and its length is [num_regions]; likewise
    for fuel types and [num_fuel_types]. *)
Theorem X13_api_lists_match_counts (src : list Aggregator.ProjectRecord)
    (m : Aggregator.DeveloperMetrics) :
  m ∈ Aggregator.developers src ->
  let rows := Aggregator.group (Aggregator.name m) (Aggregator.projects src) in
  (Forall clean (omap Aggregator.region rows) ->
   parse_csv (or_empty (Aggregator.regions m))
     = Aggregator.aggregated_values Aggregator.region rows /\
   Z.of_nat (length (parse_csv (or_empty (Aggregator.regions m))))
     = Aggregator.num_regions m) /\
  (Forall clean (omap Aggregator.type_std rows) ->
   parse_csv (or_empty (Aggregator.fuel_types m))
     = Aggregator.aggregated_values Aggregator.type_std
         (filter Aggregator.has_type rows) /\
   Z.of_nat (length (parse_csv (or_empty (Aggregator.fuel_types m))))
     = Aggregator.num_fuel_types m).
Proof.
  intros Hm rows.
  apply AggregatorFacts.developers_elem in Hm.
  unfold Aggregator.metrics_of in Hm. fold rows in Hm.
  assert (Hdecode : forall col rs,
            Forall clean (omap col rs) ->
            parse_csv (or_empty (Aggregator.string_agg_distinct col rs))
              = Aggregator.aggregated_values col rs /\
            Z.of_nat (length
              (parse_csv (or_empty (Aggregator.string_agg_distinct col rs))))
              = Aggregator.count_distinct col rs).
  { intros col rs Hclean.
    destruct (AggregatorFacts.aggregated_values_spec col rs)
      as (_ & Hset & Hcount).
    assert (Hvals : Forall clean (Aggregator.aggregated_values col rs)).
    { apply Forall_forall. intros v Hv.
      rewrite Forall_forall in Hclean. apply Hclean.
      apply (elem_of_list_to_set (C:=gset string)). rewrite <- Hset.
      now apply elem_of_list_to_set. }
    assert (E : parse_csv
                  (or_empty (Aggregator.string_agg_distinct col rs))
                = Aggregator.aggregated_values col rs).
    { unfold Aggregator.string_agg_distinct.
      destruct (Aggregator.aggregated_values col rs) as [|v vs] eqn:Ev;
        [reflexivity|].
      now apply parse_csv_joined. }
    split; [exact E|]. now rewrite E, Hcount. }
  rewrite Hm. cbn [Aggregator.aggregate Aggregator.regions
                   Aggregator.num_regions Aggregator.fuel_types
                   Aggregator.num_fuel_types].
  split; intros Hclean.
  - now apply Hdecode.
  - apply Hdecode. now rewrite AggregatorFacts.omap_type_std_filter.
Qed.

Lemma X13_witness_two_regions :
  Z.of_nat
    (length
       (parse_csv
          (or_empty
             (Aggregator.regions
                (Aggregator.metrics_of
                   [Aggregator.solar_row; Aggregator.untyped_row] "Acme")))))
    = Aggregator.num_regions
        (Aggregator.metrics_of
           [Aggregator.solar_row; Aggregator.untyped_row] "Acme").
Proof.
  assert (Hin : Aggregator.metrics_of
                  [Aggregator.solar_row; Aggregator.untyped_row] "Acme"
                ∈ Aggregator.developers
                    [Aggregator.solar_row; Aggregator.untyped_row]).
  { vm_compute. apply list_elem_of_here. }
  destruct (X13_api_lists_match_counts _ _ Hin) as [Hreg _].
  apply Hreg.
  change (Forall clean ["PJM"; "MISO"]).
  repeat constructor; [apply clean_PJM | apply clean_MISO].
Defined.

End TextFacts.

(** * Properties of the API layer *)

Module ApiFacts.

Import Text TextFacts Api.
Import Py PyFacts.
Local Open Scope string_scope.
Local Open Scope list_scope.
Local Open Scope Z_scope.

(** ** Authentication *)

(** X14: [verify_api_key] accepts a request exactly when the header is
    present and its value is one of the parsed keys of the settings, and
    returns that value; every other request is answered 401.  An accepted
    key is never empty, never contains a comma and never starts or ends
    with white space. *)
Theorem X14_api_key_accepted_iff (api_keys : string)
    (api_key : option string) :
  (forall k, verify_api_key api_keys api_key = Ok k <->
             api_key = Some k /\ k ∈ api_key_list api_keys) /\
  (forall k, verify_api_key api_keys api_key = Ok k -> clean k) /\
  ((forall k, verify_api_key api_keys api_key <> Ok k) ->
   verify_api_key api_keys api_key = HTTPException 401).
Proof.
  assert (Hiff : forall k, verify_api_key api_keys api_key = Ok k <->
                           api_key = Some k /\ k ∈ api_key_list api_keys).
  { intros k. unfold verify_api_key. destruct api_key as [h|].
    - destruct (truthy h) eqn:Ht; simpl.
      + destruct (bool_decide_reflect (h ∈ api_key_list api_keys)) as [Hin|Hout];
          simpl.
        * split; [intros [= <-]; now split | intros [[= <-] _]; reflexivity].
        * split; [discriminate | intros [[= <-] Hin]; contradiction].
      + split; [discriminate|]. intros [[= <-] Hin].
        apply parse_csv_clean in Hin as (Hne & _).
        apply truthy_true in Hne. congruence.
    - split; [discriminate | intros [? _]; discriminate]. }
  split; [exact Hiff|]. split.
  - intros k [_ Hin]%Hiff. now apply parse_csv_clean in Hin.
  - intros Hnone. unfold verify_api_key in *. destruct api_key as [h|];
      [|reflexivity].
    destruct (negb (truthy h) || negb (bool_decide (h ∈ api_key_list api_keys)));
      [reflexivity|]. now destruct (Hnone h).
Qed.

Lemma X14_witness_two_keys :
  verify_api_key "alpha, beta" (Some "beta") = Ok "beta".
Proof.
  apply (X14_api_key_accepted_iff "alpha, beta" (Some "beta")).
  split; [reflexivity|]. vm_compute. apply list_elem_of_further, list_elem_of_here.
Defined.

(** ** Comparison *)

Lemma omap_length_le {A B : Type} (f : A -> option B) (l : list A) :
  (length (omap f l) <= length l)%nat.
Proof.
  induction l as [|x l IH]; [reflexivity|].
  cbn. destruct (f x); simpl; lia.
Qed.

Lemma omap_nil_inv {A B : Type} (f : A -> option B) (l : list A) :
  omap f l = [] -> Forall (fun x => f x = None) l.
Proof.
  induction l as [|x l IH]; [constructor|].
  cbn. destruct (f x) eqn:E; [discriminate|].
  intros H. constructor; [assumption | now apply IH].
Qed.

Section Compare.
Context {Row Detail : Type}.
Variable get_developer : string -> option Row.
Variable developer_to_detail : Row -> outcome Detail.

(** The loop converts the rows found in the order asked and stops at the
    first conversion that raises. *)
Lemma compare_results_spec (name_list : list string) :
  match compare_results get_developer developer_to_detail name_list with
  | Return data =>
      developer_to_detail <$> omap get_developer name_list = Return <$> data
  | Raise e =>
      exists pre d post,
        omap get_developer name_list = pre ++ d :: post /\
        developer_to_detail d = Raise e /\
        Forall (fun d' => exists x, developer_to_detail d' = Return x) pre
  end.
Proof.
  induction name_list as [|name rest IH]; [reflexivity|].
  cbn [compare_results]. cbn [omap list_omap].
  destruct (get_developer name) as [d|]; [|exact IH].
  destruct (developer_to_detail d) as [x|e] eqn:Ed.
  - rewrite bind_Return.
    destruct (compare_results get_developer developer_to_detail rest)
      as [data|e].
    + rewrite bind_Return. cbn [fmap list_fmap]. now rewrite Ed, IH.
    + rewrite bind_Raise. destruct IH as (pre & d' & post & -> & He & Hpre).
      exists (d :: pre), d', post. split; [reflexivity|].
      split; [assumption|]. constructor; eauto.
  - rewrite bind_Raise. exists [], d, (omap get_developer rest).
    split; [reflexivity|]. split; [assumption | constructor].
Qed.

(** X15: [compare] answers 400 exactly when the parsed name list has fewer
    than two or more than ten names.  For an admissible list it converts
    the rows found in the order asked: if a conversion raises, [compare]
    raises that exception, the one of the first row that does not convert;
    otherwise it answers 404 when no name is found, and else returns the
    details of the names found, in the order asked: at least one and at
    most ten. *)
Theorem X15_compare_outcomes (names : string) :
  let name_list := parse_csv names in
  let n := Z.of_nat (length name_list) in
  let found := omap get_developer name_list in
  match compare get_developer developer_to_detail names with
  | Return (HTTPException code) =>
      (code = 400 /\ (n < 2 \/ 10 < n)) \/
      (code = 404 /\ 2 <= n <= 10 /\
       Forall (fun x => get_developer x = None) name_list)
  | Return (Ok data) =>
      2 <= n <= 10 /\
      developer_to_detail <$> found = Return <$> data /\
      1 <= Z.of_nat (length data) <= n
  | Raise e =>
      2 <= n <= 10 /\
      exists pre d post,
        found = pre ++ d :: post /\
        developer_to_detail d = Raise e /\
        Forall (fun d' => exists x, developer_to_detail d' = Return x) pre
  end.
Proof.
  intros name_list n found. unfold compare. fold name_list. fold n.
  destruct (Z.ltb_spec n 2) as [H2|H2]; [left; split; [reflexivity|lia]|].
  destruct (Z.ltb_spec 10 n) as [H10|H10]; [left; split; [reflexivity|lia]|].
  cbn [orb].
  pose proof (compare_results_spec name_list) as Hspec. fold found in Hspec.
  destruct (compare_results get_developer developer_to_detail name_list)
    as [data|e].
  - rewrite bind_Return.
    assert (Hlen : length found = length data).
    { apply (f_equal length) in Hspec. now rewrite !length_fmap in Hspec. }
    destruct data as [|x data].
    + right. split; [reflexivity|]. split; [lia|].
      destruct found eqn:E; [|discriminate].
      apply omap_nil_inv in E. exact E.
    + split; [lia|]. split; [assumption|].
      pose proof (omap_length_le get_developer name_list) as Hle.
      fold found in Hle. rewrite Hlen in Hle. cbn [length] in *. lia.
  - rewrite bind_Raise. split; [lia | exact Hspec].
Qed.

End Compare.

(** ** Pagination *)

Lemma FLOAT_LIMIT_53 : 2 ^ 53 <= FLOAT_LIMIT.
Proof. now vm_compute. Qed.

Lemma make_meta_in_range (total page per_page : Z) :
  0 <= total < 2 ^ 53 -> 0 < per_page < 2 ^ 53 ->
  make_meta total page per_page
  = Return {| total := total; page := page; per_page := per_page;
              pages := Zceil (round_binary64
                                (IZR total / IZR per_page)) |}.
Proof.
  intros Ht Hp. pose proof FLOAT_LIMIT_53. unfold make_meta.
  destruct (Z.eqb_spec per_page 0); [lia|].
  unfold int_truediv_rounded.
  destruct (Z.eqb_spec per_page 0); [lia|].
  destruct (Z.ltb_spec (Z.abs total) (FLOAT_LIMIT * Z.abs per_page));
    [reflexivity | nia].
Qed.

(** X16: [make_meta] reports no page when [per_page] is 0 (nothing is
    divided by zero).  For a total and a positive page size below [2^53]
    the page count is the least number of pages that holds [total] rows:
    [pages * per_page] reaches [total] and [(pages - 1) * per_page] does
    not.  Beyond, the quotient is rounded before its ceiling is taken:
    [make_meta(2**53 + 1, page, 1)] reports [2**53] pages, one short; and a
    quotient that no float holds raises [OverflowError]. *)
Theorem X16_page_count (total page per_page : Z) :
  (per_page = 0 ->
   exists m, make_meta total page per_page = Return m /\ pages m = 0) /\
  (0 <= total < 2 ^ 53 -> 0 < per_page < 2 ^ 53 ->
   exists m, make_meta total page per_page = Return m /\
     Api.total m = total /\ Api.page m = page /\
     Api.per_page m = per_page /\
     (pages m - 1) * per_page < total <= pages m * per_page) /\
  (exists m, make_meta (2 ^ 53 + 1) page 1 = Return m /\
     pages m = 2 ^ 53) /\
  (per_page <> 0 -> FLOAT_LIMIT * Z.abs per_page <= Z.abs total ->
   make_meta total page per_page = Raise OverflowError).
Proof.
  split; [|split; [|split]].
  - intros ->. eexists. split; reflexivity.
  - intros Ht Hp. rewrite make_meta_in_range by assumption.
    eexists. split; [reflexivity|]. cbn [Api.total Api.page Api.per_page pages].
    repeat (split; [reflexivity|]). now apply rounded_ceil_div.
  - unfold make_meta. change (1 =? 0) with false. cbv iota.
    unfold int_truediv_rounded. change (1 =? 0) with false. cbv iota.
    destruct (Z.ltb_spec (Z.abs (2 ^ 53 + 1)) (FLOAT_LIMIT * Z.abs 1))
      as [_|Hge]; [|exfalso; revert Hge; now vm_compute].
    rewrite !bind_Return. eexists. split; [reflexivity|]. cbn [pages].
    rewrite round_binary64_odd. apply Zceil_eq. lra.
  - intros Hp Hov. unfold make_meta.
    destruct (Z.eqb_spec per_page 0); [contradiction|].
    unfold int_truediv_rounded.
    destruct (Z.eqb_spec per_page 0); [contradiction|].
    destruct (Z.ltb_spec (Z.abs total) (FLOAT_LIMIT * Z.abs per_page));
      [lia | reflexivity].
Qed.

Lemma X16_witness_meta :
  exists m, make_meta 51 1 25 = Return m /\
    (pages m - 1) * 25 < 51 <= pages m * 25.
Proof.
  destruct (X16_page_count 51 1 25) as (_ & H & _).
  destruct H as (m & Hm & _ & _ & _ & Hp); [split; [lia | reflexivity] ..|].
  exists m. split; assumption.
Defined.

Lemma take_chunk {A : Type} (a b : nat) (l : list A) :
  take (a + b) l = take a l ++ take b (drop a l).
Proof.
  revert l. induction a as [|a IH]; intros l; [reflexivity|].
  destruct l as [|x l]; [now rewrite drop_nil, !take_nil|].
  simpl. now rewrite IH.
Qed.

Lemma chunks_take {A : Type} (n k : nat) (l : list A) :
  concat (map (fun i => take n (drop (i * n) l)) (seq 0 k)) = take (k * n) l.
Proof.
  induction k as [|k IH]; [reflexivity|].
  rewrite seq_S, map_app, concat_app, IH. simpl.
  rewrite app_nil_r, (Nat.add_comm n (k * n)). symmetry. apply take_chunk.
Qed.

Lemma page_rows_nat {A : Type} (per_page : Z) (i : nat) (rows : list A) :
  0 < per_page ->
  page_rows per_page (Z.of_nat i + 1) rows
    = take (Z.to_nat per_page) (drop (i * Z.to_nat per_page) rows).
Proof.
  intros Hpp. unfold page_rows, limit_offset, page_offset. do 2 f_equal. lia.
Qed.

Lemma page_rows_length {A : Type} (per_page page : Z) (rows : list A) :
  0 < per_page -> 1 <= page ->
  Z.of_nat (length (page_rows per_page page rows))
    = Z.min per_page
        (Z.max 0 (Z.of_nat (length rows) - (page - 1) * per_page)).
Proof.
  intros Hpp Hp. unfold page_rows, limit_offset, page_offset.
  rewrite length_take, length_drop.
  assert (Ho : 0 <= (page - 1) * per_page) by nia.
  revert Ho. generalize ((page - 1) * per_page). intros o Ho. lia.
Qed.

(** X17: for a positive page size and a row count that are both below
    [2^53], the pages 1 to [pages] reported by [make_meta], fetched with
    the limit and offset of the queries, are each non-empty and at most
    [per_page] long, and put one after the other they are the whole
    ordered result, every row once; any later page is empty. *)
Theorem X17_pages_cover_result {A : Type} (rows : list A) (per_page : Z) :
  0 < per_page < 2 ^ 53 -> Z.of_nat (length rows) < 2 ^ 53 ->
  exists m, make_meta (Z.of_nat (length rows)) 1 per_page = Return m /\
    let last := pages m in
    concat ((fun p => page_rows per_page p rows) <$> seqZ 1 last) = rows /\
    (forall p, 1 <= p <= last ->
       0 < Z.of_nat (length (page_rows per_page p rows)) <= per_page) /\
    (forall p, last < p -> page_rows per_page p rows = []).
Proof.
  intros [Hpp Hpp'] Hrows.
  rewrite make_meta_in_range by lia. eexists. split; [reflexivity|].
  intros last.
  assert (Hb : (last - 1) * per_page < Z.of_nat (length rows)
               <= last * per_page).
  { subst last. cbn [pages]. apply rounded_ceil_div; lia. }
  clearbody last.
  assert (Hlast : 0 <= last) by nia.
  split; [|split].
  - unfold seqZ. rewrite <- list_fmap_compose.
    rewrite (list_fmap_ext _
               (fun i => take (Z.to_nat per_page)
                           (drop (i * Z.to_nat per_page) rows)) (seq 0 _)).
    + change (concat (map (fun i => take (Z.to_nat per_page)
                 (drop (i * Z.to_nat per_page) rows))
                 (seq 0 (Z.to_nat last))) = rows).
      rewrite chunks_take. apply take_ge. nia.
    + intros i x _. simpl. now apply page_rows_nat.
  - intros p Hp. rewrite page_rows_length by lia. nia.
  - intros p Hp. apply nil_length_inv.
    apply Nat2Z.inj. rewrite page_rows_length by lia. nia.
Qed.

Lemma X17_witness_five_rows :
  exists m, make_meta 5 1 2 = Return m /\
    concat ((fun p => page_rows 2 p [10; 20; 30; 40; 50])
              <$> seqZ 1 (pages m))
      = [10; 20; 30; 40; 50].
Proof.
  destruct (X17_pages_cover_result [10; 20; 30; 40; 50] 2)
    as (m & Hm & Hc & _); [split; [lia | reflexivity] | reflexivity |].
  exists m. split; assumption.
Defined.

(** ** Rankings *)

(** X18: for a page number of at least 1 and a positive page size, the
    [rank] of the entry at index [i] of a rankings page is
    [(page - 1) * per_page + i + 1], it is at most the reported total, and
    the entry carries the columns of the row at that position (counted
    from 1) of the whole ordered ranking, a NULL completion rate being
    reported as 0. *)
Theorem X18_rank_is_position (table : string -> list RankingRow)
    (sort_by : string) (page per_page : Z) (i : nat) (e : RankingEntry) :
  1 <= page -> 0 < per_page ->
  (get_rankings table sort_by page per_page).1 !! i = Some e ->
  rank e = (page - 1) * per_page + Z.of_nat i + 1 /\
  1 <= rank e <= (get_rankings table sort_by page per_page).2 /\
  Z.of_nat i < per_page /\
  exists r : RankingRow,
    table (rankings_order sort_by) !! Z.to_nat (rank e - 1) = Some r /\
    name e = rr_name r /\ parent_company e = rr_parent_company r /\
    score e = rr_score r /\ total_projects e = rr_total_projects r /\
    operational e = rr_operational r /\
    completion_rate e = Pipeline.or_zero_float (rr_completion_rate r).
Proof.
  intros Hp Hpp. unfold get_rankings. cbn [fst snd].
  intros (r & Hr & ->)%list_lookup_imap_Some.
  unfold limit_offset, page_offset in Hr.
  apply lookup_take_Some in Hr as [Hr Hi].
  rewrite lookup_drop in Hr.
  assert (Ho : 0 <= (page - 1) * per_page) by nia.
  cbn [rank name parent_company score total_projects operational
       completion_rate].
  unfold page_offset.
  pose proof (lookup_lt_Some _ _ _ Hr) as Hlen.
  split; [reflexivity|]. split; [lia|]. split; [lia|].
  exists r. split; [|repeat split].
  rewrite <- Hr. f_equal. lia.
Qed.

Lemma X18_witness_second_page :
  exists e, (get_rankings Samples.ranking_table "score" 2 2).1 !! 1%nat
            = Some e /\ rank e = 4.
Proof.
  eexists. split; [reflexivity|].
  eapply (X18_rank_is_position Samples.ranking_table "score" 2 2 1);
    [lia | lia | reflexivity].
Defined.

(** ** Sort keys *)

Lemma sort_map_get_whitelist (l : list (string * string)) (d k : string) :
  default d ((list_to_map l : gmap string string) !! k) ∈ d :: l.*2.
Proof.
  destruct (_ !! k) as [v|] eqn:E; simpl; [|apply list_elem_of_here].
  apply elem_of_list_to_map_2 in E.
  apply list_elem_of_further, list_elem_of_fmap. now exists (k, v).
Qed.

Lemma sort_map_get_missing (l : list (string * string)) (d k : string) :
  k ∉ l.*1 -> default d ((list_to_map l : gmap string string) !! k) = d.
Proof.
  intros Hk. rewrite (not_elem_of_list_to_map_1 _ _ Hk). reflexivity.
Qed.

(** X19: whatever text is passed as [sort_by], the ORDER BY clause of the
    developer list is one of its five fixed clauses and that of the rankings
    one of its four; a key that is not in the respective table sorts by
    score, so [name], a key of the developer list only, sorts the rankings
    by score. *)
Theorem X19_order_clause_is_fixed (sort_by : string) :
  developers_order sort_by
    ∈ ["d.score DESC NULLS LAST"; "d.name ASC"; "d.total_projects DESC";
       "d.operational DESC"; "d.completion_rate DESC NULLS LAST"] /\
  rankings_order sort_by
    ∈ ["score DESC"; "completion_rate DESC"; "total_projects DESC";
       "operational DESC"] /\
  (sort_by ∉ ["score"; "name"; "total_projects"; "operational";
              "completion_rate"] ->
   developers_order sort_by = "d.score DESC NULLS LAST") /\
  (sort_by ∉ ["score"; "completion_rate"; "total_projects"; "operational"] ->
   rankings_order sort_by = "score DESC") /\
  developers_order "name" = "d.name ASC" /\
  rankings_order "name" = "score DESC".
Proof.
  assert (Hd : developers_sort_map !!! "score" = "d.score DESC NULLS LAST")
    by (vm_compute; reflexivity).
  unfold developers_order, rankings_order. rewrite Hd.
  unfold developers_sort_map, rankings_sort_map.
  split; [|split; [|split; [|split; [|split]]]].
  - pose proof (sort_map_get_whitelist
        [("score", "d.score DESC NULLS LAST"); ("name", "d.name ASC");
         ("total_projects", "d.total_projects DESC");
         ("operational", "d.operational DESC");
         ("completion_rate", "d.completion_rate DESC NULLS LAST")]
        "d.score DESC NULLS LAST" sort_by) as H.
    cbn [fmap list_fmap snd] in H.
    apply elem_of_cons in H as [-> | H]; [apply list_elem_of_here | exact H].
  - pose proof (sort_map_get_whitelist
        [("score", "score DESC"); ("completion_rate", "completion_rate DESC");
         ("total_projects", "total_projects DESC");
         ("operational", "operational DESC")]
        "score DESC" sort_by) as H.
    cbn [fmap list_fmap snd] in H.
    apply elem_of_cons in H as [-> | H]; [apply list_elem_of_here | exact H].
  - intros Hk. apply sort_map_get_missing. exact Hk.
  - intros Hk. apply sort_map_get_missing. exact Hk.
  - vm_compute. reflexivity.
  - vm_compute. reflexivity.
Qed.

Lemma X19_witness_unknown_key :
  developers_order "score; DROP TABLE developers" = "d.score DESC NULLS LAST".
Proof.
  apply (X19_order_clause_is_fixed "score; DROP TABLE developers").
  intros H. repeat (apply elem_of_cons in H as [H | H]; [discriminate|]).
  now apply elem_of_nil in H.
Defined.

(** ** Filters *)

Lemma given_cases (v : option string) :
  given v = false \/ exists c t, v = Some (String c t) /\ given v = true.
Proof. destruct v as [[|c t]|]; [now left | right; eauto | now left]. Qed.

(** X20: the filter builder of [query_developers] always produces as many
    bound parameters as there are [?] placeholders in the WHERE clause and
    in the count query; the clause text is fixed by which of the three
    filters are given (non-empty), never by their content, so two requests
    giving the same filters with other texts run the same SQL; the page
    query binds two more parameters, the page size and the offset. *)
Theorem X20_filters_bind_every_placeholder
    (search region fuel_type : option string) (min_projects : Z) :
  let '(conds, params) :=
    developers_filters search region fuel_type min_projects in
  length conds = length params /\
  count_char "?" (where_clause conds) = length params /\
  count_char "?" (count_sql conds) = length params /\
  (forall page per_page,
     length (page_params params page per_page) = (length params + 2)%nat) /\
  forall (search' region' fuel_type' : option string) (min_projects' : Z),
    given search' = given search -> given region' = given region ->
    given fuel_type' = given fuel_type ->
    (developers_filters search' region' fuel_type' min_projects').1 = conds.
Proof.
  unfold developers_filters.
  destruct (given_cases search) as [Hs | (cs & ts & -> & Hs)];
    destruct (given_cases region) as [Hr | (cr & tr & -> & Hr)];
    destruct (given_cases fuel_type) as [Hf | (cf & tf & -> & Hf)];
    rewrite ?Hs, ?Hr, ?Hf; cbn [given or_empty truthy app];
    (split; [reflexivity|]); (split; [reflexivity|]);
    (split; [reflexivity|]); (split; [reflexivity|]);
    intros s' r' f' m' -> -> ->; reflexivity.
Qed.

Lemma X20_witness_two_filters :
  (developers_filters (Some "wind") None (Some "x' OR 1=1") 3).1
    = (developers_filters (Some "solar") None (Some "gas") 1).1.
Proof.
  pose proof (X20_filters_bind_every_placeholder
                (Some "solar") None (Some "gas") 1) as H.
  destruct (developers_filters (Some "solar") None (Some "gas") 1)
    as [conds params] eqn:E.
  destruct H as (_ & _ & _ & _ & H).
  now apply H.
Defined.

(** ** Score bands *)

(** X21: the score returned for an input whose counts are non-negative and
    whose average duration is not NaN is a multiple of 0.1 in [0, 100] and
    falls into the band that its label names: [poor_0_19] up to 19.9,
    [below_avg_20_39] from 20 to 39.9, [average_40_59] from 40 to 59.9,
    [good_60_79] from 60 to 79.9 and [excellent_80_100] from 80 to 100. *)
Theorem X21_score_bands (inp : PyScoring.ScoringInput)
    (r : PyScoring.ScoreResult) :
  (0 <= PyScoring.operational inp) -> (0 <= PyScoring.withdrawn inp) ->
  (0 <= PyScoring.num_regions inp) -> (0 <= PyScoring.num_fuel_types inp) ->
  PyScoring.avg_timeline_days inp <> Some NaN ->
  PyScoring.compute_score inp = Return (Some r) ->
  exists s : R,
    PyScoring.score r = Fin s /\
    ((score_bucket s = "poor_0_19" /\ (0 <= s <= 19.9)%R) \/
     (score_bucket s = "below_avg_20_39" /\ (20 <= s <= 39.9)%R) \/
     (score_bucket s = "average_40_59" /\ (40 <= s <= 59.9)%R) \/
     (score_bucket s = "good_60_79" /\ (60 <= s <= 79.9)%R) \/
     (score_bucket s = "excellent_80_100" /\ (80 <= s <= 100)%R)).
Proof.
  intros Hop Hwd Hnr Hnf Havg Hr.
  destruct (PyScoringFacts.sub_scores_in_range _ _ Hop Hwd Hnr Hnf Havg Hr)
    as (x & _ & _ & _ & _ & _ & _ & _ & Rx & _ & _ & _ & _ & _ & _ & _ & _
        & Hs & _).
  exists (Scoring.py_round x 1). split; [assumption|].
  pose proof (ScoringFacts.py_round1_range _ Rx) as Hrng.
  destruct (ScoringExtras.py_round_on_grid x 1) as [z Hz].
  set (s := Scoring.py_round x 1) in *. clearbody s.
  assert (Hz' : s = (IZR z / 10)%R) by (rewrite Hz; simpl; f_equal; lra).
  assert (Hgrid : forall k m : Z, m = 10 * k - 1 ->
            (s < IZR k)%R -> (s <= IZR m / 10)%R).
  { intros k m -> Hk.
    assert (IZR z < IZR (10 * k))%R by (rewrite mult_IZR; lra).
    apply lt_IZR in H.
    assert (IZR z <= IZR (10 * k - 1))%R by (apply IZR_le; lia). lra. }
  unfold score_bucket.
  destruct (Rle_dec 80 s); [do 4 right; split; [reflexivity | lra]|].
  destruct (Rle_dec 60 s).
  { do 3 right. left. split; [reflexivity|].
    pose proof (Hgrid 80 799 eq_refl ltac:(lra)) as H. lra. }
  destruct (Rle_dec 40 s).
  { do 2 right. left. split; [reflexivity|].
    pose proof (Hgrid 60 599 eq_refl ltac:(lra)) as H. lra. }
  destruct (Rle_dec 20 s).
  { right. left. split; [reflexivity|].
    pose proof (Hgrid 40 399 eq_refl ltac:(lra)) as H. lra. }
  left. split; [reflexivity|].
  pose proof (Hgrid 20 199 eq_refl ltac:(lra)) as H. lra.
Qed.

Lemma X21_witness_scenario_A :
  exists r s,
    PyScoring.compute_score (PyScoring.of_finite Scoring.scenario_A)
      = Return (Some r) /\
    PyScoring.score r = Fin s /\ (0 <= s <= 100)%R.
Proof.
  assert (H : PyScoring.compute_score (PyScoring.of_finite Scoring.scenario_A)
              = Return (PyScoring.of_result
                          <$> Scoring.compute_score Scoring.scenario_A)).
  { apply PyScoringFacts.compute_score_of_finite; cbn;
      first [lia | reflexivity | split; [lia | reflexivity]]. }
  destruct (X21_score_bands (PyScoring.of_finite Scoring.scenario_A) _
              ltac:(cbn; lia) ltac:(cbn; lia) ltac:(cbn; lia) ltac:(cbn; lia)
              ltac:(cbn; discriminate) H) as (s & Hs & Hband).
  eexists _, s. split; [exact H|]. split; [exact Hs|].
  destruct Hband as [[_ Hb]|[[_ Hb]|[[_ Hb]|[[_ Hb]|[_ Hb]]]]]; lra.
Defined.

End ApiFacts.

(** * Further properties of the aggregation *)

Module AggregatorExtras.

Import Aggregator AggregatorFacts TextOrder.
Local Open Scope string_scope.
Local Open Scope list_scope.
Local Open Scope Z_scope.

(** *** The text order is a total order *)

Lemma ascii_compare_refl (a : ascii) : Ascii.compare a a = Eq.
Proof. unfold Ascii.compare. apply N.compare_refl. Qed.

Lemma ascii_compare_lt_trans (a b c : ascii) :
  Ascii.compare a b = Lt -> Ascii.compare b c = Lt -> Ascii.compare a c = Lt.
Proof.
  unfold Ascii.compare. rewrite !N.compare_lt_iff. apply N.lt_trans.
Qed.

Lemma string_compare_trans (s1 s2 s3 : string) :
  String.compare s1 s2 <> Gt -> String.compare s2 s3 <> Gt ->
  String.compare s1 s3 <> Gt.
Proof.
  revert s2 s3. induction s1 as [|c1 s1 IH]; intros [|c2 s2] [|c3 s3];
    simpl; try congruence.
  destruct (Ascii.compare c1 c2) eqn:E12; try congruence;
    destruct (Ascii.compare c2 c3) eqn:E23; try congruence.
  - apply Ascii.compare_eq_iff in E12, E23. subst.
    rewrite ascii_compare_refl. apply IH.
  - apply Ascii.compare_eq_iff in E12. subst. now rewrite E23.
  - apply Ascii.compare_eq_iff in E23. subst. now rewrite E12.
  - now rewrite (ascii_compare_lt_trans _ _ _ E12 E23).
Qed.

Lemma string_le_compare (a b : string) :
  string_le a b <-> String.compare a b <> Gt.
Proof.
  unfold string_le, String.leb. destruct (String.compare a b); split;
    congruence.
Qed.

Lemma string_le_trans : Transitive string_le.
Proof.
  intros a b c. rewrite !string_le_compare. apply string_compare_trans.
Qed.

Lemma string_le_antisym : AntiSymm (=) string_le.
Proof. intros a b Hab Hba. now apply String.leb_antisym. Qed.

Lemma string_le_total (a b : string) : string_le a b \/ string_le b a.
Proof. apply String.leb_total. Qed.

(** *** [ORDER BY] sorts *)

Lemma insert_sorted_Sorted (x : string) (l : list string) :
  Sorted string_le l -> Sorted string_le (insert_sorted x l).
Proof.
  induction 1 as [|y l Hl IH Hhd]; simpl; [repeat constructor|].
  destruct (String.leb x y) eqn:E.
  - constructor; [now constructor|]. now constructor.
  - constructor; [exact IH|].
    assert (Hyx : string_le y x).
    { destruct (string_le_total x y) as [H|H]; [|exact H].
      unfold string_le in H. congruence. }
    destruct Hhd as [|z l Hyz]; simpl; [now constructor|].
    destruct (String.leb x z); now constructor.
Qed.

Lemma order_by_Sorted (l : list string) : Sorted string_le (order_by l).
Proof.
  induction l as [|x l IH]; [constructor|].
  now apply insert_sorted_Sorted.
Qed.

Lemma order_by_canonical (l1 l2 : list string) :
  l1 ≡ₚ l2 -> order_by l1 = order_by l2.
Proof.
  intros Hp.
  apply (@Sorted_unique _ string_le string_le_trans string_le_antisym);
    try apply order_by_Sorted.
  now rewrite !order_by_perm.
Qed.

Lemma remove_dups_perm (l1 l2 : list string) :
  l1 ≡ₚ l2 -> remove_dups l1 ≡ₚ remove_dups l2.
Proof.
  intros Hp. apply NoDup_Permutation; try apply NoDup_remove_dups.
  intros x. now rewrite !elem_of_remove_dups, Hp.
Qed.

(** *** Aggregates of permuted rows *)

Lemma count_filter_perm (P : ProjectRecord -> Prop)
    `{!forall r, Decision (P r)} (l1 l2 : list ProjectRecord) :
  l1 ≡ₚ l2 -> count_filter P l1 = count_filter P l2.
Proof. intros Hp. unfold count_filter. now rewrite Hp. Qed.

Lemma distinct_values_perm (col : ProjectRecord -> option string)
    (l1 l2 : list ProjectRecord) :
  l1 ≡ₚ l2 -> distinct_values col l1 ≡ₚ distinct_values col l2.
Proof.
  intros Hp. unfold distinct_values. apply remove_dups_perm. now rewrite Hp.
Qed.

Lemma aggregate_perm (dev : string) (l1 l2 : list ProjectRecord) :
  l1 ≡ₚ l2 -> aggregate dev l1 = aggregate dev l2.
Proof.
  intros Hp. unfold aggregate.
  assert (Hf : filter has_type l1 ≡ₚ filter has_type l2) by now rewrite Hp.
  unfold string_agg_distinct, aggregated_values, count_distinct, count_star.
  rewrite (order_by_canonical _ _ (distinct_values_perm region _ _ Hp)).
  rewrite (order_by_canonical _ _ (distinct_values_perm type_std _ _ Hf)).
  rewrite (Permutation_length (distinct_values_perm region _ _ Hp)).
  rewrite (Permutation_length (distinct_values_perm type_std _ _ Hf)).
  rewrite (Permutation_length Hp).
  rewrite !(count_filter_perm _ l1 l2 Hp).
  reflexivity.
Qed.

(** X22: the counts and texts of [DeveloperMetrics] (the name, the total
    and the five status counts, the two distinct counts and the joined
    region and fuel-type texts) do not depend on the order of the source
    rows: for two source tables holding the same rows in another order,
    every developer gets the same values in these eleven columns, and the
    two [developers] tables hold the same rows as far as these columns go.
    The columns of the query that [DeveloperMetrics] leaves out (the
    capacity sums and averages over floats, the dates, the states) are not
    covered. *)
Theorem X22_aggregation_ignores_row_order (src1 src2 : list ProjectRecord) :
  src1 ≡ₚ src2 ->
  (forall dev, metrics_of src1 dev = metrics_of src2 dev) /\
  developers src1 ≡ₚ developers src2.
Proof.
  intros Hp.
  assert (Hm : forall dev, metrics_of src1 dev = metrics_of src2 dev).
  { intros dev. unfold metrics_of. apply aggregate_perm.
    unfold group, projects. now rewrite Hp. }
  split; [exact Hm|].
  unfold developers.
  rewrite (list_fmap_ext (metrics_of src1) (metrics_of src2) _)
    by (intros; apply Hm).
  apply fmap_Permutation, distinct_values_perm.
  unfold projects. now rewrite Hp.
Qed.

Lemma X22_witness_swapped_rows :
  metrics_of [untyped_row; solar_row] "Acme"
    = metrics_of [solar_row; untyped_row] "Acme".
Proof.
  apply (X22_aggregation_ignores_row_order [untyped_row; solar_row]
           [solar_row; untyped_row]).
  apply Permutation_swap.
Defined.

(** *** Groups partition the attributed rows *)

Lemma projects_has_developer (src : list ProjectRecord) (r : ProjectRecord) :
  r ∈ projects src <-> r ∈ src /\ has_developer r.
Proof. unfold projects. rewrite list_elem_of_filter. tauto. Qed.

Lemma developer_names (src : list ProjectRecord) (dev : string) :
  dev ∈ distinct_values developer_canonical (projects src) <->
  exists r, r ∈ projects src /\ developer_canonical r = Some dev.
Proof.
  unfold distinct_values. now rewrite elem_of_remove_dups, list_elem_of_omap.
Qed.

Lemma developers_names (src : list ProjectRecord) :
  name <$> developers src
    = distinct_values developer_canonical (projects src).
Proof.
  unfold developers.
  induction (distinct_values developer_canonical (projects src))
    as [|k ks IH]; [reflexivity|].
  rewrite !fmap_cons. now f_equal.
Qed.

Lemma indicator_sum (ks : list string) (a : option string) :
  NoDup ks -> (exists k, k ∈ ks /\ a = Some k) ->
  foldr (fun k acc => (if decide (a = Some k) then 1 else 0) + acc)%nat
    0%nat ks = 1%nat.
Proof.
  induction 1 as [|k ks Hk Hnd IH]; intros (k0 & Hin & ->).
  - now apply elem_of_nil in Hin.
  - simpl. destruct (decide (Some k0 = Some k)) as [[= ->]|Hne].
    + f_equal. clear IH Hin Hnd.
      induction ks as [|k' ks IH]; [reflexivity|]. simpl.
      apply not_elem_of_cons in Hk as [Hne Hk].
      rewrite decide_False by congruence. now apply IH.
    + apply elem_of_cons in Hin as [-> | Hin]; [congruence|].
      simpl. apply IH. eauto.
Qed.

Lemma group_sizes (ks : list string) (l : list ProjectRecord) :
  NoDup ks ->
  (forall r, r ∈ l -> exists k, k ∈ ks /\ developer_canonical r = Some k) ->
  foldr (fun k acc => length (group k l) + acc)%nat 0%nat ks = length l.
Proof.
  intros Hnd. induction l as [|r l IH]; intros Hkeys.
  - clear. induction ks as [|k ks IH]; [reflexivity|]. simpl. exact IH.
  - assert (Hsplit :
      foldr (fun k acc => length (group k (r :: l)) + acc)%nat 0%nat ks
      = (foldr (fun k acc =>
                  (if decide (developer_canonical r = Some k) then 1 else 0)
                  + acc)%nat 0%nat ks
         + foldr (fun k acc => length (group k l) + acc)%nat 0%nat ks)%nat).
    { clear. induction ks as [|k ks IH]; [reflexivity|].
      simpl. rewrite IH. unfold group at 1. rewrite filter_cons.
      fold (group k l).
      destruct (decide (developer_canonical r = Some k)); simpl; lia. }
    rewrite Hsplit, IH, indicator_sum; [reflexivity | assumption | |].
    + apply Hkeys, list_elem_of_here.
    + intros r' Hr'. apply Hkeys. now apply list_elem_of_further.
Qed.

Lemma total_projects_sum (src : list ProjectRecord) (ks : list string) :
  foldr Z.add 0 (total_projects <$> (metrics_of src <$> ks))
    = Z.of_nat
        (foldr (fun k acc => length (group k (projects src)) + acc)%nat
           0%nat ks).
Proof.
  induction ks as [|k ks IH]; [reflexivity|].
  rewrite !fmap_cons. cbn [foldr]. rewrite IH.
  destruct (aggregate_columns k (group k (projects src))) as (Ht & _).
  unfold metrics_of at 1. rewrite Ht. unfold count_star. lia.
Qed.

(** X23: the [developers] table has exactly one row per distinct developer
    name of the attributed projects, none for the empty name; every row
    counts at least one project; the [total_projects] of all rows add up to
    the number of source rows that carry a developer, so each such row is
    counted once and only once; and a source row without a developer (NULL
    or empty) leaves the table as it is. *)
Theorem X23_attributed_rows_counted_once (src : list ProjectRecord) :
  NoDup (name <$> developers src) /\
  (forall dev, dev ∈ name <$> developers src <->
     exists r, r ∈ src /\ developer_canonical r = Some dev /\ dev <> "") /\
  (forall m, m ∈ developers src -> 1 <= total_projects m) /\
  foldr Z.add 0 (total_projects <$> developers src)
    = Z.of_nat (length (projects src)) /\
  (forall src1 src2 r, src = src1 ++ r :: src2 -> ~ has_developer r ->
     developers src = developers (src1 ++ src2)).
Proof.
  split; [|split; [|split; [|split]]].
  - rewrite developers_names. apply NoDup_remove_dups.
  - intros dev. rewrite developers_names, developer_names. split.
    + intros (r & [Hr Hd]%projects_has_developer & E).
      exists r. repeat split; try assumption.
      apply has_developer_iff in Hd as (s' & Hs' & Hne). congruence.
    + intros (r & Hr & E & Hne). exists r. split; [|assumption].
      apply projects_has_developer. split; [assumption|].
      apply has_developer_iff. eauto.
  - intros m Hm.
    assert (Hn : name m ∈ name <$> developers src)
      by (apply list_elem_of_fmap; eauto).
    rewrite developers_names, developer_names in Hn.
    destruct Hn as (r & Hr & E).
    rewrite (developers_elem _ _ Hm). unfold metrics_of.
    destruct (aggregate_columns (name m) (group (name m) (projects src)))
      as (-> & _).
    assert (Hg : r ∈ group (name m) (projects src))
      by (apply list_elem_of_filter; now split).
    unfold count_star. destruct (group (name m) (projects src));
      [now apply elem_of_nil in Hg | simpl; lia].
  - unfold developers. rewrite total_projects_sum. f_equal.
    apply group_sizes; [apply NoDup_remove_dups|].
    intros r Hr.
    destruct (proj1 (projects_has_developer src r) Hr) as [_ Hd].
    apply has_developer_iff in Hd as (dev & E & _).
    exists dev. split; [|assumption]. apply developer_names. eauto.
  - intros src1 src2 r -> Hr.
    assert (E : projects (src1 ++ r :: src2) = projects (src1 ++ src2)).
    { unfold projects. rewrite !filter_app, filter_cons.
      now rewrite decide_False. }
    unfold developers, metrics_of. now rewrite E.
Qed.

Lemma X23_witness_orphan_row :
  developers ([solar_row] ++ Samples.orphan_row :: [untyped_row])
    = developers ([solar_row] ++ [untyped_row]).
Proof.
  destruct (X23_attributed_rows_counted_once
              ([solar_row] ++ Samples.orphan_row :: [untyped_row]))
    as (_ & _ & _ & _ & H).
  apply (H [solar_row] [untyped_row] Samples.orphan_row eq_refl).
  unfold has_developer. simpl. intros Hne. now apply Hne.
Defined.

End AggregatorExtras.
